(** * majdij.com client scripts: reCAPTCHA coordination and anchor scrolling

    A shallow embedding of
      - [resource/script/recaptcha-display.js] (first script of the file: the
        render / retry / submit coordinator; second script of the file: the
        earlier, self-contained responsive re-render),
      - [resource/script/form.js] (the earlier submit gate, with its
        pollers and callbacks),
      - [anchor-scroll.js] (the delegated click handler and the centring
        for the initial hash),
    followed by the properties established about them.

    Conventions of the embedding.
      - The DOM is a value: a document is a list of challenge containers,
        each with its placeholder elements in document order; a node is
        identified by a number handed out by [document.createElement].
      - A JavaScript object that is shared and mutated (the retry state
        stored in the [WeakMap] and captured by a timer closure) lives in
        an explicit heap and is referred to by its address.
      - Calls that leave the script ([grecaptcha.render], [setTimeout],
        [parent.replaceChild], [form.submit], [event.preventDefault], ...)
        are recorded, in order, in an effect log.
      - A function that can call itself without bound takes fuel and ends
        in [Exhausted] when it runs out (the call stack of the browser).
      - [console.*] output and inline CSS of the error box are not
        modelled, nor is the navigation that follows a submission: the
        state lives on after [form.submit()]. *)

From stdpp Require Import gmap strings list pretty.
From Stdlib Require Import ZArith.

Open Scope string_scope.
Open Scope list_scope.

(** ** The DOM fragment the scripts read and write *)

Module Dom.

(** Attributes of an element, in source order ([el.attributes]). *)
Definition Attrs := list (string * string).

Fixpoint getAttribute (name : string) (a : Attrs) : option string :=
  match a with
  | [] => None
  | (k, v) :: rest => if String.eqb k name then Some v else getAttribute name rest
  end.

Fixpoint setAttribute (name value : string) (a : Attrs) : Attrs :=
  match a with
  | [] => [(name, value)]
  | (k, v) :: rest =>
      if String.eqb k name then (k, value) :: rest
      else (k, v) :: setAttribute name value rest
  end.

Fixpoint removeAttribute (name : string) (a : Attrs) : Attrs :=
  match a with
  | [] => []
  | (k, v) :: rest =>
      if String.eqb k name then removeAttribute name rest
      else (k, v) :: removeAttribute name rest
  end.

(** JavaScript truthiness of a [getAttribute] result: [null] and the
    empty string are falsy. *)
Definition truthy (v : option string) : bool :=
  match v with
  | Some s => negb (String.eqb s "")
  | None => false
  end.

(** [v || ''] *)
Definition orEmpty (v : option string) : string :=
  match v with
  | Some s => s
  | None => ""
  end.

(** [v || null] on an attribute value *)
Definition orNull (v : option string) : option string :=
  if truthy v then v else None.

Record Element := mkElement {
  eid : nat;                 (* node identity *)
  classes : list string;     (* className, split *)
  attrs : Attrs
}.

Definition hasClass (name : string) (cls : list string) : bool :=
  existsb (String.eqb name) cls.

(** A [.recaptcha-container] element: its class list, whether it sits
    inside the contact form, its [.recaptcha-error-box] child (text
    content) when there is one, and the other element children. *)
Record Container := mkContainer {
  cid : nat;
  cclasses : list string;
  inForm : bool;
  errorBox : option string;
  children : list Element
}.

Definition set_cclasses (v : list string) (c : Container) : Container :=
  mkContainer (cid c) v (inForm c) (errorBox c) (children c).
Definition set_errorBox (v : option string) (c : Container) : Container :=
  mkContainer (cid c) (cclasses c) (inForm c) v (children c).
Definition set_children (v : list Element) (c : Container) : Container :=
  mkContainer (cid c) (cclasses c) (inForm c) (errorBox c) v.

(** [container.querySelector('.g-recaptcha')]: first match in document order. *)
Definition queryPlaceholder (c : Container) : option Element :=
  List.find (fun e => hasClass "g-recaptcha" (classes e)) (children c).

(** [classList.remove(name)] and [classList.add(name)] *)
Definition classRemove (name : string) (cls : list string) : list string :=
  List.filter (fun k => negb (String.eqb k name)) cls.
Definition classAdd (name : string) (cls : list string) : list string :=
  if hasClass name cls then cls else cls ++ [name].

(** [parent.replaceChild(newEl, oldEl)] inside one container. *)
Fixpoint replaceChild (newEl : Element) (oldId : nat) (l : list Element) : list Element :=
  match l with
  | [] => []
  | e :: rest =>
      if Nat.eqb (eid e) oldId then newEl :: rest
      else e :: replaceChild newEl oldId rest
  end.

Definition holds (oldId : nat) (c : Container) : bool :=
  existsb (fun e => Nat.eqb (eid e) oldId) (children c).

(** An [<input>] of the contact form. *)
Record Input := mkInput {
  itype : string;
  iname : string;
  ivalue : string
}.

Record Form := mkForm {
  inputs : list Input
}.

(** The third-party widget API as the scripts probe it:
    [render] is [Some] when [typeof grecaptcha.render === 'function'];
    applied to the number of render calls made so far it tells whether
    this call returns a widget id or throws.  [reset] tells whether
    [grecaptcha.reset] is a function, [getResponse] likewise, applied to
    a widget id. *)
Record Grecaptcha := mkGrecaptcha {
  render : option (nat -> option nat);
  reset : bool;
  getResponse : option (nat -> string)
}.

Definition renderAvailable (g : option Grecaptcha) : bool :=
  match g with
  | Some api => match render api with Some _ => true | None => false end
  | None => false
  end.

Definition resetAvailable (g : option Grecaptcha) : bool :=
  match g with
  | Some api => reset api
  | None => false
  end.

End Dom.

(** ** The readiness queue (recaptcha-display.js, lines 12-31)

    Generic in the queued closures [Cb] and in the rest of the script state
    [W]; [invoke] is what calling a closure does. *)

Module ReadyQueue.

(** Result of calling a function: it returns, it throws (the state at the
    throw is kept: JavaScript has no rollback), or the call stack is
    exhausted. *)
Inductive Outcome (S : Type) :=
| Returned (s : S)
| Threw (s : S)
| Exhausted.
Arguments Returned {S} s.
Arguments Threw {S} s.
Arguments Exhausted {S}.

Section Queue.
Context {Cb W : Type}.

Record QState := mkQState {
  grecaptchaReady : bool;
  grecaptchaReadyQueue : list Cb;
  world : W
}.

Definition set_ready (b : bool) (s : QState) : QState :=
  mkQState b (grecaptchaReadyQueue s) (world s).
Definition set_queue (q : list Cb) (s : QState) : QState :=
  mkQState (grecaptchaReady s) q (world s).
Definition set_world (w : W) (s : QState) : QState :=
  mkQState (grecaptchaReady s) (grecaptchaReadyQueue s) w.
Definition upd (f : W -> W) (s : QState) : QState :=
  set_world (f (world s)) s.

Variable invoke : Cb -> QState -> Outcome QState.

(** [function whenGrecaptchaReady(fn)] *)
Definition whenGrecaptchaReady (fn : Cb) (s : QState) : Outcome QState :=
  if grecaptchaReady s then invoke fn s
  else Returned (set_queue (grecaptchaReadyQueue s ++ [fn]) s).

(** The [while (grecaptchaReadyQueue.length)] loop: [shift], then
    [try { fn(); } catch (err) { console.error(..) }].  A closure that
    exhausts the stack ends the run here ([None]); in the browser the
    [RangeError] is caught like any other exception and the loop goes on,
    in a state this model does not describe.  What is proved of a run that
    returns says nothing of such a run. *)
Fixpoint drain (fuel : nat) (s : QState) : option QState :=
  match grecaptchaReadyQueue s with
  | [] => Some s
  | fn :: rest =>
      match fuel with
      | O => None
      | S fuel' =>
          match invoke fn (set_queue rest s) with
          | Returned s' => drain fuel' s'
          | Threw s' => drain fuel' s'
          | Exhausted => None
          end
      end
  end.

(** [window.onRecaptchaApiLoaded] *)
Definition onRecaptchaApiLoaded (fuel : nat) (s : QState) : option QState :=
  drain fuel (set_ready true s).

End Queue.

Arguments QState : clear implicits.

(** Closures a test harness can enqueue: they leave marks in a log, may
    call [whenGrecaptchaReady] themselves, and may throw. *)
Inductive Probe :=
| PReturn
| PThrow
| PMark (n : nat) (k : Probe)
| PWhenReady (fn : Probe) (k : Probe).

Fixpoint runProbe (p : Probe) (s : QState Probe (list nat))
  : Outcome (QState Probe (list nat)) :=
  match p with
  | PReturn => Returned s
  | PThrow => Threw s
  | PMark n k => runProbe k (upd (fun l => l ++ [n]) s)
  | PWhenReady fn k =>
      match whenGrecaptchaReady (fun c s' => runProbe c s') fn s with
      | Returned s' => runProbe k s'
      | Threw s' => Threw s'
      | Exhausted => Exhausted
      end
  end.

End ReadyQueue.

(** ** The coordinator (recaptcha-display.js, lines 1-311) *)

Module Display.
Import Dom ReadyQueue.

(** *** Config *)

Definition BREAKPOINT : Z := 410.
Definition DEBOUNCE_MS : nat := 120.
Definition MAX_RENDER_RETRIES : nat := 5.
Definition RETRY_BASE_MS : nat := 700.

(** *** State *)

(** The object [{ attempts, scheduled }] kept in [retryState]. *)
Record RetryObj := mkRetry {
  attempts : nat;
  scheduled : bool
}.

(** What a pending [setTimeout] closure will do.  [RetryFire] is the arrow
    function of [scheduleRenderAttempt]: it captures the state object (by
    address), the element and the container. *)
Inductive TimerBody :=
| RetryFire (ref el container : nat)
| ScrollFire (container : nat)
| ApplyCompactFire.

Record Timer := mkTimer {
  tid : nat;
  delay : nat;
  body : TimerBody
}.

Record RenderOpts := mkOpts {
  sitekey : option string;
  theme : option string;
  size : option string
}.

Inductive Effect :=
| EPreventDefault                          (* event.preventDefault() *)
| EFormSubmit                              (* form.submit() *)
| EDefaultSubmit                           (* the browser goes on with the submit event *)
| EReplaceChild (newId oldId : nat)        (* parent.replaceChild(newEl, oldEl) *)
| ERender (el : nat) (opts : RenderOpts)   (* grecaptcha.render(newEl, opts) *)
| EReset (wid : string)                    (* grecaptcha.reset(Number(wid)) *)
| ESetTimeout (t : Timer)
| EClearTimeout (id : option nat)
| EScrollIntoView (container : nat).

Record World := mkWorld {
  allowSubmit : bool;
  retryState : gmap nat nat;        (* WeakMap: element -> address of its state object *)
  heap : gmap nat RetryObj;         (* the state objects *)
  nextRef : nat;
  resizeTimer : option nat;
  innerWidth : Z;                   (* window.innerWidth *)
  grecaptcha : option Grecaptcha;   (* window.grecaptcha *)
  renderCalls : nat;
  containers : list Container;      (* document order *)
  contactForm : option Form;        (* document.getElementById(FORM_ID) *)
  nextNode : nat;
  timers : list Timer;              (* pending timeouts *)
  nextTimer : nat;
  log : list Effect
}.

Definition set_allowSubmit (v : bool) (w : World) : World :=
  mkWorld v (retryState w) (heap w) (nextRef w) (resizeTimer w) (innerWidth w)
    (grecaptcha w) (renderCalls w) (containers w) (contactForm w) (nextNode w)
    (timers w) (nextTimer w) (log w).
Definition set_retryState (v : gmap nat nat) (w : World) : World :=
  mkWorld (allowSubmit w) v (heap w) (nextRef w) (resizeTimer w) (innerWidth w)
    (grecaptcha w) (renderCalls w) (containers w) (contactForm w) (nextNode w)
    (timers w) (nextTimer w) (log w).
Definition set_heap (v : gmap nat RetryObj) (w : World) : World :=
  mkWorld (allowSubmit w) (retryState w) v (nextRef w) (resizeTimer w) (innerWidth w)
    (grecaptcha w) (renderCalls w) (containers w) (contactForm w) (nextNode w)
    (timers w) (nextTimer w) (log w).
Definition set_nextRef (v : nat) (w : World) : World :=
  mkWorld (allowSubmit w) (retryState w) (heap w) v (resizeTimer w) (innerWidth w)
    (grecaptcha w) (renderCalls w) (containers w) (contactForm w) (nextNode w)
    (timers w) (nextTimer w) (log w).
Definition set_resizeTimer (v : option nat) (w : World) : World :=
  mkWorld (allowSubmit w) (retryState w) (heap w) (nextRef w) v (innerWidth w)
    (grecaptcha w) (renderCalls w) (containers w) (contactForm w) (nextNode w)
    (timers w) (nextTimer w) (log w).
Definition set_innerWidth (v : Z) (w : World) : World :=
  mkWorld (allowSubmit w) (retryState w) (heap w) (nextRef w) (resizeTimer w) v
    (grecaptcha w) (renderCalls w) (containers w) (contactForm w) (nextNode w)
    (timers w) (nextTimer w) (log w).
Definition set_grecaptcha (v : option Grecaptcha) (w : World) : World :=
  mkWorld (allowSubmit w) (retryState w) (heap w) (nextRef w) (resizeTimer w) (innerWidth w)
    v (renderCalls w) (containers w) (contactForm w) (nextNode w)
    (timers w) (nextTimer w) (log w).
Definition set_renderCalls (v : nat) (w : World) : World :=
  mkWorld (allowSubmit w) (retryState w) (heap w) (nextRef w) (resizeTimer w) (innerWidth w)
    (grecaptcha w) v (containers w) (contactForm w) (nextNode w)
    (timers w) (nextTimer w) (log w).
Definition set_containers (v : list Container) (w : World) : World :=
  mkWorld (allowSubmit w) (retryState w) (heap w) (nextRef w) (resizeTimer w) (innerWidth w)
    (grecaptcha w) (renderCalls w) v (contactForm w) (nextNode w)
    (timers w) (nextTimer w) (log w).
Definition set_contactForm (v : option Form) (w : World) : World :=
  mkWorld (allowSubmit w) (retryState w) (heap w) (nextRef w) (resizeTimer w) (innerWidth w)
    (grecaptcha w) (renderCalls w) (containers w) v (nextNode w)
    (timers w) (nextTimer w) (log w).
Definition set_nextNode (v : nat) (w : World) : World :=
  mkWorld (allowSubmit w) (retryState w) (heap w) (nextRef w) (resizeTimer w) (innerWidth w)
    (grecaptcha w) (renderCalls w) (containers w) (contactForm w) v
    (timers w) (nextTimer w) (log w).
Definition set_timers (v : list Timer) (w : World) : World :=
  mkWorld (allowSubmit w) (retryState w) (heap w) (nextRef w) (resizeTimer w) (innerWidth w)
    (grecaptcha w) (renderCalls w) (containers w) (contactForm w) (nextNode w)
    v (nextTimer w) (log w).
Definition set_nextTimer (v : nat) (w : World) : World :=
  mkWorld (allowSubmit w) (retryState w) (heap w) (nextRef w) (resizeTimer w) (innerWidth w)
    (grecaptcha w) (renderCalls w) (containers w) (contactForm w) (nextNode w)
    (timers w) v (log w).
Definition set_log (v : list Effect) (w : World) : World :=
  mkWorld (allowSubmit w) (retryState w) (heap w) (nextRef w) (resizeTimer w) (innerWidth w)
    (grecaptcha w) (renderCalls w) (containers w) (contactForm w) (nextNode w)
    (timers w) (nextTimer w) v.

(** The whole script state: readiness flag, queue of closures
    [() => attemptRender(container, callbacks)] (a closure is its
    container), and the rest.  The [callbacks] argument passed around by
    the script is always the same triple of functions and is left out. *)
Definition State := QState nat World.

Definition emit (e : Effect) (w : World) : World :=
  set_log (log w ++ [e]) w.

(** *** Browser primitives *)

(** [setTimeout(body, ms)]: returns the new timer's id. *)
Definition setTimeout (b : TimerBody) (ms : nat) (w : World) : nat * World :=
  let t := mkTimer (nextTimer w) ms b in
  (nextTimer w,
   emit (ESetTimeout t) (set_nextTimer (S (nextTimer w)) (set_timers (timers w ++ [t]) w))).

(** [clearTimeout(id)] *)
Definition clearTimeout (id : option nat) (w : World) : World :=
  emit (EClearTimeout id)
    match id with
    | Some i => set_timers (List.filter (fun t => negb (Nat.eqb (tid t) i)) (timers w)) w
    | None => w
    end.

Definition lookupContainer (c : nat) (w : World) : option Container :=
  List.find (fun k => Nat.eqb (cid k) c) (containers w).

Definition updContainer (c : nat) (f : Container -> Container) (w : World) : World :=
  set_containers (List.map (fun k => if Nat.eqb (cid k) c then f k else k) (containers w)) w.

(** [oldEl.parentNode], [el.closest('.recaptcha-container')]: a placeholder
    is a child of its container; a node that has been replaced has no
    parent any more. *)
Definition parentOf (e : nat) (w : World) : option Container :=
  List.find (holds e) (containers w).

(** [form.querySelector('.recaptcha-container')] *)
Definition formContainer (w : World) : option Container :=
  List.find inForm (containers w).

(** [container.querySelector('.g-recaptcha')] on the live document; a
    container that is not in the document stands for a [null] one. *)
Definition currentPlaceholder (c : nat) (w : World) : option Element :=
  match lookupContainer c w with
  | Some k => queryPlaceholder k
  | None => None
  end.

(** The state object behind an address. *)
Definition deref (r : nat) (w : World) : RetryObj :=
  default (mkRetry 0 false) (heap w !! r).

(** *** Helpers of the script *)

(** [function copyDataAttributes(srcEl, destEl)] *)
Definition copyDataAttributes (src dest : Attrs) : Attrs :=
  fold_left
    (fun d kv => if String.prefix "data-" (fst kv) then setAttribute (fst kv) (snd kv) d else d)
    src dest.

(** [function desiredSize()] *)
Definition desiredSize (w : World) : option string :=
  if (innerWidth w <? BREAKPOINT)%Z then Some "compact" else None.

(** [function showInlineError(container, text)] *)
Definition showInlineError (container : option nat) (text : string) (w : World) : World :=
  match container with
  | None => w
  | Some c => updContainer c (set_errorBox (Some text)) w
  end.

(** [function clearInlineError(container)] *)
Definition clearInlineError (container : option nat) (w : World) : World :=
  match container with
  | None => w
  | Some c => updContainer c (set_errorBox None) w
  end.

(** [function buildRenderOptions(el, size, callbacks)] *)
Definition buildRenderOptions (el : Element) (size : option string) : RenderOpts :=
  mkOpts (getAttribute "data-sitekey" (attrs el))
         (orNull (getAttribute "data-theme" (attrs el)))
         (orNull size).

(** Result object of [replaceAndMaybeRender]. *)
Record RenderRes := mkRes {
  el : Element;
  widgetId : option nat;
  error : bool
}.

Definition setLiveAttribute (parent e : nat) (name value : string) (w : World) : World :=
  updContainer parent
    (fun k => set_children
       (List.map (fun x => if Nat.eqb (eid x) e
                           then mkElement (eid x) (classes x) (setAttribute name value (attrs x))
                           else x) (children k)) k) w.

(** [function replaceAndMaybeRender(oldEl, size, callbacks)] *)
Definition replaceAndMaybeRender (oldEl : Element) (size : option string) (w : World)
  : option RenderRes * World :=
  match parentOf (eid oldEl) w with
  | None => (None, w)
  | Some parent =>
      let a0 := copyDataAttributes (attrs oldEl) [] in
      let a1 := if truthy size then setAttribute "data-size" (orEmpty size) a0
                else removeAttribute "data-size" a0 in
      let a2 := if truthy size then setAttribute "data-recaptcha-rendered-size" (orEmpty size) a1
                else setAttribute "data-recaptcha-rendered-size" "" a1 in
      let newEl :=
        mkElement (nextNode w)
                  (match classes oldEl with [] => ["g-recaptcha"] | cls => cls end)
                  a2 in
      let w1 := set_nextNode (S (nextNode w)) w in
      let w2 := emit (EReplaceChild (eid newEl) (eid oldEl))
                  (updContainer (cid parent)
                     (fun k => set_children (replaceChild newEl (eid oldEl) (children k)) k) w1) in
      match grecaptcha w2 with
      | Some (mkGrecaptcha (Some renderFn) _ _) =>
          let opts := buildRenderOptions newEl size in
          let w3 := emit (ERender (eid newEl) opts) (set_renderCalls (S (renderCalls w2)) w2) in
          match renderFn (renderCalls w2) with
          | Some wid =>
              let w4 := setLiveAttribute (cid parent) (eid newEl)
                          "data-recaptcha-widget-id" (pretty wid) w3 in
              (Some (mkRes (mkElement (eid newEl) (classes newEl)
                              (setAttribute "data-recaptcha-widget-id" (pretty wid) (attrs newEl)))
                           (Some wid) false), w4)
          | None => (Some (mkRes newEl None true), w3)
          end
      | _ => (Some (mkRes newEl None false), w2)
      end
  end.

(** [function scheduleRenderAttempt(container, callbacks)] *)
Definition scheduleRenderAttempt (container : option nat) (w : World) : World :=
  match container with
  | None => w
  | Some c =>
      match lookupContainer c w with
      | None => w
      | Some k =>
          match queryPlaceholder k with
          | None => w
          | Some e =>
              (* retryState.get(el) || { attempts: 0, scheduled: false } *)
              let '(r, w0) :=
                match retryState w !! eid e with
                | Some r => (r, w)
                | None => (nextRef w,
                           set_nextRef (S (nextRef w))
                             (set_heap (<[nextRef w := mkRetry 0 false]> (heap w)) w))
                end in
              let st := deref r w0 in
              if scheduled st then w0
              else if (MAX_RENDER_RETRIES <=? attempts st)%nat then
                set_retryState (<[eid e := r]> (retryState w0))
                  (showInlineError (Some c)
                     "reCAPTCHA failed to load. Please disable adblockers or check your network/permissions."
                     w0)
              else
                let ms := (RETRY_BASE_MS * 2 ^ attempts st)%nat in
                let w1 := set_heap (<[r := mkRetry (S (attempts st)) true]> (heap w0)) w0 in
                let w2 := set_retryState (<[eid e := r]> (retryState w1)) w1 in
                snd (setTimeout (RetryFire r (eid e) c) ms w2)
          end
      end
  end.

(** [function attemptRender(container, callbacks)].  [fuel] bounds the depth
    of the synchronous recursion through [whenGrecaptchaReady].  The
    [try ... catch] around the render branch has nothing to catch here: an
    exception of [grecaptcha.render] is caught inside
    [replaceAndMaybeRender] and comes back as a result without widget id,
    and both paths end in [scheduleRenderAttempt]. *)
Fixpoint attemptRender (fuel : nat) (container : option nat) (s : State) : Outcome State :=
  match fuel with
  | O => Exhausted
  | S fuel' =>
      match container with
      | None => Returned s
      | Some c =>
          match lookupContainer c (world s) with
          | None => Returned s
          | Some _ =>
              let s1 := upd (clearInlineError (Some c)) s in
              match currentPlaceholder c (world s1) with
              | None => Returned s1
              | Some current =>
                  let widAttr := getAttribute "data-recaptcha-widget-id" (attrs current) in
                  let avail := renderAvailable (grecaptcha (world s1)) in
                  if truthy widAttr && avail then Returned s1
                  else if avail then
                    let size := desiredSize (world s1) in
                    match replaceAndMaybeRender current size (world s1) with
                    | (Some (mkRes e (Some _) _), w2) =>
                        Returned (set_world
                                    (clearInlineError (Some c)
                                       (set_retryState (delete (eid e) (retryState w2)) w2)) s1)
                    | (_, w2) =>
                        Returned (set_world (scheduleRenderAttempt (Some c) w2) s1)
                    end
                  else
                    match whenGrecaptchaReady
                            (fun c' s' => attemptRender fuel' (Some c') s') c s1 with
                    | Returned s2 => Returned (upd (scheduleRenderAttempt (Some c)) s2)
                    | Threw s2 => Threw s2
                    | Exhausted => Exhausted
                    end
              end
          end
      end
  end.

(** *** recaptcha callbacks and submit flow *)

Definition TOKEN_FIELD : string := "g-recaptcha-response".

(** [hidden.value = token] on the first [input[name="g-recaptcha-response"]] *)
Fixpoint setFirstValue (token : string) (l : list Input) : list Input :=
  match l with
  | [] => []
  | i :: rest =>
      if String.eqb (iname i) TOKEN_FIELD
      then mkInput (itype i) (iname i) token :: rest
      else i :: setFirstValue token rest
  end.

(** [function onRecaptchaSuccess(token)] *)
Definition onRecaptchaSuccess (token : string) (w : World) : World :=
  match contactForm w with
  | None => w
  | Some form =>
      let ins :=
        match List.find (fun i => String.eqb (iname i) TOKEN_FIELD) (inputs form) with
        | Some _ => setFirstValue token (inputs form)
        | None => inputs form ++ [mkInput "hidden" TOKEN_FIELD token]
        end in
      (* form.submit(): programmatic submit; bypasses onsubmit *)
      emit EFormSubmit
        (set_allowSubmit true (set_contactForm (Some (mkForm ins)) w))
  end.

(** [function onRecaptchaExpired()] *)
Definition onRecaptchaExpired (w : World) : World :=
  match contactForm w with
  | None => w
  | Some _ =>
      let container := formContainer w in
      let w1 := showInlineError (option_map cid container)
                  "reCAPTCHA expired. Please try again." w in
      (* a null container makes the try block throw; the catch ignores it *)
      match option_map cid container with
      | None => w1
      | Some c =>
          match currentPlaceholder c w1 with
          | None => w1
          | Some e =>
              let wid := getAttribute "data-recaptcha-widget-id" (attrs e) in
              if truthy wid && resetAvailable (grecaptcha w1)
              then emit (EReset (orEmpty wid)) w1
              else w1
          end
      end
  end.

(** [function onRecaptchaError()] *)
Definition onRecaptchaError (w : World) : World :=
  let container :=
    match contactForm w with
    | None => None
    | Some _ => option_map cid (formContainer w)
    end in
  scheduleRenderAttempt container
    (showInlineError container "reCAPTCHA error occurred. Please try again." w).

(** [window.onSubmitForm = function onSubmitForm(event)].  [canPrevent] is
    [event && typeof event.preventDefault === 'function']; the result pairs
    the returned boolean with the new state. *)
Definition onSubmitForm (fuel : nat) (canPrevent : bool) (s : State) : Outcome (bool * State) :=
  if allowSubmit (world s) then
    Returned (true, upd (set_allowSubmit false) s)
  else
    let s1 := if canPrevent then upd (emit EPreventDefault) s else s in
    match contactForm (world s1) with
    | None => Returned (false, s1)
    | Some _ =>
        match formContainer (world s1) with
        | None => Returned (false, upd (emit EFormSubmit) s1)
        | Some k =>
            let s2 :=
              if hasClass "recaptcha-hidden" (cclasses k) then
                upd (fun w =>
                       snd (setTimeout (ScrollFire (cid k)) 50
                              (updContainer (cid k)
                                 (fun x => set_cclasses (classRemove "recaptcha-hidden" (cclasses x)) x)
                                 w))) s1
              else s1 in
            match attemptRender fuel (Some (cid k)) s2 with
            | Returned s3 => Returned (false, s3)
            | Threw s3 => Threw (false, s3)
            | Exhausted => Exhausted
            end
        end
    end.

(** *** Responsive behaviour *)

(** [document.querySelectorAll('.recaptcha-container .g-recaptcha')] *)
Definition allPlaceholders (w : World) : list Element :=
  flat_map (fun k => List.filter (fun e => hasClass "g-recaptcha" (classes e)) (children k))
           (containers w).

(** Body of the [captchas.forEach] callback of [applyCompact]. *)
Definition applyCompactOne (fuel : nat) (size : option string) (e : Element) (s : State)
  : Outcome State :=
  let applied := orEmpty (getAttribute "data-recaptcha-rendered-size" (attrs e)) in
  let desiredNorm := match size with None => "" | Some v => v end in
  let currentAttrSize := orEmpty (getAttribute "data-size" (attrs e)) in
  if String.eqb applied desiredNorm && String.eqb currentAttrSize (orEmpty size)
  then Returned s
  else
    match parentOf (eid e) (world s) with
    | Some k => attemptRender fuel (Some (cid k)) s
    | None => Returned s
    end.

Fixpoint forEach (f : Element -> State -> Outcome State) (l : list Element) (s : State)
  : Outcome State :=
  match l with
  | [] => Returned s
  | e :: rest =>
      match f e s with
      | Returned s' => forEach f rest s'
      | Threw s' => Threw s'
      | Exhausted => Exhausted
      end
  end.

(** [function applyCompact()] *)
Definition applyCompact (fuel : nat) (s : State) : Outcome State :=
  let captchas := allPlaceholders (world s) in
  let size := desiredSize (world s) in
  forEach (applyCompactOne fuel size) captchas s.

(** [function onResize()] *)
Definition onResize (w : World) : World :=
  let w1 := clearTimeout (resizeTimer w) w in
  let '(id, w2) := setTimeout ApplyCompactFire DEBOUNCE_MS w1 in
  set_resizeTimer (Some id) w2.

(** *** The event loop

    What the browser, the user and the widget script can make happen
    between two runs of the script's code. *)
Inductive Event :=
| RunApplyCompact                 (* script start, DOMContentLoaded *)
| Resize (width : Z)              (* the window is resized, 'resize' is dispatched *)
| TimerFires (id : nat)           (* a pending timeout expires *)
| ApiDefined (g : Grecaptcha)     (* the widget script defines window.grecaptcha *)
| ApiOnload                       (* the widget script calls onRecaptchaApiLoaded *)
| UserSubmit                      (* submit event on the form, inline onsubmit *)
| WidgetSuccess (token : string)  (* the widget calls 'callback' *)
| WidgetExpired                   (* the widget calls 'expired-callback' *)
| WidgetError.                    (* the widget calls 'error-callback' *)

Definition toOption {A} (o : Outcome A) : option A :=
  match o with
  | Returned a => Some a
  | _ => None
  end.

(** [state.scheduled = false; retryState.set(el, state);] at the head of
    the retry timer's arrow function. *)
Definition clearScheduled (r e : nat) (w : World) : World :=
  set_retryState (<[e := r]> (retryState w))
    (set_heap (<[r := mkRetry (attempts (deref r w)) false]> (heap w)) w).

(** The arrow function given to [setTimeout], by kind. *)
Definition fire (fuel : nat) (b : TimerBody) (s : State) : Outcome State :=
  match b with
  | RetryFire r e c => attemptRender fuel (Some c) (upd (clearScheduled r e) s)
  | ScrollFire c => Returned (upd (emit (EScrollIntoView c)) s)
  | ApplyCompactFire => applyCompact fuel s
  end.

(** One turn of the event loop; [None] when the script's code does not
    return normally. *)
Definition step (fuel : nat) (ev : Event) (s : State) : option State :=
  match ev with
  | RunApplyCompact => toOption (applyCompact fuel s)
  | Resize width => Some (upd (fun w => onResize (set_innerWidth width w)) s)
  | TimerFires id =>
      match List.find (fun t => Nat.eqb (tid t) id) (timers (world s)) with
      | None => Some s
      | Some t =>
          toOption
            (fire fuel (body t)
               (upd (fun w => set_timers
                                (List.filter (fun x => negb (Nat.eqb (tid x) id)) (timers w)) w) s))
      end
  | ApiDefined g => Some (upd (set_grecaptcha (Some g)) s)
  | ApiOnload =>
      onRecaptchaApiLoaded (fun c s' => attemptRender fuel (Some c) s') fuel s
  | UserSubmit =>
      match onSubmitForm fuel true s with
      | Returned (true, s') => Some (upd (emit EDefaultSubmit) s')
      | Returned (false, s') => Some s'
      | _ => None
      end
  | WidgetSuccess token => Some (upd (onRecaptchaSuccess token) s)
  | WidgetExpired => Some (upd onRecaptchaExpired s)
  | WidgetError => Some (upd onRecaptchaError s)
  end.

Fixpoint run (fuel : nat) (evs : list Event) (s : State) : option State :=
  match evs with
  | [] => Some s
  | ev :: rest =>
      match step fuel ev s with
      | Some s' => run fuel rest s'
      | None => None
      end
  end.

End Display.

(** ** The earlier submit gate (form.js) *)

Module FormJs.
Import Dom.

Record RenderOpts := mkOpts {
  sitekey : option string;
  theme : string;
  size : option string
}.

Inductive Effect :=
| EPreventDefault                          (* event.preventDefault() on the submit event *)
| EClickPreventDefault                     (* ev.preventDefault() on the click event *)
| ERender (el : nat) (opts : RenderOpts)   (* grecaptcha.render(el, opts) *)
| EReset (wid : nat)                       (* grecaptcha.reset(recaptchaWidgetId) *)
| ESetInterval (id : nat)                  (* setInterval(.., 200) *)
| EClearInterval (id : nat)
| EScrollIntoView (container : nat)
| ERequestSubmit (form : nat)              (* pendingForm.requestSubmit() *)
| EFormSubmit (form : nat)                 (* the form is sent: pendingForm.submit(), or
                                              a submit event the handler lets through *)
| EAttention (container : nat).            (* the 800 ms 'recaptcha-attention' flash *)

Record State := mkState {
  recaptchaWidgetId : option nat;
  recaptchaRenderedSize : option string;
  pendingForm : option nat;
  apiLoaded : bool;
  grecaptcha : option Grecaptcha;      (* window.grecaptcha *)
  renderCalls : nat;
  containers : list Container;         (* document order *)
  contactForm : option nat;            (* document.getElementById(FORM_ID) *)
  canRequestSubmit : bool;             (* typeof form.requestSubmit === 'function' *)
  intervals : list nat;                (* pending pollers *)
  nextInterval : nat;
  log : list Effect
}.

Definition set_recaptchaWidgetId (v : option nat) (s : State) : State :=
  mkState v (recaptchaRenderedSize s) (pendingForm s) (apiLoaded s) (grecaptcha s)
    (renderCalls s) (containers s) (contactForm s) (canRequestSubmit s) (intervals s)
    (nextInterval s) (log s).
Definition set_recaptchaRenderedSize (v : option string) (s : State) : State :=
  mkState (recaptchaWidgetId s) v (pendingForm s) (apiLoaded s) (grecaptcha s)
    (renderCalls s) (containers s) (contactForm s) (canRequestSubmit s) (intervals s)
    (nextInterval s) (log s).
Definition set_pendingForm (v : option nat) (s : State) : State :=
  mkState (recaptchaWidgetId s) (recaptchaRenderedSize s) v (apiLoaded s) (grecaptcha s)
    (renderCalls s) (containers s) (contactForm s) (canRequestSubmit s) (intervals s)
    (nextInterval s) (log s).
Definition set_apiLoaded (v : bool) (s : State) : State :=
  mkState (recaptchaWidgetId s) (recaptchaRenderedSize s) (pendingForm s) v (grecaptcha s)
    (renderCalls s) (containers s) (contactForm s) (canRequestSubmit s) (intervals s)
    (nextInterval s) (log s).
Definition set_renderCalls (v : nat) (s : State) : State :=
  mkState (recaptchaWidgetId s) (recaptchaRenderedSize s) (pendingForm s) (apiLoaded s)
    (grecaptcha s) v (containers s) (contactForm s) (canRequestSubmit s) (intervals s)
    (nextInterval s) (log s).
Definition set_containers (v : list Container) (s : State) : State :=
  mkState (recaptchaWidgetId s) (recaptchaRenderedSize s) (pendingForm s) (apiLoaded s)
    (grecaptcha s) (renderCalls s) v (contactForm s) (canRequestSubmit s) (intervals s)
    (nextInterval s) (log s).
Definition set_intervals (v : list nat) (n : nat) (s : State) : State :=
  mkState (recaptchaWidgetId s) (recaptchaRenderedSize s) (pendingForm s) (apiLoaded s)
    (grecaptcha s) (renderCalls s) (containers s) (contactForm s) (canRequestSubmit s) v
    n (log s).
Definition emit (e : Effect) (s : State) : State :=
  mkState (recaptchaWidgetId s) (recaptchaRenderedSize s) (pendingForm s) (apiLoaded s)
    (grecaptcha s) (renderCalls s) (containers s) (contactForm s) (canRequestSubmit s)
    (intervals s) (nextInterval s) (log s ++ [e]).

(** [document.querySelector(RECAPTCHA_CONTAINER_SEL)] *)
Definition firstContainer (s : State) : option Container :=
  head (containers s).

(** [document.querySelector(RECAPTCHA_WIDGET_SEL)] *)
Definition firstWidget (s : State) : option Element :=
  head (flat_map (fun k => List.filter (fun e => hasClass "g-recaptcha" (classes e)) (children k))
                 (containers s)).

Definition updFirstContainer (f : Container -> Container) (s : State) : State :=
  match containers s with
  | [] => s
  | k :: rest => set_containers (f k :: rest) s
  end.

(** [function renderRecaptchaIfNeeded()], without the poller's own call back
    into it (see [pollTick]). *)
Definition renderRecaptchaIfNeeded (s : State) : State :=
  match recaptchaWidgetId s with
  | Some _ => s
  | None =>
      match firstWidget s with
      | None => s
      | Some e =>
          match grecaptcha s with
          | Some (mkGrecaptcha (Some renderFn) _ _) =>
              let sizeAttr := orNull (getAttribute "data-size" (attrs e)) in
              let opts := mkOpts (getAttribute "data-sitekey" (attrs e))
                                 (match orNull (getAttribute "data-theme" (attrs e)) with
                                  | Some t => t
                                  | None => "light"
                                  end)
                                 sizeAttr in
              let s1 := emit (ERender (eid e) opts) (set_renderCalls (S (renderCalls s)) s) in
              match renderFn (renderCalls s) with
              | Some wid =>
                  let s2 := set_recaptchaWidgetId (Some wid) s1 in
                  match sizeAttr with
                  | Some v => set_recaptchaRenderedSize (Some v) s2
                  | None => s2
                  end
              | None => s1
              end
          | _ =>
              emit (ESetInterval (nextInterval s))
                (set_intervals (intervals s ++ [nextInterval s]) (S (nextInterval s)) s)
          end
      end
  end.

(** The arrow function given to [setInterval]. *)
Definition pollTick (id : nat) (s : State) : State :=
  if renderAvailable (grecaptcha s) then
    renderRecaptchaIfNeeded
      (emit (EClearInterval id)
         (set_intervals (List.filter (fun i => negb (Nat.eqb i id)) (intervals s))
                        (nextInterval s) s))
  else s.

(** [function showRecaptcha()] *)
Definition showRecaptcha (s : State) : State :=
  match firstContainer s with
  | None => s
  | Some k =>
      let s1 := updFirstContainer
                  (fun x => set_cclasses
                              (classAdd "recaptcha-visible"
                                 (classRemove "recaptcha-hidden" (cclasses x))) x) s in
      emit (EScrollIntoView (cid k)) (renderRecaptchaIfNeeded s1)
  end.

(** [grecaptcha.getResponse(recaptchaWidgetId)] when the widget is rendered
    and the function exists. *)
Definition response (s : State) : option string :=
  match recaptchaWidgetId s, grecaptcha s with
  | Some wid, Some (mkGrecaptcha _ _ (Some getResp)) => Some (getResp wid)
  | _, _ => None
  end.

(** [resp && resp.length > 0] *)
Definition solved (s : State) : bool :=
  match response s with
  | Some resp => negb (String.eqb resp "")
  | None => false
  end.

(** [window.onSubmitForm = function (event)]; [target] is [event.target]. *)
Definition onSubmitForm (target : option nat) (s : State) : bool * State :=
  let form := match target with Some f => Some f | None => contactForm s end in
  match form with
  | None => (true, s)
  | Some f =>
      if solved s then (true, s)
      else (false, showRecaptcha (set_pendingForm (Some f) (emit EPreventDefault s)))
  end.

(** The click listener put on the form's submit control at
    [DOMContentLoaded]. *)
Definition onSubmitClick (form : nat) (s : State) : State :=
  match firstContainer s with
  | Some k =>
      if negb (hasClass "recaptcha-hidden" (cclasses k)) then
        match response s with
        | Some resp =>
            if String.eqb resp "" then
              set_pendingForm (Some form)
                (emit (EAttention (cid k))
                   (emit (EScrollIntoView (cid k)) (emit EClickPreventDefault s)))
            else s
        | None => s
        end
      else s
  | None => s
  end.

(** [window.onRecaptchaSuccess = function (token)].  [requestSubmit]
    validates the fields first: [valid] is whether the pending form passes
    the browser's constraint validation when the callback runs.  On an
    invalid form nothing more happens; on a valid one the submit event is
    dispatched, which runs the inline handler again, and the form is sent
    when that handler lets it through.  [form.submit()] does neither.
    Called without a submitter, [requestSubmit] does not throw, so the
    [catch] branch of the callback is not reached. *)
Definition onRecaptchaSuccess (token : string) (valid : bool) (s : State) : State :=
  match pendingForm s with
  | None => s
  | Some f =>
      let s1 :=
        if canRequestSubmit s then
          let s0 := emit (ERequestSubmit f) s in
          if valid then
            let '(ok, s') := onSubmitForm (Some f) s0 in
            if ok then emit (EFormSubmit f) s' else s'
          else s0
        else emit (EFormSubmit f) s in
      set_pendingForm None s1
  end.

(** [window.onRecaptchaExpired] and the reset of [window.onRecaptchaError] *)
Definition onRecaptchaExpired (s : State) : State :=
  match recaptchaWidgetId s with
  | Some wid => if resetAvailable (grecaptcha s) then emit (EReset wid) s else s
  | None => s
  end.

Definition onRecaptchaError (s : State) : State :=
  onRecaptchaExpired s.

(** [window.onRecaptchaApiLoad] *)
Definition onRecaptchaApiLoad (s : State) : State :=
  let s1 := set_apiLoaded true s in
  match firstContainer s1 with
  | Some k =>
      if negb (hasClass "recaptcha-hidden" (cclasses k)) then renderRecaptchaIfNeeded s1 else s1
  | None => s1
  end.

End FormJs.

(** ** Anchor scrolling (anchor-scroll.js) *)

Module AnchorScroll.

Record Url := mkUrl {
  origin : string;
  pathname : string;
  hash : string
}.

(** What the handler needs to know of a target element. *)
Record Target := mkTarget {
  node : nat;
  hasScrollIntoView : bool;       (* typeof el.scrollIntoView === 'function' *)
  scrollIntoViewThrows : bool;
  tabindex : option string;       (* el.getAttribute('tabindex') *)
  focusOptionsThrow : bool;       (* el.focus({ preventScroll: true }) throws *)
  roundedTop : Z                  (* Math.round(top) of the manual fallback *)
}.

Record Page := mkPage {
  location : Url;
  parseUrl : string -> option Url;        (* new URL(href, location.href); None: it throws *)
  getElementById : string -> option Target;
  getElementsByName : string -> list Target;
  prefersReducedMotion : bool
}.

Inductive Effect :=
| EPreventDefault
| EScrollIntoView (el : nat) (behavior : string)
| EScrollTo (top : Z) (behavior : string)
| EPushState (url : string)
| ESetTabindex (el : nat) (value : string)
| EFocus (el : nat) (preventScroll : bool)
| ERemoveTabindexNextFrame (el : nat).

Definition DEFAULT_BEHAVIOR (p : Page) : string :=
  if prefersReducedMotion p then "auto" else "smooth".

(** [function centerElement(el, behavior)] on a non-null element.  The
    fallback computes
    [top = pageYOffset + rect.top - innerHeight / 2 + rect.height / 2] in
    double-precision arithmetic; that arithmetic is not modelled, and
    [roundedTop t] stands for the whole number [Math.round(top)] the browser
    arrives at for this element.  [Math.max(0, _)] on it is exact. *)
Definition centerElement (p : Page) (t : Target) (behavior : string) : list Effect :=
  if hasScrollIntoView t && negb (scrollIntoViewThrows t) then
    [EScrollIntoView (node t) behavior]
  else
    [EScrollTo (Z.max 0 (roundedTop t)) behavior].

(** [function focusWithoutScroll(el)] on a non-null element *)
Definition focusWithoutScroll (t : Target) : list Effect :=
  let pre := match tabindex t with
             | None => [ESetTabindex (node t) "-1"]
             | Some _ => []
             end in
  let foc := if focusOptionsThrow t then [EFocus (node t) false] else [EFocus (node t) true] in
  let post := match tabindex t with
              | None => [ERemoveTabindexNextFrame (node t)]
              | Some v => [ESetTabindex (node t) v]
              end in
  pre ++ foc ++ post.

(** [s.slice(1)] *)
Definition slice1 (s : string) : string :=
  match s with
  | EmptyString => EmptyString
  | String _ rest => rest
  end.

(** [document.getElementById(id) || document.getElementsByName(id)[0]] *)
Definition findTarget (p : Page) (id : string) : option Target :=
  match getElementById p id with
  | Some t => Some t
  | None => head (getElementsByName p id)
  end.

Definition scrollTo (p : Page) (id : string) (t : Target) : list Effect :=
  [EPreventDefault] ++ centerElement p t (DEFAULT_BEHAVIOR p)
    ++ [EPushState (String.append "#" id)] ++ focusWithoutScroll t.

(** [function onDocumentClick(e)].  [anchor] is the [href] attribute of
    [e.target.closest('a[href*="#"]')], [None] when there is no such
    anchor. *)
Definition onDocumentClick (p : Page) (anchor : option string) : list Effect :=
  match anchor with
  | None => []
  | Some href =>
      if String.eqb href "" then []
      else
        match parseUrl p href with
        | None =>
            (* naive hash parse when URL is missing or rejects the href *)
            match String.index 0 "#" href with
            | None => []
            | Some hashIndex =>
                let id := String.substring (S hashIndex) (String.length href - S hashIndex) href in
                if String.eqb id "" then []
                else
                  match findTarget p id with
                  | None => []
                  | Some t => scrollTo p id t
                  end
            end
        | Some url =>
            if negb (String.eqb (origin url) (origin (location p)))
               || negb (String.eqb (pathname url) (pathname (location p)))
            then []
            else
              let id := slice1 (hash url) in
              if String.eqb id "" then []
              else
                match findTarget p id with
                | None => []
                | Some t => scrollTo p id t
                end
        end
  end.

End AnchorScroll.

(** ** Vocabulary of the statements *)

Module QueueSpec.
Import ReadyQueue.

(** Whether a probe ends by throwing, and the marks it leaves, when it runs
    after readiness (its own [whenGrecaptchaReady] calls then run their
    argument on the spot). *)
Fixpoint throws (p : Probe) : bool :=
  match p with
  | PReturn => false
  | PThrow => true
  | PMark _ k => throws k
  | PWhenReady fn k => throws fn || throws k
  end.

Fixpoint marks (p : Probe) : list nat :=
  match p with
  | PReturn => []
  | PThrow => []
  | PMark n k => n :: marks k
  | PWhenReady fn k => marks fn ++ (if throws fn then [] else marks k)
  end.

(** Calling [whenGrecaptchaReady] on each closure of a list, in order. *)
Fixpoint registerAll (cbs : list Probe) (s : QState Probe (list nat))
  : Outcome (QState Probe (list nat)) :=
  match cbs with
  | [] => Returned s
  | cb :: rest =>
      match whenGrecaptchaReady runProbe cb s with
      | Returned s' => registerAll rest s'
      | Threw s' => Threw s'
      | Exhausted => Exhausted
      end
  end.

(** How a call that leaves the marks [ms] ends. *)
Definition finish (threw : bool) (s : QState Probe (list nat)) (ms : list nat)
  : Outcome (QState Probe (list nat)) :=
  if threw then Threw (upd (fun l => l ++ ms) s) else Returned (upd (fun l => l ++ ms) s).

End QueueSpec.

Module DisplaySpec.
Import Dom ReadyQueue Display.

(** The inputs of a form that carry the token field's name. *)
Definition tokenInputs (l : list Input) : list Input :=
  List.filter (fun i => String.eqb (iname i) TOKEN_FIELD) l.

(** The delay of a logged [setTimeout] when it is a retry for element [e]. *)
Definition retryDelay (e : nat) (x : Effect) : option nat :=
  match x with
  | ESetTimeout t =>
      match body t with
      | RetryFire _ e' _ => if Nat.eqb e' e then Some (delay t) else None
      | _ => None
      end
  | _ => None
  end.

(** Delays of the retries scheduled so far for element [e], oldest first. *)
Definition retryDelays (e : nat) (l : list Effect) : list nat :=
  omap (retryDelay e) l.

(** Delays of all retries scheduled so far, whatever the element. *)
Definition allRetryDelays (l : list Effect) : list nat :=
  omap (fun x => match x with
                 | ESetTimeout (mkTimer _ d (RetryFire _ _ _)) => Some d
                 | _ => None
                 end) l.

Definition isRetry (t : Timer) : bool :=
  match body t with
  | RetryFire _ _ _ => true
  | _ => false
  end.

Definition isRetryFor (e : nat) (t : Timer) : bool :=
  match body t with
  | RetryFire _ e' _ => Nat.eqb e' e
  | _ => false
  end.

(** Retry timers for element [e] that are scheduled and have not fired. *)
Definition pendingRetries (e : nat) (w : World) : list Timer :=
  List.filter (isRetryFor e) (timers w).

(** The retry counter of element [e]: [retryState.get(e).attempts], 0
    without an entry (the default of [scheduleRenderAttempt]). *)
Definition attemptsOf (e : nat) (w : World) : nat :=
  match retryState w !! e with
  | Some r => attempts (deref r w)
  | None => 0
  end.

(** The retry counter of the placeholder now in container [c]. *)
Definition currentAttempts (c : nat) (w : World) : nat :=
  match currentPlaceholder c w with
  | Some e => attemptsOf (eid e) w
  | None => 0
  end.

(** [baseDelay * 2^0, ..., baseDelay * 2^(n-1)] *)
Definition backoff (n : nat) : list nat :=
  List.map (fun i => (RETRY_BASE_MS * 2 ^ i)%nat) (seq 0 n).

Fixpoint increasing (l : list nat) : bool :=
  match l with
  | a :: rest =>
      match rest with
      | b :: _ => Nat.ltb a b && increasing rest
      | [] => true
      end
  | [] => true
  end.

(** States after each event of a run, oldest first; the run stops where the
    script does not return. *)
Fixpoint runTrace (fuel : nat) (evs : list Event) (s : State) : list State :=
  match evs with
  | [] => []
  | ev :: rest =>
      match step fuel ev s with
      | Some s' => s' :: runTrace fuel rest s'
      | None => []
      end
  end.

(** The widget script calls the onload hook only once its API is there:
    when the readiness flag is up, [grecaptcha.render] is a function. *)
Definition apiSane (s : State) : Prop :=
  grecaptchaReady s = true -> renderAvailable (grecaptcha (world s)) = true.

(** The script has just been loaded: nothing is scheduled, nothing has
    been logged, and the nodes of the page are older than any node the
    script will create. *)
Definition justLoaded (s : State) : Prop :=
  retryState (world s) = ∅
  /\ timers (world s) = []
  /\ log (world s) = []
  /\ Forall (fun k => Forall (fun x => eid x < nextNode (world s)) (children k))
            (containers (world s)).

(** What holds of the retry bookkeeping in every state the script reaches. *)
Record Inv (w : World) : Prop := mkInv {
  inv_dom : forall e r, retryState w !! e = Some r -> e < nextNode w /\ r < nextRef w;
  inv_inj : forall e1 e2 r,
      retryState w !! e1 = Some r -> retryState w !! e2 = Some r -> e1 = e2;
  inv_timer : forall t r e c,
      In t (timers w) -> body t = RetryFire r e c ->
      retryState w !! e = Some r /\ scheduled (deref r w) = true;
  inv_one : forall e, length (pendingRetries e w) <= 1;
  inv_idle : forall e r,
      retryState w !! e = Some r -> scheduled (deref r w) = false -> pendingRetries e w = [];
  inv_nodes : Forall (fun k => Forall (fun x => eid x < nextNode w) (children k))
                     (containers w);
  inv_delays : forall e,
      retryDelays e (log w) = backoff (attemptsOf e w)
      /\ attemptsOf e w <= MAX_RENDER_RETRIES
}.

(** The render API is present and the placeholder of every container
    carries a widget id. *)
Definition allRendered (w : World) : Prop :=
  renderAvailable (grecaptcha w) = true
  /\ forall c cur,
       currentPlaceholder c w = Some cur ->
       truthy (getAttribute "data-recaptcha-widget-id" (attrs cur)) = true.

(** Nothing happened to the widgets between [w] and [w']: same
    placeholders, same effect log, same number of render calls, same
    pending timers, no node created. *)
Definition widgetsUntouched (w w' : World) : Prop :=
  List.map children (containers w') = List.map children (containers w)
  /\ log w' = log w
  /\ renderCalls w' = renderCalls w
  /\ timers w' = timers w
  /\ nextNode w' = nextNode w.

(** Effects of the render path: node replacement, render call, timer. *)
Definition renderOnly (e : Effect) : bool :=
  match e with
  | EReplaceChild _ _ => true
  | ERender _ _ => true
  | ESetTimeout _ => true
  | _ => false
  end.

(** [w'] has the log of [w] followed by effects of the render path only. *)
Definition extendsLog (w w' : World) : Prop :=
  exists l, log w' = log w ++ l /\ forallb renderOnly l = true.


Definition isRetryOf (c : nat) (t : Timer) : bool :=
  match body t with
  | RetryFire _ _ c' => Nat.eqb c' c
  | _ => false
  end.

(** A logged [setTimeout] when it is a retry for the placeholder of
    container [c], whichever node that is at the time. *)
Definition slotRetry (c : nat) (x : Effect) : option Timer :=
  match x with
  | ESetTimeout t => if isRetryOf c t then Some t else None
  | _ => None
  end.

(** The retries scheduled so far for the placeholder of container [c],
    oldest first, and their delays. *)
Definition slotRetries (c : nat) (l : list Effect) : list Timer :=
  omap (slotRetry c) l.

Definition slotRetryDelays (c : nat) (l : list Effect) : list nat :=
  List.map delay (slotRetries c l).

(** Retry timers for the placeholder of container [c] that are scheduled
    and have not fired. *)
Definition slotPendingRetries (c : nat) (w : World) : list Timer :=
  List.filter (isRetryOf c) (timers w).

(** The [scheduled] flag of the state object a retry timer has captured. *)
Definition retryFlag (w : World) (t : Timer) : bool :=
  match body t with
  | RetryFire r _ _ => scheduled (deref r w)
  | _ => false
  end.

End DisplaySpec.

Module FormSpec.
Import Dom FormJs.

(** Effects by which form.js sends the form. *)
Definition noSubmit (e : Effect) : bool :=
  match e with
  | ERequestSubmit _ => false
  | EFormSubmit _ => false
  | _ => true
  end.

(** Effects by which form.js gets the widget rendered: the render call
    itself, or the poller that renders once the API is there. *)
Definition renderAttempt (e : Effect) : bool :=
  match e with
  | ERender _ _ => true
  | ESetInterval _ => true
  | _ => false
  end.

End FormSpec.

(** ** Sample pages *)

Module Scenario.
Import Dom ReadyQueue.

Definition placeholder : Element :=
  mkElement 0 ["g-recaptcha"] [("data-sitekey", "SITEKEY"); ("data-theme", "dark")].

Definition container : Container :=
  mkContainer 0 ["recaptcha-container"; "recaptcha-hidden"] true None [placeholder].

(** A widget script whose [render] always throws. *)
Definition apiThrowing : Grecaptcha :=
  mkGrecaptcha (Some (fun _ => None)) true (Some (fun _ => "")).

(** A widget script whose [render] hands out 0, 1, 2, ... and whose widgets
    have no response yet. *)
Definition apiUnsolved : Grecaptcha :=
  mkGrecaptcha (Some (fun n => Some n)) true (Some (fun _ => "")).

(** The same with every widget solved. *)
Definition apiSolved : Grecaptcha :=
  mkGrecaptcha (Some (fun n => Some n)) true (Some (fun _ => "TOKEN123")).

(** The contact page as recaptcha-display.js finds it. *)
Definition page (g : option Grecaptcha) (width : Z) : Display.State :=
  mkQState false []
    (Display.mkWorld false ∅ ∅ 0 None width g 0 [container] (Some (mkForm [])) 1 [] 0 []).

(** The placeholder once a widget has been rendered into its replacement. *)
Definition renderedPlaceholder : Element :=
  mkElement 1 ["g-recaptcha"]
    [("data-sitekey", "SITEKEY"); ("data-theme", "dark");
     ("data-recaptcha-rendered-size", ""); ("data-recaptcha-widget-id", "0")].


(** The contact page with the challenge shown, rendered at normal size and
    solved. *)
Definition solvedPage (width : Z) : Display.State :=
  mkQState true []
    (Display.mkWorld false ∅ ∅ 0 None width (Some apiSolved) 1
       [mkContainer 0 ["recaptcha-container"] true None [renderedPlaceholder]]
       (Some (mkForm [])) 2 [] 1 []).

(** The contact page with the challenge shown and rendered at normal size,
    not solved yet. *)
Definition renderedPage (width : Z) : Display.State :=
  mkQState true []
    (Display.mkWorld false ∅ ∅ 0 None width (Some apiUnsolved) 1
       [mkContainer 0 ["recaptcha-container"] true None [renderedPlaceholder]]
       (Some (mkForm [])) 2 [] 1 []).

(** The same page after the widget's error callback: a retry is pending
    for the rendered placeholder. *)
Definition retryPendingPage : Display.State :=
  upd Display.onRecaptchaError (renderedPage 500).

(** The contact page as form.js finds it, and with a solved widget. *)
Definition formPage (g : option Grecaptcha) : FormJs.State :=
  FormJs.mkState None None None false g 0 [container] (Some 0) true [] 0 [].

Definition formPageSolved : FormJs.State :=
  FormJs.mkState (Some 0) None None true (Some apiSolved) 1
    [mkContainer 0 ["recaptcha-container"; "recaptcha-visible"] true None [placeholder]]
    (Some 0) true [] 0 [].

Definition anchorPage : AnchorScroll.Page :=
  AnchorScroll.mkPage (AnchorScroll.mkUrl "https://majdij.com" "/contact" "")
    (fun href => Some (AnchorScroll.mkUrl "https://majdij.com" "/projects" "#top"))
    (fun id => Some (AnchorScroll.mkTarget 7 true false None false 0%Z))
    (fun id => [])
    false.

End Scenario.

(** ** The earlier responsive script (recaptcha-display.js, lines 312-419)

    The second script of the file re-renders on resize by itself: it has no
    retry state, no readiness queue and no submit flow.  It only looks at
    the elements matched by ['.recaptcha-container .g-recaptcha'] and at
    their parents, so its document is the list of the elements that sit
    inside the challenge containers, in document order; an element of that
    list has a parent, a node that has been replaced has none. *)

Module Legacy.
Import Dom.

Definition BREAKPOINT : Z := 410.
Definition DEBOUNCE_MS : nat := 120.

(** Options handed to [grecaptcha.render]; a callback is recorded by the
    name of the global function it is bound to. *)
Record RenderOpts := mkOpts {
  sitekey : option string;
  theme : option string;
  size : option string;
  callback : option string;
  expiredCallback : option string;
  errorCallback : option string
}.

Inductive Effect :=
| EReplaceChild (newId oldId : nat)        (* parent.replaceChild(newEl, oldEl) *)
| ERender (el : nat) (opts : RenderOpts)   (* grecaptcha.render(newEl, opts) *)
| ESetTimeout (id ms : nat)                (* setTimeout(applyCompact, ms) *)
| EClearTimeout (id : option nat).

Record World := mkWorld {
  innerWidth : Z;                     (* window.innerWidth *)
  grecaptcha : option Grecaptcha;     (* window.grecaptcha *)
  globalFunction : string -> bool;    (* typeof window[name] === 'function' *)
  renderCalls : nat;
  nodes : list Element;               (* document order *)
  nextNode : nat;
  resizeTimer : option nat;
  timers : list nat;                  (* pending timeouts *)
  nextTimer : nat;
  log : list Effect
}.

Definition set_innerWidth (v : Z) (w : World) : World :=
  mkWorld v (grecaptcha w) (globalFunction w) (renderCalls w) (nodes w) (nextNode w)
    (resizeTimer w) (timers w) (nextTimer w) (log w).
Definition set_grecaptcha (v : option Grecaptcha) (w : World) : World :=
  mkWorld (innerWidth w) v (globalFunction w) (renderCalls w) (nodes w) (nextNode w)
    (resizeTimer w) (timers w) (nextTimer w) (log w).
Definition set_renderCalls (v : nat) (w : World) : World :=
  mkWorld (innerWidth w) (grecaptcha w) (globalFunction w) v (nodes w) (nextNode w)
    (resizeTimer w) (timers w) (nextTimer w) (log w).
Definition set_nodes (v : list Element) (w : World) : World :=
  mkWorld (innerWidth w) (grecaptcha w) (globalFunction w) (renderCalls w) v (nextNode w)
    (resizeTimer w) (timers w) (nextTimer w) (log w).
Definition set_nextNode (v : nat) (w : World) : World :=
  mkWorld (innerWidth w) (grecaptcha w) (globalFunction w) (renderCalls w) (nodes w) v
    (resizeTimer w) (timers w) (nextTimer w) (log w).
Definition set_resizeTimer (v : option nat) (w : World) : World :=
  mkWorld (innerWidth w) (grecaptcha w) (globalFunction w) (renderCalls w) (nodes w) (nextNode w)
    v (timers w) (nextTimer w) (log w).
Definition set_timers (v : list nat) (n : nat) (w : World) : World :=
  mkWorld (innerWidth w) (grecaptcha w) (globalFunction w) (renderCalls w) (nodes w) (nextNode w)
    (resizeTimer w) v n (log w).
Definition emit (e : Effect) (w : World) : World :=
  mkWorld (innerWidth w) (grecaptcha w) (globalFunction w) (renderCalls w) (nodes w) (nextNode w)
    (resizeTimer w) (timers w) (nextTimer w) (log w ++ [e]).

(** [function desiredSize()] *)
Definition desiredSize (w : World) : option string :=
  if (innerWidth w <? BREAKPOINT)%Z then Some "compact" else None.

(** [function copyDataAttributes(srcEl, destEl)]: the same text as in the
    first script. *)
Definition copyDataAttributes (src dest : Attrs) : Attrs :=
  Display.copyDataAttributes src dest.

(** [name && typeof window[name] === 'function'] on an attribute value *)
Definition namedCallback (w : World) (v : option string) : option string :=
  if truthy v && globalFunction w (orEmpty v) then v else None.

(** [function buildRenderOptions(el, size)] *)
Definition buildRenderOptions (w : World) (el : Element) (size : option string) : RenderOpts :=
  mkOpts (getAttribute "data-sitekey" (attrs el))
         (orNull (getAttribute "data-theme" (attrs el)))
         (orNull size)
         (namedCallback w (getAttribute "data-callback" (attrs el)))
         (namedCallback w (getAttribute "data-expired-callback" (attrs el)))
         (namedCallback w (getAttribute "data-error-callback" (attrs el))).

(** [oldEl.parentNode] is not [null] *)
Definition hasParent (e : nat) (w : World) : bool :=
  existsb (fun x => Nat.eqb (eid x) e) (nodes w).

(** [newEl.setAttribute(name, value)] on the element in the document *)
Definition setLiveAttribute (e : nat) (name value : string) (l : list Element) : list Element :=
  List.map (fun x => if Nat.eqb (eid x) e
                     then mkElement (eid x) (classes x) (setAttribute name value (attrs x))
                     else x) l.

(** [function replaceAndMaybeRender(oldEl, size)] *)
Definition replaceAndMaybeRender (oldEl : Element) (size : option string) (w : World) : World :=
  if negb (hasParent (eid oldEl) w) then w
  else
    let a0 := copyDataAttributes (attrs oldEl) [] in
    let a1 := if truthy size then setAttribute "data-size" (orEmpty size) a0
              else removeAttribute "data-size" a0 in
    let a2 := if truthy size then setAttribute "data-recaptcha-rendered-size" (orEmpty size) a1
              else setAttribute "data-recaptcha-rendered-size" "" a1 in
    let newEl :=
      mkElement (nextNode w)
                (match classes oldEl with [] => ["g-recaptcha"] | cls => cls end)
                a2 in
    let w1 := emit (EReplaceChild (eid newEl) (eid oldEl))
                (set_nodes (replaceChild newEl (eid oldEl) (nodes w))
                   (set_nextNode (S (nextNode w)) w)) in
    match grecaptcha w1 with
    | Some (mkGrecaptcha (Some renderFn) _ _) =>
        let opts := buildRenderOptions w1 newEl size in
        let w2 := emit (ERender (eid newEl) opts) (set_renderCalls (S (renderCalls w1)) w1) in
        match renderFn (renderCalls w1) with
        | Some wid =>
            set_nodes (setLiveAttribute (eid newEl) "data-recaptcha-widget-id" (pretty wid)
                         (nodes w2)) w2
        | None => w2
        end
    | _ => w1
    end.

(** [document.querySelectorAll('.recaptcha-container .g-recaptcha')] *)
Definition querySelectorAll (w : World) : list Element :=
  List.filter (fun e => hasClass "g-recaptcha" (classes e)) (nodes w).

(** [a === b] on two results of [getAttribute] *)
Definition sameAttr (a b : option string) : bool :=
  match a, b with
  | Some x, Some y => String.eqb x y
  | None, None => true
  | _, _ => false
  end.

(** The test at the head of the [captchas.forEach] callback: the element
    already reflects the desired size. *)
Definition reflects (size : option string) (el : Element) : bool :=
  let applied := getAttribute "data-recaptcha-rendered-size" (attrs el) in
  let currentAttrSize := getAttribute "data-size" (attrs el) in
  let appliedNorm := match applied with None => "" | Some v => v end in
  let desiredNorm := match size with None => "" | Some v => v end in
  String.eqb appliedNorm desiredNorm && sameAttr currentAttrSize (orNull size).

(** Body of the [captchas.forEach] callback of [applyCompact]. *)
Definition applyCompactOne (size : option string) (w : World) (el : Element) : World :=
  if reflects size el then w else replaceAndMaybeRender el size w.

(** [function applyCompact()] *)
Definition applyCompact (w : World) : World :=
  fold_left (applyCompactOne (desiredSize w)) (querySelectorAll w) w.

(** [function onResize()] *)
Definition onResize (w : World) : World :=
  let w1 := emit (EClearTimeout (resizeTimer w))
              match resizeTimer w with
              | Some i => set_timers (List.filter (fun t => negb (Nat.eqb t i)) (timers w))
                                     (nextTimer w) w
              | None => w
              end in
  let id := nextTimer w1 in
  set_resizeTimer (Some id)
    (emit (ESetTimeout id DEBOUNCE_MS) (set_timers (timers w1 ++ [id]) (S id) w1)).

Inductive Event :=
| RunApplyCompact                 (* script start, DOMContentLoaded *)
| Resize (width : Z)              (* the window is resized, 'resize' is dispatched *)
| TimerFires (id : nat)           (* a pending timeout expires *)
| ApiDefined (g : Grecaptcha).    (* the widget script defines window.grecaptcha *)

Definition step (ev : Event) (w : World) : World :=
  match ev with
  | RunApplyCompact => applyCompact w
  | Resize width => onResize (set_innerWidth width w)
  | TimerFires id =>
      if existsb (Nat.eqb id) (timers w)
      then applyCompact
             (set_timers (List.filter (fun t => negb (Nat.eqb t id)) (timers w)) (nextTimer w) w)
      else w
  | ApiDefined g => set_grecaptcha (Some g) w
  end.

Definition run (evs : list Event) (w : World) : World :=
  fold_left (fun x ev => step ev x) evs w.

End Legacy.

(** ** The initial hash (anchor-scroll.js, lines 88-116) *)

Module AnchorInit.
Import AnchorScroll.

(** [function handleInitialHash()].  The element is looked up at once; the
    centring is deferred to the second animation frame after [load].  The
    result lists what that deferred callback does when it runs. *)
Definition handleInitialHash (p : Page) : list Effect :=
  if String.eqb (hash (location p)) "" then []
  else
    let id := slice1 (hash (location p)) in
    if String.eqb id "" then []
    else
      match findTarget p id with
      | None => []
      | Some t => centerElement p t "auto" ++ focusWithoutScroll t
      end.

End AnchorInit.

(** ** The event loop of form.js *)

Module FormLoop.
Import Dom FormJs.

Definition set_grecaptcha (v : option Grecaptcha) (s : State) : State :=
  mkState (recaptchaWidgetId s) (recaptchaRenderedSize s) (pendingForm s) (apiLoaded s) v
    (renderCalls s) (containers s) (contactForm s) (canRequestSubmit s) (intervals s)
    (nextInterval s) (log s).

(** What the browser, the user and the widget script can make happen
    between two runs of the script's code. *)
Inductive Event :=
| SubmitEvent (target : option nat)   (* submit event on the form, inline onsubmit *)
| ClickSubmit                         (* click on the form's submit control, listener of DOMContentLoaded *)
| Success (token : string) (valid : bool)
                                      (* the widget calls onRecaptchaSuccess; [valid]: the
                                         form's fields pass validation at that time *)
| Expired                             (* the widget calls onRecaptchaExpired *)
| Error                               (* the widget calls onRecaptchaError *)
| ApiLoad                             (* the widget script calls onRecaptchaApiLoad *)
| ApiDefined (g : Grecaptcha)         (* the widget script defines window.grecaptcha *)
| Tick (id : nat).                    (* a poller's interval elapses *)

Definition step (ev : Event) (s : State) : State :=
  match ev with
  | SubmitEvent target => snd (onSubmitForm target s)
  | ClickSubmit =>
      match contactForm s with
      | Some f => onSubmitClick f s
      | None => s
      end
  | Success token valid => onRecaptchaSuccess token valid s
  | Expired => onRecaptchaExpired s
  | Error => onRecaptchaError s
  | ApiLoad => onRecaptchaApiLoad s
  | ApiDefined g => set_grecaptcha (Some g) s
  | Tick id => if existsb (Nat.eqb id) (intervals s) then pollTick id s else s
  end.

Definition run (evs : list Event) (s : State) : State :=
  fold_left (fun x ev => step ev x) evs s.

End FormLoop.

(** ** Vocabulary of the further statements *)

Module LoopSpec.
Import Dom ReadyQueue Display.

Definition isApplyCompact (t : Timer) : bool :=
  match body t with
  | ApplyCompactFire => true
  | _ => false
  end.

(** Pending timeouts that will run [applyCompact]. *)
Definition pendingResizes (w : World) : list Timer :=
  List.filter isApplyCompact (timers w).

(** The nodes handed to [grecaptcha.render] so far, oldest first. *)
Definition renderedNodes (l : list Effect) : list nat :=
  omap (fun x => match x with ERender n _ => Some n | _ => None end) l.

Definition isDefaultSubmit (x : Effect) : bool :=
  match x with
  | EDefaultSubmit => true
  | _ => false
  end.

(** Submit events the handler has let through. *)
Definition defaultSubmits (l : list Effect) : nat :=
  length (List.filter isDefaultSubmit l).

Definition isSolve (ev : Event) : bool :=
  match ev with
  | WidgetSuccess _ => true
  | _ => false
  end.

(** Calls of the solved callback among the events. *)
Definition solves (evs : list Event) : nat :=
  length (List.filter isSolve evs).

(** The attributes [replaceAndMaybeRender] gives the new node, before the
    widget id is known. *)
Definition stamped (size : option string) (old : Attrs) : Attrs :=
  let a0 := copyDataAttributes old [] in
  let a1 := if truthy size then setAttribute "data-size" (orEmpty size) a0
            else removeAttribute "data-size" a0 in
  if truthy size then setAttribute "data-recaptcha-rendered-size" (orEmpty size) a1
  else setAttribute "data-recaptcha-rendered-size" "" a1.

(** The container the error callback works on:
    [form && form.querySelector('.recaptcha-container')]. *)
Definition formTarget (w : World) : option nat :=
  match contactForm w with
  | None => None
  | Some _ => option_map cid (formContainer w)
  end.

(** The part of the script that only renders and schedules: it leaves the
    submit flag and the debounce handle alone, arms timers that are not
    debounce timers, with the next free ids, lets no submit event through
    and renders into nodes created on the way. *)
Record Grows (w w' : World) : Prop := mkGrows {
  g_allow : allowSubmit w' = allowSubmit w;
  g_resize : resizeTimer w' = resizeTimer w;
  g_node : nextNode w <= nextNode w';
  g_timers : exists lt,
      timers w' = timers w ++ lt
      /\ Forall (fun t => isApplyCompact t = false) lt
      /\ List.map tid lt = seq (nextTimer w) (length lt)
      /\ nextTimer w' = nextTimer w + length lt;
  g_log : exists ll,
      log w' = log w ++ ll
      /\ defaultSubmits ll = 0
      /\ NoDup (renderedNodes ll)
      /\ Forall (fun n => nextNode w <= n < nextNode w') (renderedNodes ll)
}.

(** What holds of the timers, of the submit flag and of the render calls
    in every state the script reaches, [n] being the number of calls of the
    solved callback so far and [lo] the first node the script created. *)
Record Tidy (lo n : nat) (w : World) : Prop := mkTidy {
  t_resize : forall t, In t (timers w) -> isApplyCompact t = true ->
                       resizeTimer w = Some (tid t) /\ delay t = DEBOUNCE_MS;
  t_ids : NoDup (List.map tid (timers w));
  t_next : Forall (fun t => tid t < nextTimer w) (timers w);
  t_budget : defaultSubmits (log w) + (if allowSubmit w then 1 else 0) <= n;
  t_fresh : NoDup (renderedNodes (log w));
  t_lo : lo <= nextNode w;
  t_nodes : Forall (fun x => lo <= x < nextNode w) (renderedNodes (log w))
}.

End LoopSpec.

Module AnchorSpec.
Import AnchorScroll.

(** The [tabindex] attribute of element [el] after an effect, the removal
    on the next animation frame included. *)
Definition tabindexStep (el : nat) (v : option string) (e : Effect) : option string :=
  match e with
  | ESetTabindex n x => if Nat.eqb n el then Some x else v
  | ERemoveTabindexNextFrame n => if Nat.eqb n el then None else v
  | _ => v
  end.

Definition tabindexAfter (el : nat) (l : list Effect) (init : option string) : option string :=
  fold_left (tabindexStep el) l init.

Definition isPrevent (e : Effect) : bool :=
  match e with EPreventDefault => true | _ => false end.
Definition isPush (e : Effect) : bool :=
  match e with EPushState _ => true | _ => false end.
Definition isScroll (e : Effect) : bool :=
  match e with EScrollIntoView _ _ => true | EScrollTo _ _ => true | _ => false end.
Definition isFocus (e : Effect) : bool :=
  match e with EFocus _ _ => true | _ => false end.

Definition count (p : Effect -> bool) (l : list Effect) : nat :=
  length (List.filter p l).

(** The scroll behaviour of an effect, when it scrolls. *)
Definition behaviorOf (e : Effect) : option string :=
  match e with
  | EScrollIntoView _ b => Some b
  | EScrollTo _ b => Some b
  | _ => None
  end.

End AnchorSpec.

Module LegacySpec.
Import Dom Legacy.

(** The document is well formed: node identities are unique and older than
    any node the script will create. *)
Definition wellFormed (w : World) : Prop :=
  NoDup (List.map eid (nodes w)) /\ Forall (fun x => eid x < nextNode w) (nodes w).

(** Placeholders that do not reflect the size [size]. *)
Definition stale (size : option string) (l : list Element) : list Element :=
  List.filter (fun e => negb (reflects size e)) l.

Definition renderCount (l : list Effect) : nat :=
  length (List.filter (fun x => match x with ERender _ _ => true | _ => false end) l).

Definition replaceCount (l : list Effect) : nat :=
  length (List.filter (fun x => match x with EReplaceChild _ _ => true | _ => false end) l).

End LegacySpec.

Module FormLoopSpec.
Import Dom FormJs.

Definition isRender (e : Effect) : bool :=
  match e with ERender _ _ => true | _ => false end.

Definition isSend (e : Effect) : bool :=
  match e with EFormSubmit _ => true | _ => false end.

Definition isRequest (e : Effect) : bool :=
  match e with ERequestSubmit _ => true | _ => false end.

Definition isSuccess (ev : FormLoop.Event) : bool :=
  match ev with FormLoop.Success _ _ => true | _ => false end.

Definition count {A} (p : A -> bool) (l : list A) : nat :=
  length (List.filter p l).

(** Between [s] and [s']: the same widget id, no render call. *)
Definition sameWidget (s s' : State) : Prop :=
  recaptchaWidgetId s' = recaptchaWidgetId s
  /\ renderCalls s' = renderCalls s
  /\ count isRender (log s') = count isRender (log s).

End FormLoopSpec.

(** ** Further sample pages *)

Module Samples.
Import Dom.

(** A placeholder already bound to the compact size. *)
Definition compactPlaceholder : Element :=
  mkElement 1 ["g-recaptcha"]
    [("data-sitekey", "SITEKEY"); ("data-size", "compact");
     ("data-recaptcha-rendered-size", "compact"); ("data-recaptcha-widget-id", "0")].

(** A page of the earlier responsive script: one fresh placeholder and one
    rendered at compact size. *)
Definition legacyPage (g : option Grecaptcha) (width : Z) : Legacy.World :=
  Legacy.mkWorld width g (fun _ => false) 1 [Scenario.placeholder; compactPlaceholder] 2
    None [] 0 [].

(** A page whose anchor target exists, reached through a same-page link. *)
Definition samePage : AnchorScroll.Page :=
  AnchorScroll.mkPage (AnchorScroll.mkUrl "https://majdij.com" "/contact" "#form")
    (fun href => Some (AnchorScroll.mkUrl "https://majdij.com" "/contact" "#form"))
    (fun id => if String.eqb id "form"
               then Some (AnchorScroll.mkTarget 7 false false None false 100%Z)
               else None)
    (fun id => [])
    false.

End Samples.

(** ** Properties *)

Arguments Display.scheduleRenderAttempt : simpl never.
Arguments Display.replaceAndMaybeRender : simpl never.
Arguments Display.attemptRender : simpl never.
Arguments Display.clearInlineError : simpl never.
Arguments Display.showInlineError : simpl never.
Arguments Display.applyCompact : simpl never.
Arguments Display.onRecaptchaError : simpl never.
Arguments Display.onRecaptchaExpired : simpl never.
Arguments Display.onRecaptchaSuccess : simpl never.
Arguments Display.onResize : simpl never.

(** Projections of a state built with the setters. *)
Ltac world_proj :=
  cbn [snd fst Display.setTimeout Display.emit
       Display.allowSubmit Display.retryState Display.heap Display.nextRef
       Display.resizeTimer Display.innerWidth Display.grecaptcha Display.renderCalls
       Display.containers Display.contactForm Display.nextNode Display.timers
       Display.nextTimer Display.log
       Display.set_allowSubmit Display.set_retryState Display.set_heap Display.set_nextRef
       Display.set_resizeTimer Display.set_innerWidth Display.set_grecaptcha
       Display.set_renderCalls Display.set_containers Display.set_contactForm
       Display.set_nextNode Display.set_timers Display.set_nextTimer Display.set_log
       Display.updContainer
       ReadyQueue.world ReadyQueue.upd ReadyQueue.set_world ReadyQueue.set_queue
       ReadyQueue.set_ready ReadyQueue.grecaptchaReady ReadyQueue.grecaptchaReadyQueue] in *.

Section ReadyQueueFacts.
Import ReadyQueue QueueSpec.

Lemma upd_nil (s : QState Probe (list nat)) : upd (fun l => l ++ []) s = s.
Proof. destruct s as [r q w]. unfold upd, set_world. simpl. by rewrite app_nil_r. Qed.

Lemma upd_app (s : QState Probe (list nat)) (a b : list nat) :
  upd (fun l => l ++ b) (upd (fun l => l ++ a) s) = upd (fun l => l ++ (a ++ b)) s.
Proof. destruct s as [r q w]. unfold upd, set_world. simpl. by rewrite app_assoc. Qed.

(** After readiness a probe runs to its end (or to its throw) on the spot,
    leaving exactly its marks and touching neither flag nor queue. *)
Lemma runProbe_ready (p : Probe) :
  forall s, grecaptchaReady s = true ->
            runProbe p s = finish (throws p) s (marks p).
Proof.
  induction p as [| | n k IHk | fn IHfn k IHk]; intros s Hr; simpl.
  - unfold finish. by rewrite upd_nil.
  - unfold finish. by rewrite upd_nil.
  - rewrite IHk by (by destruct s). unfold finish.
    destruct (throws k); by rewrite upd_app.
  - unfold whenGrecaptchaReady. rewrite Hr, IHfn by done. unfold finish.
    destruct (throws fn); simpl.
    + by rewrite app_nil_r.
    + rewrite IHk by (by destruct s). unfold finish.
      destruct (throws k); by rewrite upd_app.
Qed.

Lemma registerAll_before_ready (cbs : list Probe) :
  forall q l, registerAll cbs (mkQState false q l) = Returned (mkQState false (q ++ cbs) l).
Proof.
  induction cbs as [| cb rest IH]; intros q l; simpl.
  - by rewrite app_nil_r.
  - unfold whenGrecaptchaReady, set_queue. simpl. rewrite IH.
    by rewrite <- app_assoc.
Qed.

Lemma drain_ready (cbs : list Probe) :
  forall l, drain runProbe (length cbs) (mkQState true cbs l)
            = Some (mkQState true [] (l ++ flat_map marks cbs)).
Proof.
  induction cbs as [| cb rest IH]; intros l; simpl.
  - by rewrite app_nil_r.
  - rewrite runProbe_ready by done. unfold finish, set_queue, upd, set_world. simpl.
    destruct (throws cb); rewrite IH; by rewrite <- app_assoc.
Qed.

(** C6. Closures handed to [whenGrecaptchaReady] before the readiness signal
    are only queued, in call order, and none of them runs.
    [onRecaptchaApiLoaded] then sets the flag and empties the queue, and
    the marks left are those of the first closure, then of the second, and
    so on, each closure's marks once, whether or not an earlier closure
    threw.  A closure registered after readiness runs inside the call to
    [whenGrecaptchaReady] itself. *)
Theorem ready_queue_fifo_once :
  forall (cbs : list Probe) (l : list nat),
    registerAll cbs (mkQState false [] l) = Returned (mkQState false cbs l)
    /\ onRecaptchaApiLoaded runProbe (length cbs) (mkQState false cbs l)
       = Some (mkQState true [] (l ++ flat_map marks cbs))
    /\ forall (late : Probe) (l' : list nat),
         whenGrecaptchaReady runProbe late (mkQState true [] l')
         = finish (throws late) (mkQState true [] l') (marks late).
Proof.
  intros cbs l. split; [| split].
  - apply (registerAll_before_ready cbs [] l).
  - unfold onRecaptchaApiLoaded, set_ready. simpl. apply drain_ready.
  - intros late l'. unfold whenGrecaptchaReady. simpl. by apply runProbe_ready.
Qed.

(** The scenario of the specification: A, B and C are queued, B throws. *)
Example ready_queue_A_B_C :
  onRecaptchaApiLoaded runProbe 3
    (mkQState false [PMark 1 PReturn; PMark 2 PThrow; PMark 3 PReturn] [])
  = Some (mkQState true [] [1; 2; 3]).
Proof. reflexivity. Qed.

End ReadyQueueFacts.

(** *** Anchor scrolling *)

Section AnchorScrollFacts.
Import AnchorScroll.

(** C10. A click on an anchor whose resolved URL has another origin or
    another path than the current location, or an empty fragment, or a
    fragment that names no element (by id or by name), has no effect at
    all: no [preventDefault], no scrolling, no history entry, no focus. *)
Theorem foreign_or_dangling_anchor_untouched :
  forall (p : Page) (href : string) (url : Url),
    parseUrl p href = Some url ->
    origin url <> origin (location p)
    \/ pathname url <> pathname (location p)
    \/ slice1 (hash url) = ""
    \/ findTarget p (slice1 (hash url)) = None ->
    onDocumentClick p (Some href) = [].
Proof.
  intros p href url Hurl Hcase. unfold onDocumentClick.
  destruct (String.eqb href "") eqn:Hh; [done |].
  rewrite Hurl.
  destruct (String.eqb_spec (origin url) (origin (location p))) as [Ho | Ho]; simpl; [| done].
  destruct (String.eqb_spec (pathname url) (pathname (location p))) as [Hp | Hp]; simpl; [| done].
  destruct (String.eqb_spec (slice1 (hash url)) "") as [Hf | Hf]; [done |].
  destruct Hcase as [H | [H | [H | H]]]; try contradiction.
  by rewrite H.
Qed.

Lemma foreign_or_dangling_anchor_untouched_witness :
  onDocumentClick Scenario.anchorPage (Some "/projects#top") = [].
Proof.
  apply (foreign_or_dangling_anchor_untouched Scenario.anchorPage "/projects#top"
           (mkUrl "https://majdij.com" "/projects" "#top")).
  - reflexivity.
  - right. left. simpl. discriminate.
Defined.

End AnchorScrollFacts.

(** *** The solved callback *)

Section SuccessFacts.
Import Dom ReadyQueue Display DisplaySpec.

Lemma tokenInputs_none (l : list Input) :
  List.find (fun i => String.eqb (iname i) TOKEN_FIELD) l = None -> tokenInputs l = [].
Proof.
  induction l as [| i rest IH]; simpl; [done |].
  destruct (String.eqb (iname i) TOKEN_FIELD); [done | exact IH].
Qed.

Lemma tokenInputs_app (a b : list Input) :
  tokenInputs (a ++ b) = tokenInputs a ++ tokenInputs b.
Proof. unfold tokenInputs. apply List.filter_app. Qed.

Lemma tokenInputs_setFirstValue (token : string) (l : list Input) :
  tokenInputs (setFirstValue token l)
  = match tokenInputs l with
    | [] => []
    | i :: rest => mkInput (itype i) (iname i) token :: rest
    end.
Proof.
  induction l as [| i rest IH]; simpl; [done |].
  destruct (String.eqb (iname i) TOKEN_FIELD) eqn:Hn; simpl; rewrite Hn; [done |].
  exact IH.
Qed.

Lemma tokenInputs_name (l : list Input) (i : Input) :
  In i (tokenInputs l) -> iname i = TOKEN_FIELD.
Proof.
  unfold tokenInputs. rewrite List.filter_In. intros [_ H].
  by apply String.eqb_eq.
Qed.

End SuccessFacts.

(** *** Frame lemmas for the DOM helpers *)

Section DomFrame.
Import Dom ReadyQueue Display DisplaySpec.

Lemma find_map_cid (c : nat) (f : Container -> Container) (l : list Container) :
  (forall k, cid (f k) = cid k) ->
  List.find (fun k => Nat.eqb (cid k) c) (List.map f l)
  = option_map f (List.find (fun k => Nat.eqb (cid k) c) l).
Proof.
  intros Hf. induction l as [| k rest IH]; simpl; [done |].
  rewrite Hf. destruct (Nat.eqb (cid k) c); [done | exact IH].
Qed.

Lemma lookupContainer_updContainer (c c' : nat) (f : Container -> Container) (w : World) :
  (forall k, cid (f k) = cid k) ->
  lookupContainer c (updContainer c' f w)
  = option_map (fun k => if Nat.eqb (cid k) c' then f k else k) (lookupContainer c w).
Proof.
  intros Hf. unfold lookupContainer, updContainer. simpl.
  apply find_map_cid. intros k. destruct (Nat.eqb (cid k) c'); [apply Hf | done].
Qed.

Lemma currentPlaceholder_updContainer (c c' : nat) (f : Container -> Container) (w : World) :
  (forall k, cid (f k) = cid k) ->
  (forall k, children (f k) = children k) ->
  currentPlaceholder c (updContainer c' f w) = currentPlaceholder c w.
Proof.
  intros Hc Hch. unfold currentPlaceholder.
  rewrite lookupContainer_updContainer by done.
  destruct (lookupContainer c w) as [k |]; simpl; [| done].
  unfold queryPlaceholder. destruct (Nat.eqb (cid k) c'); [by rewrite Hch | done].
Qed.

Lemma children_updContainer (c : nat) (f : Container -> Container) (w : World) :
  (forall k, children (f k) = children k) ->
  List.map children (containers (updContainer c f w)) = List.map children (containers w).
Proof.
  intros Hch. unfold updContainer. simpl. rewrite List.map_map.
  apply List.map_ext. intros k. destruct (Nat.eqb (cid k) c); [apply Hch | done].
Qed.

Lemma currentPlaceholder_clearInlineError (c : nat) (o : option nat) (w : World) :
  currentPlaceholder c (clearInlineError o w) = currentPlaceholder c w.
Proof.
  destruct o as [c' |]; simpl; [| done].
  by apply currentPlaceholder_updContainer.
Qed.

Lemma children_clearInlineError (o : option nat) (w : World) :
  List.map children (containers (clearInlineError o w)) = List.map children (containers w).
Proof.
  destruct o as [c' |]; simpl; [| done]. by apply children_updContainer.
Qed.

Lemma find_map_same {A} (p : A -> bool) (f : A -> A) (l : list A) :
  (forall x, p (f x) = p x) ->
  List.find p (List.map f l) = option_map f (List.find p l).
Proof.
  intros Hp. induction l as [| x rest IH]; simpl; [done |].
  rewrite Hp. destruct (p x); [done | exact IH].
Qed.

Lemma parentOf_updContainer (e c : nat) (f : Container -> Container) (w : World) :
  (forall k, children (f k) = children k) ->
  parentOf e (updContainer c f w)
  = option_map (fun k => if Nat.eqb (cid k) c then f k else k) (parentOf e w).
Proof.
  intros Hch. unfold parentOf, updContainer. world_proj.
  apply find_map_same. intros k. unfold holds.
  destruct (Nat.eqb (cid k) c); [by rewrite Hch | done].
Qed.

Lemma currentPlaceholder_lookup (c : nat) (w : World) (e : Element) :
  currentPlaceholder c w = Some e -> exists k, lookupContainer c w = Some k.
Proof.
  unfold currentPlaceholder. destruct (lookupContainer c w) as [k |]; [eauto | done].
Qed.

End DomFrame.

(** *** A retry that fires on a rendered placeholder *)

Section RenderedFacts.
Import Dom ReadyQueue Display DisplaySpec.

Lemma attemptRender_unfold (fuel : nat) (container : option nat) (s : State) :
  attemptRender (S fuel) container s
  = match container with
    | None => Returned s
    | Some c =>
        match lookupContainer c (world s) with
        | None => Returned s
        | Some _ =>
            let s1 := upd (clearInlineError (Some c)) s in
            match currentPlaceholder c (world s1) with
            | None => Returned s1
            | Some current =>
                let widAttr := getAttribute "data-recaptcha-widget-id" (attrs current) in
                let avail := renderAvailable (grecaptcha (world s1)) in
                if truthy widAttr && avail then Returned s1
                else if avail then
                  let size := desiredSize (world s1) in
                  match replaceAndMaybeRender current size (world s1) with
                  | (Some (mkRes e (Some _) _), w2) =>
                      Returned (set_world
                                  (clearInlineError (Some c)
                                     (set_retryState (delete (eid e) (retryState w2)) w2)) s1)
                  | (_, w2) =>
                      Returned (set_world (scheduleRenderAttempt (Some c) w2) s1)
                  end
                else
                  match whenGrecaptchaReady
                          (fun c' s' => attemptRender fuel (Some c') s') c s1 with
                  | Returned s2 => Returned (upd (scheduleRenderAttempt (Some c)) s2)
                  | Threw s2 => Threw s2
                  | Exhausted => Exhausted
                  end
            end
        end
    end.
Proof. reflexivity. Qed.

Lemma grecaptcha_clearInlineError (o : option nat) (w : World) :
  grecaptcha (clearInlineError o w) = grecaptcha w.
Proof. by destruct o. Qed.

Lemma grecaptcha_showInlineError (o : option nat) (t : string) (w : World) :
  grecaptcha (showInlineError o t w) = grecaptcha w.
Proof. by destruct o. Qed.

(** With a widget id on the container's placeholder and the render API
    present, [attemptRender] only clears the inline error. *)
Lemma attemptRender_rendered (fuel : nat) (c : nat) (s : State) (current : Element) :
  currentPlaceholder c (world s) = Some current ->
  truthy (getAttribute "data-recaptcha-widget-id" (attrs current)) = true ->
  renderAvailable (grecaptcha (world s)) = true ->
  attemptRender (S fuel) (Some c) s = Returned (upd (clearInlineError (Some c)) s).
Proof.
  intros Hcur Hwid Hav. rewrite attemptRender_unfold.
  destruct (currentPlaceholder_lookup _ _ _ Hcur) as [k Hk]. rewrite Hk.
  cbv zeta. cbn [world upd set_world].
  rewrite currentPlaceholder_clearInlineError, Hcur, Hwid.
  by rewrite grecaptcha_clearInlineError, Hav.
Qed.

(** C9. When the placeholder of a container already carries a widget id and
    the render API is present, a pending retry for that container that
    fires replaces no node and calls neither [grecaptcha.render] nor
    [setTimeout]: the effect log, the number of render calls, the
    placeholders of every container, the node counter and the readiness
    queue are as before, and the fired timer is simply gone. *)
Theorem fired_retry_after_success_is_noop :
  forall (fuel : nat) (s : State) (id : nat) (t : Timer) (r e c : nat) (current : Element),
    List.find (fun x => Nat.eqb (tid x) id) (timers (world s)) = Some t ->
    body t = RetryFire r e c ->
    currentPlaceholder c (world s) = Some current ->
    truthy (getAttribute "data-recaptcha-widget-id" (attrs current)) = true ->
    renderAvailable (grecaptcha (world s)) = true ->
    exists s',
      step (S fuel) (TimerFires id) s = Some s'
      /\ log (world s') = log (world s)
      /\ renderCalls (world s') = renderCalls (world s)
      /\ List.map children (containers (world s')) = List.map children (containers (world s))
      /\ nextNode (world s') = nextNode (world s)
      /\ timers (world s')
         = List.filter (fun x => negb (Nat.eqb (tid x) id)) (timers (world s))
      /\ grecaptchaReadyQueue s' = grecaptchaReadyQueue s.
Proof.
  intros fuel s id t r e c current Hfind Hbody Hcur Hwid Hav.
  unfold step. rewrite Hfind, Hbody. unfold fire.
  erewrite attemptRender_rendered; [| exact Hcur | exact Hwid | exact Hav].
  eexists. split; [reflexivity |].
  unfold clearInlineError. cbn. rewrite List.map_map. repeat split.
  apply List.map_ext. intros k. by destruct (Nat.eqb (cid k) c).
Qed.

Lemma fired_retry_after_success_is_noop_witness :
  exists s',
    step 1 (TimerFires 1) Scenario.retryPendingPage = Some s'
    /\ log (world s') = log (world Scenario.retryPendingPage)
    /\ renderCalls (world s') = renderCalls (world Scenario.retryPendingPage)
    /\ List.map children (containers (world s'))
       = List.map children (containers (world Scenario.retryPendingPage))
    /\ nextNode (world s') = nextNode (world Scenario.retryPendingPage)
    /\ timers (world s')
       = List.filter (fun x => negb (Nat.eqb (tid x) 1)) (timers (world Scenario.retryPendingPage))
    /\ grecaptchaReadyQueue s' = grecaptchaReadyQueue Scenario.retryPendingPage.
Proof.
  apply (fired_retry_after_success_is_noop 0 Scenario.retryPendingPage 1
           (mkTimer 1 700 (RetryFire 0 1 0)) 0 1 0 Scenario.renderedPlaceholder);
    reflexivity.
Defined.

(** The pending retry of the witness is the one the error callback armed. *)
Example retryPendingPage_timers :
  timers (world Scenario.retryPendingPage) = [mkTimer 1 700 (RetryFire 0 1 0)].
Proof. reflexivity. Qed.

End RenderedFacts.

(** *** What the render path may add to the effect log *)

Section LogFacts.
Import Dom ReadyQueue Display DisplaySpec.

Lemma extendsLog_refl (w : World) : extendsLog w w.
Proof. exists []. by rewrite app_nil_r. Qed.

Lemma extendsLog_eq (w w' : World) : log w' = log w -> extendsLog w w'.
Proof. intros H. exists []. by rewrite app_nil_r. Qed.

Lemma extendsLog_trans (a b c : World) : extendsLog a b -> extendsLog b c -> extendsLog a c.
Proof.
  intros [l1 [H1 F1]] [l2 [H2 F2]]. exists (l1 ++ l2). split.
  - by rewrite H2, H1, app_assoc.
  - by rewrite forallb_app, F1, F2.
Qed.

Lemma extendsLog_emit (e : Effect) (w w' : World) :
  renderOnly e = true -> log w' = log w -> extendsLog w (emit e w').
Proof.
  intros He Hl. exists [e]. simpl. by rewrite He, Hl.
Qed.


Lemma log_showInlineError (o : option nat) (t : string) (w : World) :
  log (showInlineError o t w) = log w.
Proof. by destruct o. Qed.

Lemma scheduleRenderAttempt_log (container : option nat) (w : World) :
  extendsLog w (scheduleRenderAttempt container w).
Proof.
  unfold scheduleRenderAttempt.
  destruct container as [c |]; [| apply extendsLog_refl].
  destruct (lookupContainer c w) as [k |]; [| apply extendsLog_refl].
  destruct (queryPlaceholder k) as [e |]; [| apply extendsLog_refl].
  destruct (retryState w !! eid e) as [r |].
  - destruct (scheduled (deref r w)); [apply extendsLog_refl |].
    destruct (MAX_RENDER_RETRIES <=? attempts (deref r w))%nat.
    + by apply extendsLog_eq.
    + by apply extendsLog_emit.
  - match goal with |- context [deref ?r ?w0] => destruct (scheduled (deref r w0)) end.
    + by apply extendsLog_eq.
    + match goal with |- context [(_ <=? ?a)%nat] => destruct (MAX_RENDER_RETRIES <=? a)%nat end.
      * by apply extendsLog_eq.
      * by apply extendsLog_emit.
Qed.

Lemma replaceAndMaybeRender_log (e : Element) (sz : option string) (w : World) :
  extendsLog w (snd (replaceAndMaybeRender e sz w)).
Proof.
  unfold replaceAndMaybeRender.
  destruct (parentOf (eid e) w) as [parent |]; [| apply extendsLog_refl].
  cbv zeta. cbn [grecaptcha emit set_log updContainer set_containers set_nextNode].
  destruct (grecaptcha w) as [[[renderFn |] rs gr] |]; cbn [snd].
  - destruct (renderFn _) as [wid |]; cbn [snd].
    + eexists [_; _]. split; [cbn; by rewrite <- app_assoc | done].
    + eexists [_; _]. split; [cbn; by rewrite <- app_assoc | done].
  - by apply extendsLog_emit.
  - by apply extendsLog_emit.
Qed.

Lemma attemptRender_log (fuel : nat) :
  forall (container : option nat) (s s' : State),
    attemptRender fuel container s = Returned s' -> extendsLog (world s) (world s').
Proof.
  induction fuel as [| fuel IH]; intros container s s' H; [done |].
  rewrite attemptRender_unfold in H.
  destruct container as [c |]; [| injection H as <-; apply extendsLog_refl].
  destruct (lookupContainer c (world s)); [| injection H as <-; apply extendsLog_refl].
  cbv zeta in H.
  assert (Hc : extendsLog (world s) (world (upd (clearInlineError (Some c)) s)))
    by (by apply extendsLog_eq).
  destruct (currentPlaceholder c _) as [current |]; [| by injection H as <-].
  destruct (truthy _ && _); [by injection H as <- |].
  destruct (renderAvailable _).
  - pose proof (replaceAndMaybeRender_log current
                  (desiredSize (world (upd (clearInlineError (Some c)) s)))
                  (world (upd (clearInlineError (Some c)) s))) as Hr.
    destruct (replaceAndMaybeRender _ _ _) as [[[e [wid |] err] |] w2]; cbn [snd] in Hr;
      injection H as <-; cbn [world set_world].
    + eapply extendsLog_trans; [exact Hc |]. eapply extendsLog_trans; [exact Hr |].
      by apply extendsLog_eq.
    + eapply extendsLog_trans; [exact Hc |]. eapply extendsLog_trans; [exact Hr |].
      apply scheduleRenderAttempt_log.
    + eapply extendsLog_trans; [exact Hc |]. eapply extendsLog_trans; [exact Hr |].
      apply scheduleRenderAttempt_log.
  - unfold whenGrecaptchaReady in H.
    destruct (grecaptchaReady _).
    + destruct (attemptRender fuel (Some c) _) as [s2 | s2 |] eqn:H2; [| done | done].
      injection H as <-. apply IH in H2.
      eapply extendsLog_trans; [exact Hc |]. eapply extendsLog_trans; [exact H2 |].
      apply scheduleRenderAttempt_log.
    + injection H as <-. cbn [world upd set_world set_queue].
      eapply extendsLog_trans; [exact Hc |]. apply scheduleRenderAttempt_log.
Qed.

(** [attemptRender] never ends with an exception of its own. *)
Lemma attemptRender_no_throw (fuel : nat) :
  forall (container : option nat) (s s' : State),
    attemptRender fuel container s <> Threw s'.
Proof.
  induction fuel as [| fuel IH]; intros container s s' H; [done |].
  rewrite attemptRender_unfold in H.
  destruct container as [c |]; [| done].
  destruct (lookupContainer c (world s)); [| done].
  cbv zeta in H.
  destruct (currentPlaceholder c _) as [current |]; [| done].
  destruct (truthy _ && _); [done |].
  destruct (renderAvailable _).
  - by destruct (replaceAndMaybeRender _ _ _) as [[[e [wid |] err] |] w2].
  - unfold whenGrecaptchaReady in H.
    destruct (grecaptchaReady _); [| done].
    destruct (attemptRender fuel (Some c) _) as [s2 | s2 |] eqn:H2; [done | | done].
    by apply IH in H2.
Qed.

(** With one unit of fuel [attemptRender] returns, unless the readiness
    flag is up while the API is missing (the script then calls itself
    through [whenGrecaptchaReady] until the stack is exhausted). *)
Lemma attemptRender_returns (fuel : nat) (container : option nat) (s : State) :
  apiSane s -> exists s', attemptRender (S fuel) container s = Returned s'.
Proof.
  intros Hsane. rewrite attemptRender_unfold.
  destruct container as [c |]; [| by eexists].
  destruct (lookupContainer c (world s)); [| by eexists].
  cbv zeta.
  destruct (currentPlaceholder c _) as [current |]; [| by eexists].
  destruct (truthy _ && _); [by eexists |].
  destruct (renderAvailable (grecaptcha (world (upd (clearInlineError (Some c)) s)))) eqn:Hav.
  - destruct (replaceAndMaybeRender _ _ _) as [[[e [wid |] err] |] w2]; by eexists.
  - unfold whenGrecaptchaReady.
    destruct (grecaptchaReady (upd (clearInlineError (Some c)) s)) eqn:Hr; [| by eexists].
    exfalso. specialize (Hsane Hr).
    cbn [world upd set_world] in Hav. rewrite grecaptcha_clearInlineError in Hav.
    congruence.
Qed.

End LogFacts.

(** *** The submit handler of recaptcha-display.js *)

Section SubmitFacts.
Import Dom ReadyQueue Display DisplaySpec.

(** With the pre-approved flag set the handler clears it and lets the event
    through. *)
Lemma onSubmitForm_preapproved (fuel : nat) (canPrevent : bool) (s : State) :
  allowSubmit (world s) = true ->
  onSubmitForm fuel canPrevent s = Returned (true, upd (set_allowSubmit false) s).
Proof. intros H. unfold onSubmitForm. by rewrite H. Qed.

(** Without the flag the handler calls [preventDefault] first and returns
    [false]. *)
Lemma onSubmitForm_intercepts (fuel : nat) (s : State) :
  allowSubmit (world s) = false ->
  apiSane s ->
  exists (s' : State) (l : list Effect),
    onSubmitForm (S fuel) true s = Returned (false, s')
    /\ log (world s') = log (world s) ++ EPreventDefault :: l.
Proof.
  intros Hflag Hsane. unfold onSubmitForm. rewrite Hflag.
  destruct (contactForm _) as [form |]; [| by eexists _, []].
  destruct (formContainer _) as [k |].
  2: { eexists _, [EFormSubmit]. split; [reflexivity |]. cbn. by rewrite <- app_assoc. }
  match goal with
  | |- context [attemptRender _ _ ?s2] =>
      assert (apiSane s2) as Hsane2 by (by destruct (hasClass _ _));
      destruct (attemptRender_returns fuel (Some (cid k)) s2 Hsane2) as [s3 Hr]
  end.
  rewrite Hr. pose proof (attemptRender_log _ _ _ _ Hr) as [l [Hl _]].
  destruct (hasClass _ _).
  - eexists _, (_ :: l). split; [reflexivity |]. rewrite Hl. cbn. by rewrite <- !app_assoc.
  - exists s3, l. split; [reflexivity |]. rewrite Hl. cbn. by rewrite <- !app_assoc.
Qed.

(** C2. On a form that holds at most one input named
    [g-recaptcha-response], hidden if there, the success callback called
    with [token] leaves exactly one such input, hidden, with value [token];
    it calls [form.submit()] once and nothing else; it sets the
    pre-approved flag.  The next run of the submit handler sees the flag,
    clears it and returns [true] without [preventDefault]; the run after
    that is intercepted again: it calls [preventDefault] and returns
    [false]. *)
Theorem solved_callback_token_submit_flag :
  forall (token : string) (s : State) (form : Form) (fuel : nat),
    contactForm (world s) = Some form ->
    length (tokenInputs (inputs form)) <= 1 ->
    Forall (fun i => itype i = "hidden") (tokenInputs (inputs form)) ->
    apiSane s ->
    let s1 := upd (onRecaptchaSuccess token) s in
    let s2 := upd (set_allowSubmit false) s1 in
    (exists form',
        contactForm (world s1) = Some form'
        /\ tokenInputs (inputs form') = [mkInput "hidden" TOKEN_FIELD token])
    /\ log (world s1) = log (world s) ++ [EFormSubmit]
    /\ allowSubmit (world s1) = true
    /\ onSubmitForm (S fuel) true s1 = Returned (true, s2)
    /\ log (world s2) = log (world s1)
    /\ exists (s3 : State) (l : list Effect),
         onSubmitForm (S fuel) true s2 = Returned (false, s3)
         /\ log (world s3) = log (world s2) ++ EPreventDefault :: l.
Proof.
  intros token s form fuel Hform Hlen Hhid Hsane s1 s2.
  assert (Hw : world s1 = onRecaptchaSuccess token (world s)) by done.
  unfold onRecaptchaSuccess in Hw. rewrite Hform in Hw.
  split; [| split; [| split; [| split; [| split]]]].
  - rewrite Hw. eexists. split; [reflexivity |]. cbn [inputs].
    destruct (List.find _ (inputs form)) as [i |] eqn:Hfind.
    + rewrite tokenInputs_setFirstValue.
      destruct (tokenInputs (inputs form)) as [| j rest] eqn:Htok.
      * apply List.find_some in Hfind. destruct Hfind as [Hin Hname].
        assert (In i (tokenInputs (inputs form))) as Hi
            by (unfold tokenInputs; by apply List.filter_In).
        rewrite Htok in Hi. destruct Hi.
      * destruct rest; [| simpl in Hlen; lia].
        apply Forall_inv in Hhid. rewrite Hhid.
        assert (iname j = TOKEN_FIELD) as ->
            by (apply (tokenInputs_name (inputs form)); rewrite Htok; by left).
        done.
    + rewrite tokenInputs_app, (tokenInputs_none _ Hfind). done.
  - by rewrite Hw.
  - by rewrite Hw.
  - apply onSubmitForm_preapproved. by rewrite Hw.
  - done.
  - apply onSubmitForm_intercepts; [done |].
    intros Hr. subst s2 s1. cbn [world upd set_world] in *. rewrite Hw. by apply Hsane.
Qed.

Lemma solved_callback_token_submit_flag_witness :
  exists form',
    contactForm (world (upd (onRecaptchaSuccess "TOKEN123") (Scenario.page None 500)))
    = Some form'
    /\ tokenInputs (inputs form') = [mkInput "hidden" TOKEN_FIELD "TOKEN123"].
Proof.
  apply (solved_callback_token_submit_flag "TOKEN123" (Scenario.page None 500) (mkForm []) 0).
  - reflexivity.
  - simpl. lia.
  - constructor.
  - intros Hr. discriminate Hr.
Defined.

(** The scenario of the specification: the token lands in one hidden
    input and the form is sent once. *)
Example solved_callback_TOKEN123 :
  (fun w => (contactForm w, log w, allowSubmit w))
    (onRecaptchaSuccess "TOKEN123" (world (Scenario.page None 500)))
  = (Some (mkForm [mkInput "hidden" "g-recaptcha-response" "TOKEN123"]), [EFormSubmit], true).
Proof. reflexivity. Qed.

End SubmitFacts.

(** *** What the render path leaves alone in the containers *)

Section ShapeFacts.
Import Dom ReadyQueue Display DisplaySpec.
















End ShapeFacts.

(** *** The submit gate, handler by handler *)

Section GateFacts.
Import Dom.

Import FormJs FormSpec.

Lemma firstWidget_updFirstContainer (f : Container -> Container) (s : State) :
  (forall k, children (f k) = children k) ->
  firstWidget (updFirstContainer f s) = firstWidget s.
Proof.
  intros Hf. unfold firstWidget, updFirstContainer.
  destruct (containers s) as [| k rest] eqn:Hcs; [by rewrite Hcs |]. simpl. by rewrite Hf.
Qed.

Lemma updFirstContainer_frame (f : Container -> Container) (s : State) :
  pendingForm (updFirstContainer f s) = pendingForm s
  /\ log (updFirstContainer f s) = log s
  /\ recaptchaWidgetId (updFirstContainer f s) = recaptchaWidgetId s.
Proof. unfold updFirstContainer. by destruct (containers s). Qed.



(** What [renderRecaptchaIfNeeded] adds to the log: nothing that sends the
    form, and a render call or a poller when there is an unrendered
    placeholder. *)
Lemma renderRecaptchaIfNeeded_log (s : State) :
  exists l,
    log (renderRecaptchaIfNeeded s) = log s ++ l
    /\ forallb noSubmit l = true
    /\ (recaptchaWidgetId s = None -> firstWidget s <> None ->
        existsb renderAttempt l = true).
Proof.
  unfold renderRecaptchaIfNeeded.
  destruct (recaptchaWidgetId s) as [wid |].
  { exists []. by rewrite app_nil_r. }
  destruct (firstWidget s) as [e |].
  2: { exists []. by rewrite app_nil_r. }
  destruct (grecaptcha s) as [[[renderFn |] rs gr] |].
  - eexists [_]. split; [destruct (renderFn _); [| reflexivity]; destruct (orNull _); reflexivity | by split].
  - by eexists [_].
  - by eexists [_].
Qed.




End GateFacts.

(** *** Where the code departs from the retry and resize rules *)

Section Departures.
Import Dom ReadyQueue Display DisplaySpec.

(** C7 (the code departs from it). A widget rendered at normal size on a
    500 px wide window; the window is resized to 300 px and the debounce
    timer fires.  The desired size is now compact, but the placeholder is
    the same node, still bound to the normal size: [applyCompact] goes
    through [attemptRender], which returns at its "already rendered" test.
    No node was replaced and [grecaptcha.render] was not called again. *)
Theorem resize_below_breakpoint_not_rerendered :
  option_map
    (fun s => (desiredSize (world s),
               List.map children (containers (world s)),
               renderCalls (world s),
               List.filter renderOnly (log (world s))))
    (run 1 [Resize 300; TimerFires 1] (Scenario.renderedPage 500))
  = Some (Some "compact",
          [[Scenario.renderedPlaceholder]],
          1,
          [ESetTimeout (mkTimer 1 DEBOUNCE_MS ApplyCompactFire)])
  /\ getAttribute "data-recaptcha-rendered-size" (attrs Scenario.renderedPlaceholder) = Some ""
  /\ getAttribute "data-size" (attrs Scenario.renderedPlaceholder) = None.
Proof. repeat split. Qed.

(** The pages of [Scenario.renderedPage] and [Scenario.solvedPage] are what
    a submit click produces on the sample page once the widget script is
    there. *)
Example renderedPage_reached :
  option_map (fun s => containers (world s))
    (run 1 [UserSubmit] (Scenario.page (Some Scenario.apiUnsolved) 500))
  = Some (containers (world (Scenario.renderedPage 500))).
Proof. reflexivity. Qed.

Example solvedPage_reached :
  option_map (fun s => containers (world s))
    (run 1 [UserSubmit] (Scenario.page (Some Scenario.apiSolved) 500))
  = Some (containers (world (Scenario.solvedPage 500))).
Proof. reflexivity. Qed.

(** When the widget is not rendered yet, the resize does give it the
    desired size: the departure concerns rendered widgets only. *)
Example resize_before_render_is_honoured :
  option_map
    (fun s => List.map (fun k => List.map (fun x => getAttribute "data-size" (attrs x))
                                          (children k))
                       (containers (world s)))
    (run 1 [Resize 300; TimerFires 0] (Scenario.page (Some Scenario.apiUnsolved) 500))
  = Some [[Some "compact"]].
Proof. reflexivity. Qed.

(** C5 (the code departs from it). The widget script is present and
    [grecaptcha.render] throws at every call.  A submit click and the five
    retries that follow make six failed renders; each failure replaces the
    placeholder by a new node, whose retry state starts from scratch.  The
    six retries were all scheduled 700 ms ahead, the sixth is pending, no
    error message is shown. *)
Theorem throwing_render_retries_without_backoff :
  option_map
    (fun s => (allRetryDelays (log (world s)),
               List.map delay (List.filter isRetry (timers (world s))),
               List.map errorBox (containers (world s)),
               renderCalls (world s)))
    (run 1 [UserSubmit; TimerFires 1; TimerFires 2; TimerFires 3; TimerFires 4; TimerFires 5]
       (Scenario.page (Some Scenario.apiThrowing) 500))
  = Some ([700; 700; 700; 700; 700; 700], [700], [None], 6).
Proof. reflexivity. Qed.

(** C3 (the code departs from it). Same run: after each of the six failed
    renders the retry counter of the placeholder in the container is 1; it
    never grows towards [MAX_RENDER_RETRIES]. *)
Theorem throwing_render_counter_stuck :
  List.map (fun s => currentAttempts 0 (world s))
    (runTrace 1 [UserSubmit; TimerFires 1; TimerFires 2; TimerFires 3; TimerFires 4; TimerFires 5]
       (Scenario.page (Some Scenario.apiThrowing) 500))
  = [1; 1; 1; 1; 1; 1]
  /\ MAX_RENDER_RETRIES = 5.
Proof. split; reflexivity. Qed.

(** C4 (the code departs from it). The widget script is present and
    [grecaptcha.render] throws at every call.  A submit click and the three
    retries that follow schedule four retries for the placeholder of the
    container.  Every one is computed as [700 * 2^attempts] from a state
    object of its own (addresses 0 to 3), created with [attempts = 0] for
    the node that has just replaced the placeholder (nodes 1 to 4): the
    four delays are 700, 700, 700, 700.  They are not strictly increasing
    and they are not the doubling sequence [backoff 4], which is 1, 2, 4
    and 8 times the base. *)
Theorem throwing_render_delays_do_not_grow :
  option_map
    (fun s => (slotRetries 0 (log (world s)),
               slotRetryDelays 0 (log (world s)),
               increasing (slotRetryDelays 0 (log (world s)))))
    (run 1 [UserSubmit; TimerFires 1; TimerFires 2; TimerFires 3]
       (Scenario.page (Some Scenario.apiThrowing) 500))
  = Some ([mkTimer 1 700 (RetryFire 0 1 0); mkTimer 2 700 (RetryFire 1 2 0);
           mkTimer 3 700 (RetryFire 2 3 0); mkTimer 4 700 (RetryFire 3 4 0)],
          [700; 700; 700; 700],
          false)
  /\ List.map (fun d => d / RETRY_BASE_MS) (backoff 4) = [1; 2; 4; 8]
  /\ increasing (backoff 4) = true.
Proof. split; [reflexivity | split; reflexivity]. Qed.

(** C8 (the code departs from it). The widget script is present and
    [grecaptcha.render] throws at every call.  Three submit clicks in a
    row, none of the retries having fired: three retry timers are pending
    for the placeholder of the container, each armed while the flag of the
    state object behind the earlier ones was up (the three flags are still
    up at the end).  Each click replaced the placeholder by a new node, and
    the scheduler looked the flag up under the new node. *)
Theorem throwing_render_clicks_stack_retries :
  option_map
    (fun s => (slotPendingRetries 0 (world s),
               List.map (retryFlag (world s)) (slotPendingRetries 0 (world s)),
               length (slotPendingRetries 0 (world s))))
    (run 1 [UserSubmit; UserSubmit; UserSubmit]
       (Scenario.page (Some Scenario.apiThrowing) 500))
  = Some ([mkTimer 1 700 (RetryFire 0 1 0); mkTimer 2 700 (RetryFire 1 2 0);
           mkTimer 3 700 (RetryFire 2 3 0)],
          [true; true; true],
          3).
Proof. reflexivity. Qed.

(** The retry bookkeeping is per node: two clicks with a throwing render
    leave two pending retries for the container, one for each node that
    was its placeholder. *)
Example throwing_render_two_clicks :
  option_map
    (fun s => List.map body (List.filter isRetry (timers (world s))))
    (run 1 [UserSubmit; UserSubmit] (Scenario.page (Some Scenario.apiThrowing) 500))
  = Some [RetryFire 0 1 0; RetryFire 1 2 0].
Proof. reflexivity. Qed.

(** Without the widget script the same clicks do back off: the placeholder
    is not replaced, its counter grows, and the sixth failure gives up. *)
Example missing_api_backs_off :
  option_map
    (fun s => (allRetryDelays (log (world s)),
               List.map delay (List.filter isRetry (timers (world s))),
               List.map errorBox (containers (world s))))
    (run 1 [UserSubmit; TimerFires 1; TimerFires 2; TimerFires 3; TimerFires 4; TimerFires 5]
       (Scenario.page None 500))
  = Some (backoff 5, [],
          [Some "reCAPTCHA failed to load. Please disable adblockers or check your network/permissions."]).
Proof. reflexivity. Qed.

End Departures.

(** *** The retry bookkeeping is an invariant of the event loop *)

Section InvFacts.
Import Dom ReadyQueue Display DisplaySpec.

Lemma backoff_S (n : nat) : backoff (S n) = backoff n ++ [(RETRY_BASE_MS * 2 ^ n)%nat].
Proof. unfold backoff. by rewrite seq_S, List.map_app. Qed.

Lemma retryDelays_app (e : nat) (a b : list Effect) :
  retryDelays e (a ++ b) = retryDelays e a ++ retryDelays e b.
Proof. apply omap_app. Qed.

Lemma retryDelays_snoc_other (e : nat) (l : list Effect) (x : Effect) :
  retryDelay e x = None -> retryDelays e (l ++ [x]) = retryDelays e l.
Proof.
  intros H. rewrite retryDelays_app. unfold retryDelays at 2. simpl.
  rewrite H. apply app_nil_r.
Qed.

Lemma length_filter_filter {A} (p q : A -> bool) (l : list A) :
  length (List.filter p (List.filter q l)) <= length (List.filter p l).
Proof.
  induction l as [| a l IH]; simpl; [lia |].
  destruct (q a); simpl; destruct (p a); simpl; lia.
Qed.

Lemma deref_heap (r : nat) (w w' : World) :
  heap w' !! r = heap w !! r -> deref r w' = deref r w.
Proof. unfold deref. by intros ->. Qed.

Lemma attemptsOf_frame (e : nat) (w w' : World) :
  retryState w' = retryState w ->
  (forall e' r, retryState w !! e' = Some r -> deref r w' = deref r w) ->
  attemptsOf e w' = attemptsOf e w.
Proof.
  intros Hrs Hd. unfold attemptsOf. rewrite Hrs.
  destruct (retryState w !! e) as [r |] eqn:Hr; [| done]. by rewrite (Hd e r Hr).
Qed.

(** Changes that leave the retry bookkeeping alone keep the invariant. *)
Lemma Inv_frame (w w' : World) :
  Inv w ->
  retryState w' = retryState w ->
  (forall e r, retryState w !! e = Some r -> deref r w' = deref r w) ->
  nextRef w <= nextRef w' ->
  nextNode w <= nextNode w' ->
  (forall t, In t (timers w') -> isRetry t = true -> In t (timers w)) ->
  (forall e, length (pendingRetries e w') <= length (pendingRetries e w)) ->
  (forall e, retryDelays e (log w') = retryDelays e (log w)) ->
  Forall (fun k => Forall (fun x => eid x < nextNode w') (children k)) (containers w') ->
  Inv w'.
Proof.
  intros [Hdom Hinj Htim Hone Hidle Hnodes Hdel] Hrs Hd Hnr Hnn Ht Hp Hl Hn'.
  constructor.
  - intros e r H. rewrite Hrs in H. destruct (Hdom e r H). lia.
  - intros e1 e2 r H1 H2. rewrite Hrs in H1, H2. by apply (Hinj e1 e2 r).
  - intros t r e c Hin Hb.
    assert (In t (timers w)) as Hin' by (apply Ht; [done | unfold isRetry; by rewrite Hb]).
    destruct (Htim t r e c Hin' Hb) as [H1 H2].
    rewrite Hrs. split; [done |]. by rewrite (Hd e r H1).
  - intros e. specialize (Hone e). specialize (Hp e). lia.
  - intros e r H1 H2. rewrite Hrs in H1. rewrite (Hd e r H1) in H2.
    specialize (Hidle e r H1 H2). specialize (Hp e). rewrite Hidle in Hp.
    destruct (pendingRetries e w'); [done | simpl in Hp; lia].
  - exact Hn'.
  - intros e. rewrite Hl, (attemptsOf_frame e w w' Hrs Hd). apply Hdel.
Qed.

(** For a change that leaves the retry bookkeeping and the nodes alone. *)
Ltac by_frame w HI :=
  apply (Inv_frame w); try done; try (cbn; lia); try apply (inv_nodes w HI).

Lemma Forall_nodes_mono (n n' : nat) (ks : list Container) :
  n <= n' ->
  Forall (fun k => Forall (fun x => eid x < n) (children k)) ks ->
  Forall (fun k => Forall (fun x => eid x < n') (children k)) ks.
Proof.
  intros Hle. apply List.Forall_impl. intros k. apply List.Forall_impl. intros x. lia.
Qed.

Lemma Forall_nodes_map (n : nat) (f : Container -> Container) (ks : list Container) :
  (forall k, Forall (fun x => eid x < n) (children k) ->
             Forall (fun x => eid x < n) (children (f k))) ->
  Forall (fun k => Forall (fun x => eid x < n) (children k)) ks ->
  Forall (fun k => Forall (fun x => eid x < n) (children k)) (List.map f ks).
Proof.
  intros Hf H. induction H as [| k ks Hk Hks IH]; simpl; constructor; [by apply Hf | exact IH].
Qed.

(** [updContainer] with a function that keeps the children. *)
Lemma Inv_updContainer (c : nat) (f : Container -> Container) (w : World) :
  (forall k, children (f k) = children k) ->
  Inv w -> Inv (updContainer c f w).
Proof.
  intros Hf HI. apply (Inv_frame w); try done; try (cbn; lia).
  cbn. apply Forall_nodes_map; [| apply (inv_nodes w HI)].
  intros k Hk. destruct (Nat.eqb (cid k) c); [by rewrite Hf | done].
Qed.

(** [updContainer] with a function that keeps the children's identities. *)
Lemma Inv_updContainer_children (c : nat) (f : Container -> Container) (w : World) :
  (forall k, Forall (fun x => eid x < nextNode w) (children k) ->
             Forall (fun x => eid x < nextNode w) (children (f k))) ->
  Inv w -> Inv (updContainer c f w).
Proof.
  intros Hf HI. apply (Inv_frame w); try done; try (cbn; lia).
  cbn. apply Forall_nodes_map; [| apply (inv_nodes w HI)].
  intros k Hk. destruct (Nat.eqb (cid k) c); [by apply Hf | done].
Qed.

Lemma Inv_clearInlineError (o : option nat) (w : World) : Inv w -> Inv (clearInlineError o w).
Proof. destruct o; [by apply Inv_updContainer | done]. Qed.

Lemma Inv_showInlineError (o : option nat) (t : string) (w : World) :
  Inv w -> Inv (showInlineError o t w).
Proof. destruct o; [by apply Inv_updContainer | done]. Qed.

Lemma pendingRetries_In (e : nat) (w : World) (t : Timer) :
  In t (pendingRetries e w) ->
  In t (timers w) /\ exists r c, body t = RetryFire r e c.
Proof.
  unfold pendingRetries. rewrite List.filter_In. intros [Hin Hb]. split; [done |].
  unfold isRetryFor in Hb. destruct (body t) as [r e' c | |]; try done.
  apply Nat.eqb_eq in Hb. subst. eauto.
Qed.

(** Arming a retry for element [n] with state object [r], whose flag is
    down and whose counter is below the ceiling. *)
Lemma Inv_arm (w : World) (n r c : nat) :
  Inv w ->
  n < nextNode w ->
  r < nextRef w ->
  retryState w !! n = Some r
  \/ (retryState w !! n = None
      /\ (forall e r', retryState w !! e = Some r' -> r' <> r)
      /\ attempts (deref r w) = 0) ->
  scheduled (deref r w) = false ->
  attempts (deref r w) < MAX_RENDER_RETRIES ->
  Inv (snd (setTimeout (RetryFire r n c) (RETRY_BASE_MS * 2 ^ attempts (deref r w))
              (set_retryState (<[n := r]> (retryState w))
                 (set_heap (<[r := mkRetry (S (attempts (deref r w))) true]> (heap w)) w)))).
Proof.
  intros HI Hn Hr Hcase Hsch Hatt.
  set (a := attempts (deref r w)) in *.
  set (t := mkTimer (nextTimer w) (RETRY_BASE_MS * 2 ^ a) (RetryFire r n c)).
  destruct HI as [Hdom Hinj Htim Hone Hidle Hnodes Hdel].
  assert (F1 : pendingRetries n w = []).
  { destruct Hcase as [Hs | [Hnone _]]; [by apply (Hidle n r) |].
    destruct (pendingRetries n w) as [| t0 rest] eqn:Hp; [done |].
    assert (In t0 (pendingRetries n w)) as Hin by (rewrite Hp; by left).
    apply pendingRetries_In in Hin. destruct Hin as [Hin [r0 [c0 Hb]]].
    destruct (Htim t0 r0 n c0 Hin Hb) as [Hcontra _]. congruence. }
  assert (F2 : attemptsOf n w = a).
  { unfold attemptsOf. destruct Hcase as [Hs | [Hnone [_ H0]]]; [by rewrite Hs |].
    by rewrite Hnone. }
  assert (F3 : forall e' r', retryState w !! e' = Some r' -> e' <> n -> r' <> r).
  { intros e' r' He' Hne ->. destruct Hcase as [Hs | [_ [Hun _]]].
    - apply Hne. by apply (Hinj e' n r).
    - by apply (Hun e' r). }
  assert (Dr : forall w', heap w' = <[r := mkRetry (S a) true]> (heap w) ->
                          deref r w' = mkRetry (S a) true).
  { intros w' Hh. unfold deref. by rewrite Hh, lookup_insert_eq. }
  assert (Do : forall w' r', heap w' = <[r := mkRetry (S a) true]> (heap w) -> r' <> r ->
                             deref r' w' = deref r' w).
  { intros w' r' Hh Hne. unfold deref. by rewrite Hh, lookup_insert_ne. }
  constructor; unfold pendingRetries, attemptsOf; world_proj.
  - intros e r0 H. destruct (decide (n = e)) as [<- | Hne].
    + rewrite lookup_insert_eq in H. injection H as <-. done.
    + rewrite lookup_insert_ne in H by done. by apply Hdom.
  - intros e1 e2 r0 H1 H2.
    destruct (decide (n = e1)) as [<- | Hne1], (decide (n = e2)) as [<- | Hne2]; [done | | |].
    + rewrite lookup_insert_eq in H1. injection H1 as <-.
      rewrite lookup_insert_ne in H2 by done. exfalso. by apply (F3 e2 r H2).
    + rewrite lookup_insert_eq in H2. injection H2 as <-.
      rewrite lookup_insert_ne in H1 by done. exfalso. by apply (F3 e1 r H1).
    + rewrite lookup_insert_ne in H1, H2 by done. by apply (Hinj e1 e2 r0).
  - intros t0 r0 e0 c0 Hin Hb. apply in_app_or in Hin. destruct Hin as [Hin | [<- | []]].
    + destruct (Htim t0 r0 e0 c0 Hin Hb) as [H1 H2].
      destruct (decide (n = e0)) as [<- | Hne].
      * rewrite lookup_insert_eq.
        destruct Hcase as [Hs | [Hnone _]]; [| congruence].
        assert (r0 = r) as -> by congruence. congruence.
      * rewrite lookup_insert_ne by done. split; [done |].
        rewrite Do; [done | reflexivity |]. apply (F3 e0 r0 H1). congruence.
    + simpl in Hb. injection Hb as <- <- <-. rewrite lookup_insert_eq. split; [done |].
      by rewrite Dr.
  - intros e. rewrite List.filter_app, length_app.
    destruct (decide (e = n)) as [-> | Hne].
    + unfold pendingRetries in F1. rewrite F1. simpl.
      unfold isRetryFor. simpl. destruct (Nat.eqb n n); simpl; lia.
    + specialize (Hone e). unfold pendingRetries in Hone. simpl.
      unfold isRetryFor at 2. simpl.
      destruct (Nat.eqb_spec n e) as [-> | _]; [done |]. simpl. lia.
  - intros e r0 H1 H2. rewrite List.filter_app.
    destruct (decide (n = e)) as [<- | Hne].
    + rewrite lookup_insert_eq in H1. injection H1 as <-.
      by rewrite Dr in H2.
    + rewrite lookup_insert_ne in H1 by done.
      rewrite Do in H2; [| reflexivity | apply (F3 e r0 H1); congruence].
      specialize (Hidle e r0 H1 H2). unfold pendingRetries in Hidle. rewrite Hidle. simpl.
      unfold isRetryFor. simpl. by destruct (Nat.eqb_spec n e).
  - exact Hnodes.
  - intros e. rewrite retryDelays_app. destruct (Hdel e) as [Hd Hle].
    destruct (decide (n = e)) as [<- | Hne].
    + rewrite lookup_insert_eq, Dr by reflexivity. cbn [attempts].
      destruct (Hdel n) as [Hdn _]. rewrite Hdn, F2, backoff_S.
      unfold retryDelays at 1. simpl. rewrite Nat.eqb_refl. simpl. split; [done | lia].
    + rewrite lookup_insert_ne by done.
      unfold retryDelays at 2. simpl.
      destruct (Nat.eqb_spec n e) as [-> | _]; [done |]. rewrite app_nil_r.
      unfold attemptsOf in Hd, Hle.
      destruct (retryState w !! e) as [r0 |] eqn:He; [| done].
      rewrite Do; [done | reflexivity |]. apply (F3 e r0 He). congruence.
Qed.

Lemma currentPlaceholder_node (c : nat) (w : World) (e : Element) :
  Inv w -> currentPlaceholder c w = Some e -> eid e < nextNode w.
Proof.
  intros HI H. unfold currentPlaceholder, lookupContainer, queryPlaceholder in H.
  destruct (List.find _ (containers w)) as [k |] eqn:Hk; [| done].
  apply List.find_some in Hk. destruct Hk as [Hk _].
  apply List.find_some in H. destruct H as [He _].
  pose proof (inv_nodes w HI) as Hn.
  rewrite List.Forall_forall in Hn. specialize (Hn k Hk).
  rewrite List.Forall_forall in Hn. by apply Hn.
Qed.

(** Allocating the literal [{ attempts: 0, scheduled: false }]. *)
Lemma Inv_alloc (w : World) :
  Inv w ->
  Inv (set_nextRef (S (nextRef w)) (set_heap (<[nextRef w := mkRetry 0 false]> (heap w)) w)).
Proof.
  intros HI. apply (Inv_frame w); try done; try (cbn; lia).
  - intros e r Hr. apply deref_heap. cbn. apply lookup_insert_ne.
    destruct (inv_dom w HI e r Hr). lia.
  - apply (inv_nodes w HI).
Qed.

Lemma scheduleRenderAttempt_unfold (container : option nat) (w : World) :
  scheduleRenderAttempt container w
  = match container with
    | None => w
    | Some c =>
        match currentPlaceholder c w with
        | None => w
        | Some e =>
            let '(r, w0) :=
              match retryState w !! eid e with
              | Some r => (r, w)
              | None => (nextRef w,
                         set_nextRef (S (nextRef w))
                           (set_heap (<[nextRef w := mkRetry 0 false]> (heap w)) w))
              end in
            let st := deref r w0 in
            if scheduled st then w0
            else if (MAX_RENDER_RETRIES <=? attempts st)%nat then
              set_retryState (<[eid e := r]> (retryState w0))
                (showInlineError (Some c)
                   "reCAPTCHA failed to load. Please disable adblockers or check your network/permissions."
                   w0)
            else
              snd (setTimeout (RetryFire r (eid e) c) (RETRY_BASE_MS * 2 ^ attempts st)
                     (set_retryState (<[eid e := r]> (retryState w0))
                        (set_heap (<[r := mkRetry (S (attempts st)) true]> (heap w0)) w0)))
        end
    end.
Proof.
  unfold scheduleRenderAttempt, currentPlaceholder.
  destruct container as [c |]; [| done].
  destruct (lookupContainer c w) as [k |]; [| done].
  destruct (queryPlaceholder k) as [e |]; [| done].
  by destruct (retryState w !! eid e).
Qed.

(** Without an entry for the placeholder the retry is armed from scratch. *)
Lemma schedule_fresh (c : nat) (w : World) (e : Element) :
  currentPlaceholder c w = Some e ->
  retryState w !! eid e = None ->
  scheduleRenderAttempt (Some c) w
  = snd (setTimeout (RetryFire (nextRef w) (eid e) c) RETRY_BASE_MS
           (set_retryState (<[eid e := nextRef w]> (retryState w))
              (set_heap (<[nextRef w := mkRetry 1 true]>
                           (<[nextRef w := mkRetry 0 false]> (heap w)))
                 (set_nextRef (S (nextRef w)) w)))).
Proof.
  intros Hcur Hnone. rewrite scheduleRenderAttempt_unfold, Hcur, Hnone.
  cbv zeta. unfold deref. world_proj. rewrite lookup_insert_eq. cbn [default scheduled attempts].
  reflexivity.
Qed.

(** [scheduleRenderAttempt] keeps the invariant. *)
Lemma Inv_schedule (container : option nat) (w : World) :
  Inv w -> Inv (scheduleRenderAttempt container w).
Proof.
  intros HI. rewrite scheduleRenderAttempt_unfold.
  destruct container as [c |]; [| done].
  destruct (currentPlaceholder c w) as [e |] eqn:Hcur; [| done].
  pose proof (currentPlaceholder_node c w e HI Hcur) as Hnode.
  destruct (retryState w !! eid e) as [r |] eqn:Hr.
  - cbv zeta. destruct (scheduled (deref r w)) eqn:Hs; [done |].
    destruct (MAX_RENDER_RETRIES <=? attempts (deref r w))%nat eqn:Hmax.
    + rewrite insert_id by done.
      apply (Inv_frame (showInlineError (Some c)
               "reCAPTCHA failed to load. Please disable adblockers or check your network/permissions."
               w)); try done; try (cbn; lia).
      * by apply Inv_showInlineError.
      * apply (inv_nodes _ (Inv_showInlineError (Some c) _ w HI)).
    + apply Inv_arm; try done.
      * by destruct (inv_dom w HI _ _ Hr).
      * by left.
      * apply Nat.leb_gt in Hmax. exact Hmax.
  - cbv zeta.
    set (w0 := set_nextRef (S (nextRef w))
                 (set_heap (<[nextRef w := mkRetry 0 false]> (heap w)) w)).
    assert (HI0 : Inv w0) by (by apply Inv_alloc).
    assert (Hd : deref (nextRef w) w0 = mkRetry 0 false)
      by (unfold deref; cbn; by rewrite lookup_insert_eq).
    rewrite Hd. cbn [scheduled attempts]. cbn [Nat.leb MAX_RENDER_RETRIES].
    replace (mkRetry 1 true) with (mkRetry (S (attempts (deref (nextRef w) w0))) true)
      by (by rewrite Hd).
    replace (RETRY_BASE_MS * 2 ^ 0)%nat
      with (RETRY_BASE_MS * 2 ^ attempts (deref (nextRef w) w0))%nat by (by rewrite Hd).
    apply Inv_arm; try done.
    + cbn. lia.
    + right. split; [done |]. split; [| by rewrite Hd].
      intros e' r' He' ->. destruct (inv_dom w HI e' _ He'). lia.
    + by rewrite Hd.
    + rewrite Hd. cbn. unfold MAX_RENDER_RETRIES. lia.
Qed.

Lemma Inv_emit (x : Effect) (w : World) :
  (forall e, retryDelay e x = None) -> Inv w -> Inv (emit x w).
Proof.
  intros Hx HI. apply (Inv_frame w); try done; try (cbn; lia).
  - intros e. cbn. by apply retryDelays_snoc_other.
  - apply (inv_nodes w HI).
Qed.

Lemma Inv_set_containers (ks : list Container) (w : World) :
  Forall (fun k => Forall (fun x => eid x < nextNode w) (children k)) ks ->
  Inv w -> Inv (set_containers ks w).
Proof. intros Hks HI. apply (Inv_frame w); try done; cbn; lia. Qed.

Lemma Inv_set_nextNode (n : nat) (w : World) :
  nextNode w <= n -> Inv w -> Inv (set_nextNode n w).
Proof.
  intros Hn HI. apply (Inv_frame w); try done; try (cbn; lia).
  cbn. apply (Forall_nodes_mono (nextNode w)); [done | apply (inv_nodes w HI)].
Qed.

Lemma Inv_set_renderCalls (n : nat) (w : World) : Inv w -> Inv (set_renderCalls n w).
Proof. intros HI. by_frame w HI. Qed.

Lemma Inv_set_allowSubmit (b : bool) (w : World) : Inv w -> Inv (set_allowSubmit b w).
Proof. intros HI. by_frame w HI. Qed.

Lemma Inv_set_contactForm (f : option Form) (w : World) : Inv w -> Inv (set_contactForm f w).
Proof. intros HI. by_frame w HI. Qed.

Lemma Inv_set_innerWidth (z : Z) (w : World) : Inv w -> Inv (set_innerWidth z w).
Proof. intros HI. by_frame w HI. Qed.

Lemma Inv_set_grecaptcha (g : option Grecaptcha) (w : World) : Inv w -> Inv (set_grecaptcha g w).
Proof. intros HI. by_frame w HI. Qed.

Lemma Inv_set_resizeTimer (o : option nat) (w : World) : Inv w -> Inv (set_resizeTimer o w).
Proof. intros HI. by_frame w HI. Qed.

(** A timer that is not a retry may come ... *)
Lemma Inv_setTimeout_other (b : TimerBody) (ms : nat) (w : World) :
  (forall r e c, b <> RetryFire r e c) -> Inv w -> Inv (snd (setTimeout b ms w)).
Proof.
  intros Hb HI. apply (Inv_frame w); try done; try (cbn; lia).
  - intros t Hin Hr. cbn in Hin. apply in_app_or in Hin. destruct Hin as [Hin | [<- | []]]; [done |].
    unfold isRetry in Hr. simpl in Hr. destruct b as [r0 e0 c0 | |]; try done.
    exfalso. by apply (Hb r0 e0 c0).
  - intros e. unfold pendingRetries. cbn. rewrite List.filter_app, length_app. simpl.
    unfold isRetryFor at 2. simpl. destruct b as [r0 e0 c0 | |]; simpl; try lia.
    exfalso. by apply (Hb r0 e0 c0).
  - intros e. cbn. apply retryDelays_snoc_other. simpl. destruct b as [r0 e0 c0 | |]; try done.
    exfalso. by apply (Hb r0 e0 c0).
  - apply (inv_nodes w HI).
Qed.

(** ... and any timer may go, by [clearTimeout]. *)
Lemma Inv_clearTimeout (id : option nat) (w : World) : Inv w -> Inv (clearTimeout id w).
Proof.
  intros HI. unfold clearTimeout. apply Inv_emit; [done |].
  destruct id as [i |]; [| done].
  apply (Inv_frame w); try done; try (cbn; lia).
  - intros t Hin _. cbn in Hin. apply List.filter_In in Hin. tauto.
  - intros e. unfold pendingRetries. cbn. apply length_filter_filter.
  - apply (inv_nodes w HI).
Qed.

Lemma Forall_replaceChild (P : Element -> Prop) (newEl : Element) (i : nat) (l : list Element) :
  P newEl -> Forall P l -> Forall P (replaceChild newEl i l).
Proof.
  intros Hn H. induction H as [| x l Hx Hl IH]; simpl; [constructor |].
  destruct (Nat.eqb (eid x) i); constructor; done.
Qed.

Lemma Forall_map_same_eid (n : nat) (f : Element -> Element) (l : list Element) :
  (forall x, eid (f x) = eid x) ->
  Forall (fun x => eid x < n) l -> Forall (fun x => eid x < n) (List.map f l).
Proof.
  intros Hf H. induction H as [| x l Hx Hl IH]; simpl; constructor; [by rewrite Hf | done].
Qed.

(** [replaceAndMaybeRender] keeps the invariant, leaves [retryState] alone,
    and the element of its result is the node it has just created. *)
Lemma Inv_replace (old : Element) (sz : option string) (w : World) :
  Inv w ->
  Inv (snd (replaceAndMaybeRender old sz w))
  /\ retryState (snd (replaceAndMaybeRender old sz w)) = retryState w
  /\ forall res, fst (replaceAndMaybeRender old sz w) = Some res -> eid (el res) = nextNode w.
Proof.
  intros HI. unfold replaceAndMaybeRender.
  destruct (parentOf (eid old) w) as [parent |]; [| done].
  cbv zeta.
  match goal with
  | |- context [emit (EReplaceChild ?a ?b) ?w2] =>
      assert (Inv (emit (EReplaceChild a b) w2)) as HI2
  end.
  { apply Inv_emit; [done |]. unfold updContainer. world_proj.
    apply Inv_set_containers.
    - cbn. apply Forall_nodes_map.
      + intros k Hk. destruct (Nat.eqb (cid k) (cid parent)); [| done].
        cbn. apply Forall_replaceChild; [cbn; lia | done].
      + apply (Forall_nodes_mono (nextNode w)); [lia | apply (inv_nodes w HI)].
    - apply Inv_set_nextNode; [lia | done]. }
  cbn [grecaptcha emit set_log updContainer set_containers set_nextNode].
  destruct (grecaptcha w) as [[[renderFn |] rs gr] |];
    [| split; [exact HI2 | split; [reflexivity | by intros res [= <-]]]
     | split; [exact HI2 | split; [reflexivity | by intros res [= <-]]]].
  match goal with
  | |- context [emit (ERender ?a ?b) ?w3] =>
      assert (Inv (emit (ERender a b) w3)) as HI3
        by (apply Inv_emit; [done |]; apply Inv_set_renderCalls; exact HI2)
  end.
  destruct (renderFn _) as [wid |];
    [| split; [exact HI3 | split; [reflexivity | by intros res [= <-]]]].
  split; [| split; [reflexivity | by intros res [= <-]]].
  cbn [snd]. unfold setLiveAttribute. apply Inv_updContainer_children; [| exact HI3].
  intros k. cbn. apply Forall_map_same_eid. intros x. by destruct (Nat.eqb _ _).
Qed.

Lemma Inv_set_retryState_same (rs : gmap nat nat) (w : World) :
  rs = retryState w -> Inv w -> Inv (set_retryState rs w).
Proof. intros -> HI. by_frame w HI. Qed.

Create HintDb inv.
#[local] Hint Resolve Inv_set_renderCalls Inv_set_allowSubmit Inv_set_contactForm
  Inv_set_innerWidth Inv_set_grecaptcha Inv_set_resizeTimer Inv_clearInlineError
  Inv_showInlineError Inv_schedule Inv_clearTimeout : inv.

(** [retryState.delete(res.el)] finds nothing to delete: the element has
    just been created. *)
Lemma delete_fresh_node (w : World) (n : nat) :
  Inv w -> nextNode w <= n -> delete n (retryState w) = retryState w.
Proof.
  intros HI Hn. apply delete_id.
  destruct (retryState w !! n) as [r |] eqn:Hr; [| done].
  destruct (inv_dom w HI n r Hr). lia.
Qed.

(** [attemptRender] keeps the invariant. *)
Lemma Inv_attemptRender (fuel : nat) :
  forall (container : option nat) (s s' : State),
    Inv (world s) -> attemptRender fuel container s = Returned s' -> Inv (world s').
Proof.
  induction fuel as [| fuel IH]; intros container s s' HI H; [done |].
  rewrite attemptRender_unfold in H.
  destruct container as [c |]; [| by injection H as <-].
  destruct (lookupContainer c (world s)); [| by injection H as <-].
  cbv zeta in H.
  assert (HI1 : Inv (world (upd (clearInlineError (Some c)) s)))
    by (by apply Inv_clearInlineError).
  set (s1 := upd (clearInlineError (Some c)) s) in *.
  destruct (currentPlaceholder c (world s1)) as [current |]; [| by injection H as <-].
  destruct (truthy _ && _); [by injection H as <- |].
  destruct (renderAvailable _).
  - destruct (Inv_replace current (desiredSize (world s1)) (world s1) HI1) as [HI2 [Hrs Hel]].
    destruct (replaceAndMaybeRender _ _ _) as [[[e [wid |] err] |] w2];
      cbn [fst snd] in HI2, Hrs, Hel; injection H as <-; cbn [world set_world].
    + apply Inv_clearInlineError. apply Inv_set_retryState_same; [| done].
      rewrite Hrs. apply (delete_fresh_node (world s1)); [exact HI1 |].
      specialize (Hel _ eq_refl). cbn in Hel. rewrite Hel. apply Nat.le_refl.
    + by apply Inv_schedule.
    + by apply Inv_schedule.
  - unfold whenGrecaptchaReady in H.
    destruct (grecaptchaReady s1).
    + destruct (attemptRender fuel (Some c) s1) as [s2 | s2 |] eqn:H2; [| done | done].
      injection H as <-. apply IH in H2; [| done]. by apply Inv_schedule.
    + injection H as <-. by apply Inv_schedule.
Qed.

(** The arrow function of a pending retry keeps the invariant once its
    timer is taken off the list. *)
Lemma Inv_fire_retry (w : World) (id : nat) (t : Timer) (r e c : nat) :
  Inv w ->
  In t (timers w) -> tid t = id -> body t = RetryFire r e c ->
  Inv (set_retryState (<[e := r]> (retryState w))
         (set_heap (<[r := mkRetry (attempts (deref r w)) false]> (heap w))
            (set_timers (List.filter (fun x => negb (Nat.eqb (tid x) id)) (timers w)) w))).
Proof.
  intros HI Hin Hid Hb.
  destruct HI as [Hdom Hinj Htim Hone Hidle Hnodes Hdel].
  destruct (Htim t r e c Hin Hb) as [Hre Hsch].
  rewrite insert_id by done.
  assert (Dr : forall w', heap w' = <[r := mkRetry (attempts (deref r w)) false]> (heap w) ->
                          deref r w' = mkRetry (attempts (deref r w)) false).
  { intros w' Hh. unfold deref at 1. by rewrite Hh, lookup_insert_eq. }
  assert (Do : forall w' r', heap w' = <[r := mkRetry (attempts (deref r w)) false]> (heap w) ->
                             r' <> r -> deref r' w' = deref r' w).
  { intros w' r' Hh Hne. unfold deref. by rewrite Hh, lookup_insert_ne. }
  assert (Hgone : List.filter (isRetryFor e)
                    (List.filter (fun x => negb (Nat.eqb (tid x) id)) (timers w)) = []).
  { destruct (List.filter (isRetryFor e) (List.filter _ (timers w))) as [| t' rest] eqn:Hf;
      [done |].
    assert (In t' (List.filter (isRetryFor e)
                     (List.filter (fun x => negb (Nat.eqb (tid x) id)) (timers w)))) as Hin'
        by (rewrite Hf; by left).
    apply List.filter_In in Hin'. destruct Hin' as [Hin' He'].
    apply List.filter_In in Hin'. destruct Hin' as [Hin' Hid'].
    assert (In t (pendingRetries e w)) as Ht.
    { unfold pendingRetries. apply List.filter_In. split; [done |].
      unfold isRetryFor. rewrite Hb. apply Nat.eqb_refl. }
    assert (In t' (pendingRetries e w)) as Ht'
        by (unfold pendingRetries; apply List.filter_In; by split).
    specialize (Hone e).
    destruct (pendingRetries e w) as [| a [| b rest']]; [done | | simpl in Hone; lia].
    destruct Ht as [<- | []]. destruct Ht' as [<- | []].
    rewrite Hid, Nat.eqb_refl in Hid'. done. }
  constructor; unfold pendingRetries, attemptsOf; world_proj.
  - exact Hdom.
  - exact Hinj.
  - intros t0 r0 e0 c0 Hin0 Hb0. apply List.filter_In in Hin0. destruct Hin0 as [Hin0 Hid0].
    destruct (Htim t0 r0 e0 c0 Hin0 Hb0) as [H1 H2]. split; [done |].
    destruct (decide (r0 = r)) as [-> | Hne].
    + assert (e0 = e) as -> by (by apply (Hinj e0 e r)).
      assert (In t0 (List.filter (isRetryFor e)
                       (List.filter (fun x => negb (Nat.eqb (tid x) id)) (timers w)))) as Hc.
      { apply List.filter_In. split; [by apply List.filter_In |].
        unfold isRetryFor. rewrite Hb0. apply Nat.eqb_refl. }
      rewrite Hgone in Hc. destruct Hc.
    + rewrite Do; [done | reflexivity | done].
  - intros e0. etrans; [apply length_filter_filter | apply Hone].
  - intros e0 r0 H1 H2. destruct (decide (r0 = r)) as [-> | Hne].
    + assert (e0 = e) as -> by (by apply (Hinj e0 e r)). exact Hgone.
    + rewrite Do in H2; [| reflexivity | done].
      specialize (Hidle e0 r0 H1 H2). unfold pendingRetries in Hidle.
      pose proof (length_filter_filter (isRetryFor e0)
                    (fun x => negb (Nat.eqb (tid x) id)) (timers w)) as Hle.
      rewrite Hidle in Hle. simpl in Hle. apply List.length_zero_iff_nil. lia.
  - exact Hnodes.
  - intros e0. destruct (Hdel e0) as [Hd Hle]. unfold attemptsOf in Hd, Hle.
    destruct (retryState w !! e0) as [r0 |] eqn:He0; [| done].
    destruct (decide (r0 = r)) as [-> | Hne].
    + rewrite Dr by reflexivity. done.
    + rewrite Do; [done | reflexivity | done].
Qed.

Lemma Inv_forEach (fuel : nat) (sz : option string) (l : list Element) :
  forall (s s' : State),
    Inv (world s) -> forEach (applyCompactOne fuel sz) l s = Returned s' -> Inv (world s').
Proof.
  induction l as [| e rest IH]; intros s s' HI H; simpl in H; [by injection H as <- |].
  destruct (applyCompactOne fuel sz e s) as [s1 | s1 |] eqn:H1; [| done | done].
  apply (IH s1 s'); [| done].
  unfold applyCompactOne in H1.
  destruct (_ && _); [by injection H1 as <- |].
  destruct (parentOf (eid e) (world s)) as [k |]; [| by injection H1 as <-].
  by apply (Inv_attemptRender fuel (Some (cid k)) s s1).
Qed.

Lemma Inv_applyCompact (fuel : nat) (s s' : State) :
  Inv (world s) -> applyCompact fuel s = Returned s' -> Inv (world s').
Proof. unfold applyCompact. apply Inv_forEach. Qed.

Lemma Inv_drain (fuel : nat) :
  forall (n : nat) (s s' : State),
    Inv (world s) ->
    drain (fun c x => attemptRender fuel (Some c) x) n s = Some s' -> Inv (world s').
Proof.
  induction n as [| n IH]; intros s s' HI H; simpl in H.
  - destruct (grecaptchaReadyQueue s); [by injection H as <- | done].
  - destruct (grecaptchaReadyQueue s) as [| fn rest]; [by injection H as <- |].
    destruct (attemptRender fuel (Some fn) (set_queue rest s)) as [s1 | s1 |] eqn:H1;
      [| by apply attemptRender_no_throw in H1 | done].
    apply (IH s1 s'); [| done].
    by apply (Inv_attemptRender fuel (Some fn) (set_queue rest s) s1).
Qed.

Lemma Inv_onRecaptchaSuccess (token : string) (w : World) :
  Inv w -> Inv (onRecaptchaSuccess token w).
Proof.
  intros HI. unfold onRecaptchaSuccess. destruct (contactForm w); [| done].
  apply Inv_emit; [done |]. auto with inv.
Qed.

Lemma Inv_onRecaptchaExpired (w : World) : Inv w -> Inv (onRecaptchaExpired w).
Proof.
  intros HI. unfold onRecaptchaExpired. destruct (contactForm w); [| done].
  destruct (option_map cid (formContainer w)) as [c |]; [| done].
  assert (Inv (showInlineError (Some c) "reCAPTCHA expired. Please try again." w)) as H1
    by (by apply Inv_showInlineError).
  destruct (currentPlaceholder c _); [| done].
  destruct (_ && _); [| done]. by apply Inv_emit.
Qed.

Lemma Inv_onRecaptchaError (w : World) : Inv w -> Inv (onRecaptchaError w).
Proof.
  intros HI. unfold onRecaptchaError. auto with inv.
Qed.

Lemma Inv_onResize (w : World) : Inv w -> Inv (onResize w).
Proof.
  intros HI. unfold onResize.
  destruct (setTimeout ApplyCompactFire DEBOUNCE_MS (clearTimeout (resizeTimer w) w))
    as [id w2] eqn:Hs.
  apply Inv_set_resizeTimer.
  replace w2 with (snd (setTimeout ApplyCompactFire DEBOUNCE_MS (clearTimeout (resizeTimer w) w)))
    by (by rewrite Hs).
  apply Inv_setTimeout_other; [done |]. by apply Inv_clearTimeout.
Qed.

Lemma Inv_onSubmitForm (fuel : nat) (canPrevent : bool) (s s' : State) (r : bool) :
  Inv (world s) -> onSubmitForm fuel canPrevent s = Returned (r, s') -> Inv (world s').
Proof.
  intros HI H. unfold onSubmitForm in H.
  destruct (allowSubmit (world s)).
  { injection H as <- <-. by apply Inv_set_allowSubmit. }
  set (s1 := if canPrevent then upd (emit EPreventDefault) s else s) in *.
  assert (HI1 : Inv (world s1)).
  { subst s1. destruct canPrevent; [| done]. by apply Inv_emit. }
  destruct (contactForm (world s1)); [| by injection H as <- <-].
  destruct (formContainer (world s1)) as [k |].
  2: { injection H as <- <-. by apply Inv_emit. }
  destruct (attemptRender _ _ _) as [s3 | s3 |] eqn:H3; [| done | done].
  injection H as <- <-.
  eapply Inv_attemptRender; [| exact H3].
  destruct (hasClass _ _); [| done].
  cbn [world upd set_world].
  apply Inv_setTimeout_other; [done |]. by apply Inv_updContainer.
Qed.

Lemma Inv_step (fuel : nat) (ev : Event) (s s' : State) :
  Inv (world s) -> step fuel ev s = Some s' -> Inv (world s').
Proof.
  intros HI H. destruct ev; simpl in H.
  - destruct (applyCompact fuel s) as [s1 | |] eqn:H1; [| done | done].
    injection H as <-. by apply (Inv_applyCompact fuel s).
  - injection H as <-. by apply Inv_onResize, Inv_set_innerWidth.
  - destruct (List.find _ (timers (world s))) as [t |] eqn:Hf; [| by injection H as <-].
    apply List.find_some in Hf. destruct Hf as [Hin Hid]. apply Nat.eqb_eq in Hid.
    destruct (body t) as [r e c | c |] eqn:Hb; simpl in H.
    + destruct (attemptRender _ _ _) as [s1 | |] eqn:H1; [| done | done].
      injection H as <-. eapply Inv_attemptRender; [| exact H1].
      cbn [world upd set_world].
      by apply (Inv_fire_retry (world s) id t r e c).
    + injection H as <-. apply Inv_emit; [done |].
      apply (Inv_frame (world s)); try done; try (cbn; lia).
      * intros t0 Hin0 _. cbn in Hin0. apply List.filter_In in Hin0. tauto.
      * intros e. unfold pendingRetries. cbn. apply length_filter_filter.
      * apply (inv_nodes _ HI).
    + destruct (applyCompact _ _) as [s1 | |] eqn:H1; [| done | done].
      injection H as <-. eapply Inv_applyCompact; [| exact H1].
      apply (Inv_frame (world s)); try done; try (cbn; lia).
      * intros t0 Hin0 _. cbn in Hin0. apply List.filter_In in Hin0. tauto.
      * intros e. unfold pendingRetries. cbn. apply length_filter_filter.
      * apply (inv_nodes _ HI).
  - injection H as <-. by apply Inv_set_grecaptcha.
  - unfold onRecaptchaApiLoaded in H. by apply (Inv_drain fuel fuel (set_ready true s)).
  - destruct (onSubmitForm fuel true s) as [[[|] s1] | |] eqn:H1; [| | done | done].
    + injection H as <-. apply Inv_emit; [done |]. by apply (Inv_onSubmitForm fuel true s s1 true).
    + injection H as <-. by apply (Inv_onSubmitForm fuel true s s1 false).
  - injection H as <-. by apply Inv_onRecaptchaSuccess.
  - injection H as <-. by apply Inv_onRecaptchaExpired.
  - injection H as <-. by apply Inv_onRecaptchaError.
Qed.

Lemma Inv_run (fuel : nat) (evs : list Event) :
  forall (s s' : State), Inv (world s) -> run fuel evs s = Some s' -> Inv (world s').
Proof.
  induction evs as [| ev rest IH]; intros s s' HI H; simpl in H; [by injection H as <- |].
  destruct (step fuel ev s) as [s1 |] eqn:H1; [| done].
  apply (IH s1 s'); [| done]. by apply (Inv_step fuel ev s).
Qed.

Lemma Inv_justLoaded (s : State) : justLoaded s -> Inv (world s).
Proof.
  intros [Hrs [Ht [Hl Hn]]]. constructor; unfold pendingRetries, attemptsOf.
  - intros e r H. by rewrite Hrs in H.
  - intros e1 e2 r H. by rewrite Hrs in H.
  - intros t r e c H. by rewrite Ht in H.
  - intros e. rewrite Ht. simpl. lia.
  - intros e r H. by rewrite Hrs in H.
  - exact Hn.
  - intros e. rewrite Hl, Hrs. split; [done |]. rewrite lookup_empty. lia.
Qed.

End InvFacts.

(** *** Backoff and the single pending retry, per element *)

Section RetryFacts.
Import Dom ReadyQueue Display DisplaySpec.

Lemma increasing_backoff_from (n : nat) :
  forall start,
    increasing (List.map (fun i => (RETRY_BASE_MS * 2 ^ i)%nat) (seq start n)) = true.
Proof.
  induction n as [| n IH]; intros start; [done |].
  cbn [seq List.map]. specialize (IH (S start)).
  destruct n as [| n]; [done |].
  cbn [seq List.map] in *. cbn [increasing]. cbn [increasing] in IH. rewrite IH.
  rewrite andb_true_r. apply Nat.ltb_lt.
  rewrite Nat.pow_succ_r'. unfold RETRY_BASE_MS.
  assert (0 < 2 ^ start) by (apply Nat.neq_0_lt_0, Nat.pow_nonzero; lia). lia.
Qed.

Lemma increasing_backoff (n : nat) : increasing (backoff n) = true.
Proof. apply increasing_backoff_from. Qed.

(** While the flag of the placeholder's state object is up,
    [scheduleRenderAttempt] does nothing at all. *)
Lemma schedule_noop_when_scheduled (c : nat) (w : World) (e : Element) (r : nat) :
  currentPlaceholder c w = Some e ->
  retryState w !! eid e = Some r ->
  scheduled (deref r w) = true ->
  scheduleRenderAttempt (Some c) w = w.
Proof.
  intros Hcur Hr Hs. rewrite scheduleRenderAttempt_unfold, Hcur, Hr. cbv zeta. by rewrite Hs.
Qed.

(** What one call of the scheduler does to the log and to the counter of
    the container's placeholder: nothing, or one timer whose delay is
    [RETRY_BASE_MS * 2^counter], with the counter incremented in the same
    call. *)
Lemma schedule_arms_with_backoff (c : nat) (w : World) (e : Element) :
  currentPlaceholder c w = Some e ->
  (log (scheduleRenderAttempt (Some c) w) = log w
   /\ timers (scheduleRenderAttempt (Some c) w) = timers w)
  \/ exists t r,
       log (scheduleRenderAttempt (Some c) w) = log w ++ [ESetTimeout t]
       /\ timers (scheduleRenderAttempt (Some c) w) = timers w ++ [t]
       /\ body t = RetryFire r (eid e) c
       /\ delay t = (RETRY_BASE_MS * 2 ^ attemptsOf (eid e) w)%nat
       /\ attemptsOf (eid e) (scheduleRenderAttempt (Some c) w) = S (attemptsOf (eid e) w).
Proof.
  intros Hcur. unfold attemptsOf.
  destruct (retryState w !! eid e) as [r |] eqn:Hr.
  2: { right. rewrite (schedule_fresh c w e Hcur Hr).
       eexists _, (nextRef w). world_proj. repeat split.
       unfold deref. world_proj. by rewrite !lookup_insert_eq. }
  rewrite scheduleRenderAttempt_unfold, Hcur, Hr. cbv zeta.
  destruct (scheduled (deref r w)); [by left |].
  destruct (MAX_RENDER_RETRIES <=? attempts (deref r w))%nat.
  - left. world_proj. by rewrite log_showInlineError.
  - right. eexists _, r. world_proj. repeat split.
    rewrite lookup_insert_eq. unfold deref. world_proj. by rewrite lookup_insert_eq.
Qed.

(** The retry bookkeeping node by node.  In every state the event loop
    reaches from a freshly loaded page, and for every node that is or was a
    placeholder: a call of the scheduler for it
    either arms nothing or arms one timer whose delay is
    [700 * 2^counter], incrementing the counter in the same call; the
    delays of the retries scheduled for that node so far are
    [700 * 2^0, 700 * 2^1, ...], one per unit of the counter (which thus
    already counts a retry that is scheduled and has not fired); the
    counter never exceeds the ceiling; the delays are strictly increasing;
    and the head of a pending retry's timer function, when it fires,
    leaves the counter as it is. *)
Theorem retry_delays_double_per_element :
  forall (fuel : nat) (evs : list Event) (s0 s : State),
    justLoaded s0 ->
    run fuel evs s0 = Some s ->
    forall e : nat,
      (forall (c : nat) (x : Element),
          currentPlaceholder c (world s) = Some x ->
          eid x = e ->
          (log (scheduleRenderAttempt (Some c) (world s)) = log (world s)
           /\ timers (scheduleRenderAttempt (Some c) (world s)) = timers (world s))
          \/ exists t r,
               log (scheduleRenderAttempt (Some c) (world s)) = log (world s) ++ [ESetTimeout t]
               /\ timers (scheduleRenderAttempt (Some c) (world s)) = timers (world s) ++ [t]
               /\ body t = RetryFire r e c
               /\ delay t = (RETRY_BASE_MS * 2 ^ attemptsOf e (world s))%nat
               /\ attemptsOf e (scheduleRenderAttempt (Some c) (world s))
                  = S (attemptsOf e (world s)))
      /\ RETRY_BASE_MS = 700
      /\ retryDelays e (log (world s)) = backoff (attemptsOf e (world s))
      /\ attemptsOf e (world s) <= MAX_RENDER_RETRIES
      /\ increasing (retryDelays e (log (world s))) = true
      /\ forall (t : Timer) (r c : nat),
           In t (timers (world s)) ->
           body t = RetryFire r e c ->
           attemptsOf e (clearScheduled r e (world s)) = attemptsOf e (world s).
Proof.
  intros fuel evs s0 s H0 Hrun e.
  pose proof (Inv_run fuel evs s0 s (Inv_justLoaded s0 H0) Hrun) as HI.
  destruct (inv_delays _ HI e) as [Hd Hle].
  split; [intros c x Hcur <-; by apply schedule_arms_with_backoff |].
  split; [reflexivity |]. split; [exact Hd |]. split; [exact Hle |].
  split; [rewrite Hd; apply increasing_backoff |].
  intros t r c Hin Hb. destruct (inv_timer _ HI t r e c Hin Hb) as [Hr _].
  unfold attemptsOf, clearScheduled, deref. world_proj.
  by rewrite Hr, !lookup_insert_eq.
Qed.

Lemma justLoaded_page (g : option Grecaptcha) (width : Z) : justLoaded (Scenario.page g width).
Proof.
  repeat split. repeat constructor.
Qed.

Lemma retry_delays_double_per_element_witness :
  exists s : State,
    run 1 [UserSubmit; TimerFires 1; TimerFires 2; WidgetError; TimerFires 3]
      (Scenario.page None 500) = Some s
    /\ retryDelays 0 (log (world s)) = backoff (attemptsOf 0 (world s))
    /\ attemptsOf 0 (world s) <= MAX_RENDER_RETRIES
    /\ increasing (retryDelays 0 (log (world s))) = true.
Proof.
  destruct (run 1 [UserSubmit; TimerFires 1; TimerFires 2; WidgetError; TimerFires 3]
              (Scenario.page None 500)) as [s |] eqn:Hrun;
    [| vm_compute in Hrun; discriminate Hrun].
  exists s. split; [reflexivity |].
  destruct (retry_delays_double_per_element 1
              [UserSubmit; TimerFires 1; TimerFires 2; WidgetError; TimerFires 3]
              (Scenario.page None 500) s (justLoaded_page None 500) Hrun 0)
    as [_ [_ [Hd [Hle [Hinc _]]]]].
  exact (conj Hd (conj Hle Hinc)).
Defined.

(** The run of the witness schedules four retries for the placeholder. *)
Example backoff_run_delays :
  option_map (fun s => retryDelays 0 (log (world s)))
    (run 1 [UserSubmit; TimerFires 1; TimerFires 2; WidgetError; TimerFires 3]
       (Scenario.page None 500))
  = Some (backoff 4).
Proof. reflexivity. Qed.

(** Pending retries node by node.  In every state the event loop reaches
    from a freshly loaded page, at most one retry timer is pending for any
    one node; and while the flag of the node's state object is up, a call of
    the scheduler for it changes nothing: no timer is added.  A node that
    replaces the placeholder has a state object of its own. *)
Theorem one_pending_retry_per_element :
  forall (fuel : nat) (evs : list Event) (s0 s : State),
    justLoaded s0 ->
    run fuel evs s0 = Some s ->
    forall e : nat,
      length (pendingRetries e (world s)) <= 1
      /\ forall (c : nat) (x : Element) (r : nat),
           currentPlaceholder c (world s) = Some x ->
           eid x = e ->
           retryState (world s) !! e = Some r ->
           scheduled (deref r (world s)) = true ->
           scheduleRenderAttempt (Some c) (world s) = world s.
Proof.
  intros fuel evs s0 s H0 Hrun e.
  pose proof (Inv_run fuel evs s0 s (Inv_justLoaded s0 H0) Hrun) as HI.
  split; [apply (inv_one _ HI) |].
  intros c x r Hcur <- Hr Hs. by apply (schedule_noop_when_scheduled c (world s) x r).
Qed.

Lemma one_pending_retry_per_element_witness :
  exists s : State,
    run 1 [UserSubmit; UserSubmit; WidgetError; UserSubmit] (Scenario.page None 500) = Some s
    /\ length (pendingRetries 0 (world s)) <= 1.
Proof.
  destruct (run 1 [UserSubmit; UserSubmit; WidgetError; UserSubmit] (Scenario.page None 500))
    as [s |] eqn:Hrun; [| vm_compute in Hrun; discriminate Hrun].
  exists s. split; [reflexivity |].
  apply (one_pending_retry_per_element 1
           [UserSubmit; UserSubmit; WidgetError; UserSubmit] (Scenario.page None 500) s).
  - apply justLoaded_page.
  - exact Hrun.
Defined.

(** Four failures in a row, faster than the first backoff window: one
    timer. *)
Example failures_faster_than_backoff :
  option_map (fun s => List.map delay (pendingRetries 0 (world s)))
    (run 1 [UserSubmit; UserSubmit; WidgetError; UserSubmit] (Scenario.page None 500))
  = Some [700].
Proof. reflexivity. Qed.

End RetryFacts.

(** *** Support for the departures: they do not depend on the sample page *)

Section DepartureFacts.
Import Dom ReadyQueue Display DisplaySpec.

Lemma widgetsUntouched_refl (w : World) : widgetsUntouched w w.
Proof. by repeat split. Qed.

Lemma widgetsUntouched_trans (a b c : World) :
  widgetsUntouched a b -> widgetsUntouched b c -> widgetsUntouched a c.
Proof.
  intros [A1 [A2 [A3 [A4 A5]]]] [B1 [B2 [B3 [B4 B5]]]].
  repeat split; congruence.
Qed.

Lemma widgetsUntouched_clearInlineError (o : option nat) (w : World) :
  widgetsUntouched w (clearInlineError o w).
Proof.
  repeat split; try (by destruct o). apply children_clearInlineError.
Qed.

Lemma allRendered_clearInlineError (o : option nat) (w : World) :
  allRendered w -> allRendered (clearInlineError o w).
Proof.
  intros [Hav Hall]. split.
  - by rewrite grecaptcha_clearInlineError.
  - intros c cur Hcur. rewrite currentPlaceholder_clearInlineError in Hcur. by apply (Hall c).
Qed.

(** On a page whose widgets are all rendered, [attemptRender] touches no
    widget, whatever the container. *)
Lemma attemptRender_allRendered (fuel : nat) (container : option nat) (s : State) :
  allRendered (world s) ->
  exists s',
    attemptRender (S fuel) container s = Returned s'
    /\ widgetsUntouched (world s) (world s')
    /\ allRendered (world s').
Proof.
  intros HA. rewrite attemptRender_unfold.
  destruct container as [c |];
    [| exists s; split; [done | split; [apply widgetsUntouched_refl | done]]].
  destruct (lookupContainer c (world s));
    [| exists s; split; [done | split; [apply widgetsUntouched_refl | done]]].
  cbv zeta.
  assert (HA1 : allRendered (world (upd (clearInlineError (Some c)) s)))
    by (by apply allRendered_clearInlineError).
  assert (HU1 : widgetsUntouched (world s) (world (upd (clearInlineError (Some c)) s)))
    by apply widgetsUntouched_clearInlineError.
  destruct (currentPlaceholder c (world (upd (clearInlineError (Some c)) s)))
    as [current |] eqn:Hcur; [| by eexists].
  pose proof HA1 as [Hav Hall]. rewrite (Hall c current Hcur), Hav. cbn [andb].
  by eexists.
Qed.

(** X10. The general fact behind the resize departure: on a page whose widgets
    are all rendered, [applyCompact] replaces no node and renders nothing,
    whatever the window width and whatever size the widgets are bound to. *)
Lemma applyCompact_allRendered (fuel : nat) (s : State) :
  allRendered (world s) ->
  exists s',
    applyCompact (S fuel) s = Returned s'
    /\ widgetsUntouched (world s) (world s')
    /\ allRendered (world s').
Proof.
  unfold applyCompact.
  generalize (desiredSize (world s)) as sz. generalize (allPlaceholders (world s)) as l.
  intros l. revert s. induction l as [| e rest IH]; intros s sz HA; simpl.
  - exists s. split; [done |]. split; [apply widgetsUntouched_refl | done].
  - assert (exists s1, applyCompactOne (S fuel) sz e s = Returned s1
                       /\ widgetsUntouched (world s) (world s1)
                       /\ allRendered (world s1)) as [s1 [H1 [HU1 HA1]]].
    { unfold applyCompactOne. destruct (_ && _).
      - exists s. split; [done |]. split; [apply widgetsUntouched_refl | done].
      - destruct (parentOf (eid e) (world s)) as [k |].
        + by apply attemptRender_allRendered.
        + exists s. split; [done |]. split; [apply widgetsUntouched_refl | done]. }
    rewrite H1. destruct (IH s1 sz HA1) as [s' [H' [HU' HA']]].
    exists s'. split; [done |]. split; [| done].
    by apply (widgetsUntouched_trans _ (world s1)).
Qed.

Lemma getAttribute_setAttribute_other (n m v : string) (a : Attrs) :
  n <> m -> getAttribute n (setAttribute m v a) = getAttribute n a.
Proof.
  intros Hne. induction a as [| [k x] rest IH]; simpl.
  - destruct (String.eqb_spec m n); [congruence | done].
  - destruct (String.eqb_spec k m) as [-> | Hkm]; simpl.
    + destruct (String.eqb_spec m n); [congruence | done].
    + destruct (String.eqb_spec k n); [done | exact IH].
Qed.

Lemma getAttribute_setAttribute_None (n m v : string) (a : Attrs) :
  n <> m -> getAttribute n a = None -> getAttribute n (setAttribute m v a) = None.
Proof. intros Hne H. by rewrite getAttribute_setAttribute_other. Qed.

Lemma getAttribute_removeAttribute_None (n m : string) (a : Attrs) :
  getAttribute n a = None -> getAttribute n (removeAttribute m a) = None.
Proof.
  induction a as [| [k x] rest IH]; simpl; [done |].
  destruct (String.eqb_spec k n) as [-> | Hkn]; [done |]. intros H.
  destruct (String.eqb k m); simpl; [by apply IH |].
  destruct (String.eqb_spec k n); [done | by apply IH].
Qed.

Lemma getAttribute_copy_None (n : string) (src : Attrs) :
  forall dest,
    getAttribute n src = None -> getAttribute n dest = None ->
    getAttribute n (copyDataAttributes src dest) = None.
Proof.
  unfold copyDataAttributes.
  induction src as [| [k x] rest IH]; intros dest Hs Hd; simpl; [done |].
  simpl in Hs. destruct (String.eqb_spec k n) as [-> | Hkn]; [done |].
  apply IH; [done |].
  destruct (String.prefix "data-" k); [| done].
  apply getAttribute_setAttribute_None; [congruence | done].
Qed.

Lemma currentPlaceholder_single (w : World) (k : Container) (e : Element) :
  containers w = [k] -> children k = [e] ->
  hasClass "g-recaptcha" (classes e) = true ->
  currentPlaceholder (cid k) w = Some e.
Proof.
  intros Hks Hch Hcls. unfold currentPlaceholder, lookupContainer, queryPlaceholder.
  rewrite Hks. simpl. rewrite Nat.eqb_refl, Hch. simpl. by rewrite Hcls.
Qed.

(** A render that throws, on a page with one container and one
    placeholder: what [replaceAndMaybeRender] returns and leaves behind. *)
Lemma replace_throwing (w : World) (k : Container) (e : Element) (sz : option string)
      (f : nat -> option nat) (rs : bool) (gr : option (nat -> string)) :
  grecaptcha w = Some (mkGrecaptcha (Some f) rs gr) ->
  f (renderCalls w) = None ->
  containers w = [k] ->
  children k = [e] ->
  hasClass "g-recaptcha" (classes e) = true ->
  getAttribute "data-recaptcha-widget-id" (attrs e) = None ->
  exists e' w',
    replaceAndMaybeRender e sz w = (Some (mkRes e' None true), w')
    /\ eid e' = nextNode w
    /\ hasClass "g-recaptcha" (classes e') = true
    /\ getAttribute "data-recaptcha-widget-id" (attrs e') = None
    /\ containers w' = [set_children [e'] k]
    /\ (exists opts, log w' = log w ++ [EReplaceChild (nextNode w) (eid e); ERender (nextNode w) opts])
    /\ retryState w' = retryState w
    /\ heap w' = heap w
    /\ nextRef w' = nextRef w
    /\ grecaptcha w' = grecaptcha w.
Proof.
  intros Hg Hf Hks Hch Hcls Hwid.
  unfold replaceAndMaybeRender, parentOf. rewrite Hks.
  assert (Hh : holds (eid e) k = true)
    by (unfold holds; rewrite Hch; simpl; by rewrite Nat.eqb_refl).
  cbn [List.find]. rewrite Hh. cbv zeta. world_proj. rewrite Hg, Hf.
  eexists _, _. split; [reflexivity |]. world_proj. cbn [eid classes attrs].
  split; [done |]. split.
  { destruct (classes e); [done | exact Hcls]. }
  split.
  { assert (getAttribute "data-recaptcha-widget-id" (copyDataAttributes (attrs e) []) = None)
      as Hc by (by apply getAttribute_copy_None).
    destruct (truthy sz).
    - apply getAttribute_setAttribute_None; [done |].
      by apply getAttribute_setAttribute_None.
    - apply getAttribute_setAttribute_None; [done |].
      by apply getAttribute_removeAttribute_None. }
  split.
  { rewrite Hks. cbn [List.map]. rewrite Nat.eqb_refl, Hch. cbn [replaceChild].
    by rewrite Nat.eqb_refl. }
  split; [| done].
  eexists. by rewrite <- app_assoc.
Qed.

(** The retry that follows such a failure is armed from scratch: the new
    node has no retry state. *)
Lemma schedule_from_scratch (w : World) (k : Container) (e : Element) :
  containers w = [k] ->
  children k = [e] ->
  hasClass "g-recaptcha" (classes e) = true ->
  retryState w !! eid e = None ->
  scheduleRenderAttempt (Some (cid k)) w
  = snd (setTimeout (RetryFire (nextRef w) (eid e) (cid k)) RETRY_BASE_MS
           (set_retryState (<[eid e := nextRef w]> (retryState w))
              (set_heap (<[nextRef w := mkRetry 1 true]>
                           (<[nextRef w := mkRetry 0 false]> (heap w)))
                 (set_nextRef (S (nextRef w)) w)))).
Proof.
  intros Hks Hch Hcls Hnone.
  by apply schedule_fresh; [apply (currentPlaceholder_single w k e) |].
Qed.

(** X11. The general fact behind the two retry departures.  On a page with one
    container and one placeholder without widget id, with a render that
    always throws: an
    attempt ends with a new placeholder (again without widget id) whose
    attempt counter is 1, with one more retry scheduled [RETRY_BASE_MS]
    ahead and with no error message, whatever happened before.  The
    conditions hold again afterwards, so this repeats at every retry. *)
Lemma throwing_render_restarts_backoff
      (fuel : nat) (s : State) (k : Container) (e : Element)
      (f : nat -> option nat) (rs : bool) (gr : option (nat -> string)) :
  Inv (world s) ->
  grecaptcha (world s) = Some (mkGrecaptcha (Some f) rs gr) ->
  (forall n, f n = None) ->
  containers (world s) = [k] ->
  children k = [e] ->
  hasClass "g-recaptcha" (classes e) = true ->
  getAttribute "data-recaptcha-widget-id" (attrs e) = None ->
  exists s' k' e',
    attemptRender (S fuel) (Some (cid k)) s = Returned s'
    /\ Inv (world s')
    /\ grecaptcha (world s') = grecaptcha (world s)
    /\ containers (world s') = [k'] /\ cid k' = cid k /\ errorBox k' = None
    /\ children k' = [e'] /\ eid e' = nextNode (world s)
    /\ hasClass "g-recaptcha" (classes e') = true
    /\ getAttribute "data-recaptcha-widget-id" (attrs e') = None
    /\ currentAttempts (cid k) (world s') = 1
    /\ allRetryDelays (log (world s')) = allRetryDelays (log (world s)) ++ [RETRY_BASE_MS].
Proof.
  intros HI Hg Hf Hks Hch Hcls Hwid.
  assert (Hfresh : retryState (world s) !! nextNode (world s) = None).
  { destruct (retryState (world s) !! nextNode (world s)) as [r |] eqn:Hr; [| done].
    destruct (inv_dom _ HI _ _ Hr). lia. }
  set (k1 := set_errorBox None k).
  set (w1 := clearInlineError (Some (cid k)) (world s)).
  assert (Hks1 : containers w1 = [k1]).
  { subst w1. unfold clearInlineError. world_proj. rewrite Hks. simpl.
    by rewrite Nat.eqb_refl. }
  destruct (replace_throwing w1 k1 e (desiredSize w1) f rs gr)
    as [e' [w2 [Hrep [Heid [Hcls' [Hwid' [Hks2 [[opts Hlog2] [Hrs2 [Hhp2 [Hnr2 Hg2]]]]]]]]]]];
    try done.
  set (k2 := set_children [e'] k1) in *.
  assert (Hnone : retryState w2 !! eid e' = None) by (by rewrite Hrs2, Heid).
  pose proof (schedule_from_scratch w2 k2 e' Hks2 eq_refl Hcls' Hnone) as Hsch.
  assert (Hrun : attemptRender (S fuel) (Some (cid k)) s
                 = Returned (set_world (scheduleRenderAttempt (Some (cid k)) w2)
                               (upd (clearInlineError (Some (cid k))) s))).
  { rewrite attemptRender_unfold.
    assert (lookupContainer (cid k) (world s) = Some k) as ->
        by (unfold lookupContainer; rewrite Hks; simpl; by rewrite Nat.eqb_refl).
    cbv zeta. cbn [world upd set_world]. fold w1.
    assert (currentPlaceholder (cid k) w1 = Some e) as ->
        by exact (currentPlaceholder_single w1 k1 e Hks1 Hch Hcls).
    rewrite Hwid. cbn [truthy andb].
    assert (renderAvailable (grecaptcha w1) = true) as ->
        by (subst w1; by rewrite grecaptcha_clearInlineError, Hg).
    by rewrite Hrep. }
  exists (set_world (scheduleRenderAttempt (Some (cid k)) w2)
            (upd (clearInlineError (Some (cid k))) s)), k2, e'.
  split; [exact Hrun |].
  split; [exact (Inv_attemptRender _ _ _ _ HI Hrun) |].
  cbn [world set_world]. change (cid k) with (cid k2). rewrite Hsch. world_proj.
  split; [by rewrite Hg2 |].
  split; [exact Hks2 |]. split; [done |]. split; [done |]. split; [done |].
  split; [exact Heid |]. split; [exact Hcls' |]. split; [exact Hwid' |].
  split.
  - unfold currentAttempts.
    match goal with
    | |- context [currentPlaceholder (cid k2) ?w] =>
        assert (currentPlaceholder (cid k2) w = Some e') as ->
          by exact (currentPlaceholder_single w k2 e' Hks2 eq_refl Hcls')
    end.
    unfold attemptsOf, deref. world_proj. by rewrite !lookup_insert_eq.
  - rewrite Hlog2. unfold allRetryDelays. rewrite !omap_app. simpl.
    by rewrite app_nil_r.
Qed.

End DepartureFacts.

(** *** The event loop goes on *)

Section Progress.
Import Dom ReadyQueue Display DisplaySpec.

Lemma grecaptcha_schedule (container : option nat) (w : World) :
  grecaptcha (scheduleRenderAttempt container w) = grecaptcha w.
Proof.
  rewrite scheduleRenderAttempt_unfold.
  destruct container as [c |]; [| done].
  destruct (currentPlaceholder c w) as [e |]; [| done].
  destruct (retryState w !! eid e) as [r |]; cbv zeta.
  - destruct (scheduled _); [done |].
    destruct (_ <=? _)%nat; [| done]. world_proj. by rewrite grecaptcha_showInlineError.
  - destruct (scheduled _); [done |].
    destruct (_ <=? _)%nat; [| done]. world_proj. by rewrite grecaptcha_showInlineError.
Qed.

Lemma grecaptcha_replace (e : Element) (sz : option string) (w : World) :
  grecaptcha (snd (replaceAndMaybeRender e sz w)) = grecaptcha w.
Proof.
  unfold replaceAndMaybeRender.
  destruct (parentOf (eid e) w) as [parent |]; [| done].
  cbv zeta. world_proj.
  destruct (grecaptcha w) as [[[renderFn |] rs gr] |] eqn:Hg; [| done | done].
  by destruct (renderFn _).
Qed.

(** [attemptRender] changes neither the readiness flag nor the API. *)
Lemma attemptRender_api (fuel : nat) :
  forall (container : option nat) (s s' : State),
    attemptRender fuel container s = Returned s' ->
    grecaptchaReady s' = grecaptchaReady s
    /\ grecaptcha (world s') = grecaptcha (world s).
Proof.
  induction fuel as [| fuel IH]; intros container s s' H; [done |].
  rewrite attemptRender_unfold in H.
  destruct container as [c |]; [| by injection H as <-].
  destruct (lookupContainer c (world s)); [| by injection H as <-].
  cbv zeta in H.
  assert (Hc : grecaptcha (world (upd (clearInlineError (Some c)) s)) = grecaptcha (world s))
    by apply (grecaptcha_clearInlineError (Some c)).
  destruct (currentPlaceholder c _) as [current |]; [| by injection H as <-].
  destruct (truthy _ && _); [by injection H as <- |].
  destruct (renderAvailable _).
  - pose proof (grecaptcha_replace current
                  (desiredSize (world (upd (clearInlineError (Some c)) s)))
                  (world (upd (clearInlineError (Some c)) s))) as Hr.
    destruct (replaceAndMaybeRender _ _ _) as [[[e [wid |] err] |] w2]; cbn [snd] in Hr;
      injection H as <-; (split; [done |]); cbn [world set_world].
    + rewrite grecaptcha_clearInlineError. cbn [grecaptcha set_retryState]. by rewrite Hr.
    + by rewrite grecaptcha_schedule, Hr.
    + by rewrite grecaptcha_schedule, Hr.
  - unfold whenGrecaptchaReady in H.
    destruct (grecaptchaReady (upd (clearInlineError (Some c)) s)) eqn:Hrd.
    + destruct (attemptRender fuel (Some c) _) as [s2 | s2 |] eqn:H2; [| done | done].
      injection H as <-. destruct (IH _ _ _ H2) as [Ha Hb].
      split; [cbn [grecaptchaReady upd set_world]; by rewrite Ha |].
      cbn [world upd set_world]. by rewrite grecaptcha_schedule, Hb.
    + injection H as <-. split; [done |].
      cbn [world upd set_world set_queue]. by rewrite grecaptcha_schedule.
Qed.

Lemma apiSane_attemptRender (fuel : nat) (container : option nat) (s s' : State) :
  apiSane s -> attemptRender fuel container s = Returned s' -> apiSane s'.
Proof.
  intros Hs H. destruct (attemptRender_api _ _ _ _ H) as [Hr Hg].
  unfold apiSane. rewrite Hr, Hg. exact Hs.
Qed.

Lemma forEach_returns (fuel : nat) (sz : option string) (l : list Element) :
  forall s, apiSane s -> exists s', forEach (applyCompactOne (S fuel) sz) l s = Returned s'.
Proof.
  induction l as [| e rest IH]; intros s Hs; simpl; [by eexists |].
  assert (exists s1, applyCompactOne (S fuel) sz e s = Returned s1 /\ apiSane s1)
    as [s1 [H1 Hs1]].
  { unfold applyCompactOne. destruct (_ && _); [by eexists |].
    destruct (parentOf (eid e) (world s)) as [k |]; [| by eexists].
    destruct (attemptRender_returns fuel (Some (cid k)) s Hs) as [s1 H1].
    exists s1. split; [done |]. by apply (apiSane_attemptRender _ _ _ _ Hs H1). }
  rewrite H1. by apply IH.
Qed.

(** Once the flag is up and the API there, the queued closures run to
    their end and queue nothing. *)
Lemma drain_returns (fuel : nat) (q : list nat) :
  forall (n : nat) (s : State),
    grecaptchaReadyQueue s = q ->
    length q <= n ->
    grecaptchaReady s = true ->
    renderAvailable (grecaptcha (world s)) = true ->
    exists s', drain (fun c x => attemptRender (S fuel) (Some c) x) n s = Some s'.
Proof.
  induction q as [| fn rest IH]; intros n s Hq Hn Hr Hav.
  { destruct n; simpl; rewrite Hq; by eexists. }
  destruct n as [| n]; [simpl in Hn; lia |]. simpl. rewrite Hq.
  assert (apiSane (set_queue rest s)) as Hs by (by intros _).
  destruct (attemptRender_returns fuel (Some fn) (set_queue rest s) Hs) as [s1 H1].
  rewrite H1. destruct (attemptRender_api _ _ _ _ H1) as [Hr1 Hg1].
  apply IH; [| simpl in Hn; lia | by rewrite Hr1 | by rewrite Hg1].
  clear IH. revert H1. rewrite attemptRender_unfold.
  destruct (lookupContainer fn _); [| by intros [= <-]].
  cbv zeta. destruct (currentPlaceholder fn _) as [current |]; [| by intros [= <-]].
  cbn [world upd set_world set_queue].
  rewrite grecaptcha_clearInlineError, Hav, andb_true_r.
  destruct (truthy _); [by intros [= <-] |].
  destruct (replaceAndMaybeRender _ _ _) as [[[e [wid |] err] |] w2]; by intros [= <-].
Qed.

(** X9. Every turn of the event loop ends, given fuel for the queue, as long
    as the widget script calls the onload hook only with its API in
    place. *)
Lemma step_returns (fuel : nat) (ev : Event) (s : State) :
  apiSane s ->
  (ev = ApiOnload -> renderAvailable (grecaptcha (world s)) = true) ->
  exists s', step (S (fuel + length (grecaptchaReadyQueue s))) ev s = Some s'.
Proof.
  intros Hs Hev. destruct ev; simpl step.
  - destruct (forEach_returns (fuel + length (grecaptchaReadyQueue s))
                (desiredSize (world s)) (allPlaceholders (world s)) s Hs) as [s' H].
    unfold applyCompact. rewrite H. by eexists.
  - by eexists.
  - destruct (List.find _ _) as [t |]; [| by eexists].
    destruct (body t) as [r e c | c |]; simpl.
    + match goal with
      | |- context [attemptRender (S ?f) ?c ?s1] =>
          destruct (attemptRender_returns f c s1 Hs) as [s' H]
      end.
      rewrite H. by eexists.
    + by eexists.
    + match goal with
      | |- context [applyCompact (S ?f) ?s1] =>
          destruct (forEach_returns f (desiredSize (world s1)) (allPlaceholders (world s1))
                      s1 Hs) as [s' H]
      end.
      unfold applyCompact. rewrite H. by eexists.
  - by eexists.
  - unfold onRecaptchaApiLoaded.
    apply (drain_returns _ (grecaptchaReadyQueue s)); [done | simpl; lia | done |].
    by apply Hev.
  - destruct (allowSubmit (world s)) eqn:Hflag.
    + rewrite (onSubmitForm_preapproved _ _ _ Hflag). by eexists.
    + destruct (onSubmitForm_intercepts (fuel + length (grecaptchaReadyQueue s)) s Hflag Hs)
        as [s' [l [H _]]].
      rewrite H. by eexists.
  - by eexists.
  - by eexists.
  - by eexists.
Qed.

End Progress.

(** *** Timers, submit flag and render calls along the event loop *)

Section GrowsFacts.
Import Dom ReadyQueue Display DisplaySpec LoopSpec.

Lemma renderedNodes_app (a b : list Effect) :
  renderedNodes (a ++ b) = renderedNodes a ++ renderedNodes b.
Proof. apply omap_app. Qed.

Lemma defaultSubmits_app (a b : list Effect) :
  defaultSubmits (a ++ b) = defaultSubmits a + defaultSubmits b.
Proof. unfold defaultSubmits. by rewrite List.filter_app, List.length_app. Qed.

Lemma Grows_refl (w : World) : Grows w w.
Proof.
  constructor; try done.
  - exists []. rewrite app_nil_r. simpl. repeat split; try done; lia.
  - exists []. rewrite app_nil_r. repeat split; try done; constructor.
Qed.

Lemma Grows_trans (a b c : World) : Grows a b -> Grows b c -> Grows a c.
Proof.
  intros [A1 A2 A3 [lt1 [T1 [F1 [S1 N1]]]] [ll1 [L1 [D1 [R1 B1]]]]]
         [B1' B2 B3 [lt2 [T2 [F2 [S2 N2]]]] [ll2 [L2 [D2 [R2 B2']]]]].
  constructor.
  - congruence.
  - congruence.
  - lia.
  - exists (lt1 ++ lt2). split; [by rewrite T2, T1, app_assoc |].
    split; [by apply Forall_app |].
    split.
    + rewrite List.map_app, S1, S2, N1, List.length_app. by rewrite List.seq_app.
    + rewrite N2, N1, List.length_app. lia.
  - exists (ll1 ++ ll2). split; [by rewrite L2, L1, app_assoc |].
    split; [rewrite defaultSubmits_app; lia |].
    rewrite renderedNodes_app. split.
    + apply NoDup_app. split; [done |]. split; [| done].
      intros x Hx Hx'.
      rewrite Forall_forall in B1. rewrite Forall_forall in B2'.
      specialize (B1 x Hx). specialize (B2' x Hx'). lia.
    + apply Forall_app. split.
      * eapply Forall_impl; [exact B1 |]. simpl. intros x Hx. lia.
      * eapply Forall_impl; [exact B2' |]. simpl. intros x Hx. lia.
Qed.

(** A change that touches neither the flag, nor the timers, nor the log,
    nor the node counter. *)
Lemma Grows_frame (w w' : World) :
  allowSubmit w' = allowSubmit w ->
  resizeTimer w' = resizeTimer w ->
  nextNode w' = nextNode w ->
  timers w' = timers w ->
  nextTimer w' = nextTimer w ->
  log w' = log w ->
  Grows w w'.
Proof.
  intros H1 H2 H3 H4 H5 H6. constructor; try done.
  - lia.
  - exists []. rewrite app_nil_r. simpl. repeat split; try done; lia.
  - exists []. rewrite app_nil_r. repeat split; try done; constructor.
Qed.

Lemma Grows_emit (x : Effect) (w : World) :
  isDefaultSubmit x = false ->
  (forall n o, x <> ERender n o) ->
  Grows w (emit x w).
Proof.
  intros Hd Hr. constructor; try done.
  - exists []. rewrite app_nil_r. simpl. repeat split; try done; lia.
  - exists [x]. split; [done |].
    assert (renderedNodes [x] = []) as ->.
    { destruct x as [| | | | n o | | | |]; try done. by destruct (Hr n o). }
    unfold defaultSubmits. cbn [List.filter]. rewrite Hd.
    split; [done |]. split; constructor.
Qed.

Lemma Grows_setTimeout (b : TimerBody) (ms : nat) (w : World) :
  b <> ApplyCompactFire ->
  Grows w (snd (setTimeout b ms w)).
Proof.
  intros Hb. constructor; try done.
  - exists [mkTimer (nextTimer w) ms b]. world_proj. split; [done |].
    split; [| split; [done | simpl; lia]].
    constructor; [| done]. unfold isApplyCompact. simpl. by destruct b.
  - eexists [_]. world_proj. split; [done |]. repeat split; constructor.
Qed.

Lemma Grows_updContainer (c : nat) (f : Container -> Container) (w : World) :
  Grows w (updContainer c f w).
Proof. by apply Grows_frame. Qed.

Lemma Grows_clearInlineError (o : option nat) (w : World) : Grows w (clearInlineError o w).
Proof. destruct o; [apply Grows_updContainer | apply Grows_refl]. Qed.

Lemma Grows_showInlineError (o : option nat) (t : string) (w : World) :
  Grows w (showInlineError o t w).
Proof. destruct o; [apply Grows_updContainer | apply Grows_refl]. Qed.

Lemma Grows_schedule (container : option nat) (w : World) :
  Grows w (scheduleRenderAttempt container w).
Proof.
  rewrite scheduleRenderAttempt_unfold.
  destruct container as [c |]; [| apply Grows_refl].
  destruct (currentPlaceholder c w) as [e |]; [| apply Grows_refl].
  assert (forall r w0, Grows w w0 ->
            Grows w (let st := deref r w0 in
                     if scheduled st then w0
                     else if (MAX_RENDER_RETRIES <=? attempts st)%nat then
                       set_retryState (<[eid e := r]> (retryState w0))
                         (showInlineError (Some c)
                            "reCAPTCHA failed to load. Please disable adblockers or check your network/permissions."
                            w0)
                     else
                       snd (setTimeout (RetryFire r (eid e) c) (RETRY_BASE_MS * 2 ^ attempts st)
                              (set_retryState (<[eid e := r]> (retryState w0))
                                 (set_heap (<[r := mkRetry (S (attempts st)) true]> (heap w0)) w0)))))
    as Hgen.
  { intros r w0 H0. cbv zeta. destruct (scheduled _); [done |].
    destruct (_ <=? _)%nat.
    - eapply Grows_trans; [exact H0 |]. by apply Grows_frame.
    - eapply Grows_trans; [exact H0 |].
      eapply Grows_trans; [| by apply Grows_setTimeout].
      by apply Grows_frame. }
  destruct (retryState w !! eid e) as [r |].
  - apply Hgen. apply Grows_refl.
  - apply Hgen. by apply Grows_frame.
Qed.

Lemma Grows_replace (e : Element) (sz : option string) (w : World) :
  Grows w (snd (replaceAndMaybeRender e sz w)).
Proof.
  unfold replaceAndMaybeRender.
  destruct (parentOf (eid e) w) as [parent |]; [| apply Grows_refl].
  cbv zeta. world_proj. cbn [eid].
  assert (G1 : forall ks, Grows w (emit (EReplaceChild (nextNode w) (eid e))
                                     (set_containers ks (set_nextNode (S (nextNode w)) w)))).
  { intros ks. constructor; try done.
    - cbn. lia.
    - exists []. rewrite app_nil_r. simpl. repeat split; try done; lia.
    - eexists [_]. split; [done |]. repeat split; constructor. }
  assert (G2 : forall ks ks' o n,
             Grows w (set_containers ks'
                        (emit (ERender (nextNode w) o)
                           (set_renderCalls n
                              (emit (EReplaceChild (nextNode w) (eid e))
                                 (set_containers ks (set_nextNode (S (nextNode w)) w))))))).
  { intros ks ks' o n. constructor; try done.
    - cbn. lia.
    - exists []. rewrite app_nil_r. simpl. repeat split; try done; lia.
    - eexists [_; _]. split; [cbn; by rewrite <- app_assoc |].
      split; [done |]. cbn. split.
      + apply NoDup_singleton.
      + constructor; [lia | constructor]. }
  destruct (grecaptcha w) as [[[renderFn |] rs gr] |]; cbn [snd]; try apply G1.
  destruct (renderFn _) as [wid |]; cbn [snd].
  - unfold setLiveAttribute. world_proj. apply G2.
  - match goal with
    | |- Grows w ?x =>
        replace x with (set_containers (containers x) x) by (by destruct w)
    end.
    world_proj. apply G2.
Qed.

Lemma Grows_attemptRender (fuel : nat) :
  forall (container : option nat) (s s' : State),
    attemptRender fuel container s = Returned s' -> Grows (world s) (world s').
Proof.
  induction fuel as [| fuel IH]; intros container s s' H; [done |].
  rewrite attemptRender_unfold in H.
  destruct container as [c |]; [| injection H as <-; apply Grows_refl].
  destruct (lookupContainer c (world s)); [| injection H as <-; apply Grows_refl].
  cbv zeta in H.
  assert (Hc : Grows (world s) (world (upd (clearInlineError (Some c)) s)))
    by apply Grows_clearInlineError.
  destruct (currentPlaceholder c _) as [current |]; [| by injection H as <-].
  destruct (truthy _ && _); [by injection H as <- |].
  destruct (renderAvailable _).
  - pose proof (Grows_replace current
                  (desiredSize (world (upd (clearInlineError (Some c)) s)))
                  (world (upd (clearInlineError (Some c)) s))) as Hr.
    destruct (replaceAndMaybeRender _ _ _) as [[[e [wid |] err] |] w2]; cbn [snd] in Hr;
      injection H as <-; cbn [world set_world].
    + eapply Grows_trans; [exact Hc |]. eapply Grows_trans; [exact Hr |].
      eapply Grows_trans; [| apply Grows_clearInlineError]. by apply Grows_frame.
    + eapply Grows_trans; [exact Hc |]. eapply Grows_trans; [exact Hr |].
      apply Grows_schedule.
    + eapply Grows_trans; [exact Hc |]. eapply Grows_trans; [exact Hr |].
      apply Grows_schedule.
  - unfold whenGrecaptchaReady in H.
    destruct (grecaptchaReady _).
    + destruct (attemptRender fuel (Some c) _) as [s2 | s2 |] eqn:H2; [| done | done].
      injection H as <-. apply IH in H2.
      eapply Grows_trans; [exact Hc |]. eapply Grows_trans; [exact H2 |].
      apply Grows_schedule.
    + injection H as <-. cbn [world upd set_world set_queue].
      eapply Grows_trans; [exact Hc |]. apply Grows_schedule.
Qed.

Lemma Grows_forEach (fuel : nat) (sz : option string) (l : list Element) :
  forall (s s' : State),
    forEach (applyCompactOne fuel sz) l s = Returned s' -> Grows (world s) (world s').
Proof.
  induction l as [| e rest IH]; intros s s' H; simpl in H;
    [injection H as <-; apply Grows_refl |].
  destruct (applyCompactOne fuel sz e s) as [s1 | s1 |] eqn:H1; [| done | done].
  apply (Grows_trans _ (world s1)); [| by apply IH].
  unfold applyCompactOne in H1.
  destruct (_ && _); [injection H1 as <-; apply Grows_refl |].
  destruct (parentOf (eid e) (world s)) as [k |]; [| injection H1 as <-; apply Grows_refl].
  by apply (Grows_attemptRender fuel (Some (cid k))).
Qed.

Lemma Grows_applyCompact (fuel : nat) (s s' : State) :
  applyCompact fuel s = Returned s' -> Grows (world s) (world s').
Proof. unfold applyCompact. apply Grows_forEach. Qed.

Lemma Grows_drain (fuel : nat) :
  forall (n : nat) (s s' : State),
    drain (fun c x => attemptRender fuel (Some c) x) n s = Some s' ->
    Grows (world s) (world s').
Proof.
  induction n as [| n IH]; intros s s' H; simpl in H.
  - destruct (grecaptchaReadyQueue s); [injection H as <-; apply Grows_refl | done].
  - destruct (grecaptchaReadyQueue s) as [| fn rest]; [injection H as <-; apply Grows_refl |].
    destruct (attemptRender fuel (Some fn) (set_queue rest s)) as [s1 | s1 |] eqn:H1;
      [| by apply attemptRender_no_throw in H1 | done].
    apply (Grows_trans _ (world s1)); [| by apply IH].
    by apply (Grows_attemptRender fuel (Some fn) (set_queue rest s)).
Qed.

Lemma Grows_onRecaptchaExpired (w : World) : Grows w (onRecaptchaExpired w).
Proof.
  unfold onRecaptchaExpired. destruct (contactForm w); [| apply Grows_refl].
  destruct (option_map cid (formContainer w)) as [c |]; [| apply Grows_refl].
  destruct (currentPlaceholder c _); [| apply Grows_showInlineError].
  destruct (_ && _); [| apply Grows_showInlineError].
  eapply Grows_trans; [apply Grows_showInlineError |]. by apply Grows_emit.
Qed.

Lemma Grows_onRecaptchaError (w : World) : Grows w (onRecaptchaError w).
Proof.
  unfold onRecaptchaError.
  eapply Grows_trans; [apply Grows_showInlineError | apply Grows_schedule].
Qed.

(** Without the flag the submit handler is part of it too. *)
Lemma Grows_onSubmitForm (fuel : nat) (canPrevent : bool) (s s' : State) (r : bool) :
  allowSubmit (world s) = false ->
  onSubmitForm fuel canPrevent s = Returned (r, s') ->
  r = false /\ Grows (world s) (world s').
Proof.
  intros Hflag H. unfold onSubmitForm in H. rewrite Hflag in H.
  set (s1 := if canPrevent then upd (emit EPreventDefault) s else s) in *.
  assert (G1 : Grows (world s) (world s1)).
  { subst s1. destruct canPrevent; [| apply Grows_refl]. by apply Grows_emit. }
  destruct (contactForm (world s1)); [| by injection H as <- <-].
  destruct (formContainer (world s1)) as [k |].
  2: { injection H as <- <-. split; [done |].
       eapply Grows_trans; [exact G1 |]. by apply Grows_emit. }
  destruct (attemptRender _ _ _) as [s3 | s3 |] eqn:H3; [| done | done].
  injection H as <- <-. split; [done |].
  eapply Grows_trans; [exact G1 |].
  eapply Grows_trans; [| exact (Grows_attemptRender _ _ _ _ H3)].
  destruct (hasClass _ _); [| apply Grows_refl].
  cbn [world upd set_world].
  eapply Grows_trans; [apply (Grows_updContainer (cid k)) |]. by apply Grows_setTimeout.
Qed.

End GrowsFacts.

Section TidyFacts.
Import Dom ReadyQueue Display DisplaySpec LoopSpec.

Lemma NoDup_map_filter {A B} (f : A -> B) (p : A -> bool) (l : list A) :
  NoDup (List.map f l) -> NoDup (List.map f (List.filter p l)).
Proof.
  induction l as [| a rest IH]; simpl; intros H; [done |].
  apply NoDup_cons in H. destruct H as [Hn Hr].
  destruct (p a); simpl; [| by apply IH].
  apply NoDup_cons. split; [| by apply IH].
  intros Hin. apply Hn. apply list_elem_of_In in Hin. apply list_elem_of_In.
  apply List.in_map_iff in Hin. destruct Hin as [x [Hx Hin]].
  apply List.in_map_iff. exists x. split; [done |].
  apply List.filter_In in Hin. tauto.
Qed.

Lemma Tidy_weaken (lo n m : nat) (w : World) : n <= m -> Tidy lo n w -> Tidy lo m w.
Proof.
  intros Hle [H1 H2 H3 H4 H5 H6 H7]. constructor; try done. lia.
Qed.

Lemma Tidy_Grows (lo n : nat) (w w' : World) : Tidy lo n w -> Grows w w' -> Tidy lo n w'.
Proof.
  intros [H1 H2 H3 H4 H5 H6 H7]
         [G1 G2 G3 [lt [T [F [S N]]]] [ll [L [D [R B]]]]].
  constructor.
  - intros t Hin Hac. rewrite T in Hin. apply List.in_app_or in Hin.
    destruct Hin as [Hin | Hin].
    + rewrite G2. by apply H1.
    + rewrite Forall_forall in F. apply list_elem_of_In in Hin.
      specialize (F t Hin). congruence.
  - rewrite T, List.map_app, S. apply NoDup_app. split; [done |].
    split; [| apply NoDup_seq].
    intros x Hx Hx'. apply elem_of_seq in Hx'.
    apply list_elem_of_In, List.in_map_iff in Hx. destruct Hx as [t [<- Ht]].
    rewrite Forall_forall in H3. apply list_elem_of_In in Ht. specialize (H3 t Ht).
    simpl in H3. lia.
  - rewrite T. apply Forall_app. split.
    + eapply Forall_impl; [exact H3 |]. simpl. intros t Ht. lia.
    + apply Forall_forall. intros t Ht.
      assert (tid t ∈ seq (nextTimer w) (length lt)) as Hs.
      { rewrite <- S. apply list_elem_of_In, List.in_map. by apply list_elem_of_In. }
      apply elem_of_seq in Hs. lia.
  - rewrite L, defaultSubmits_app, G1. lia.
  - rewrite L, renderedNodes_app. apply NoDup_app. split; [done |]. split; [| done].
    intros x Hx Hx'.
    rewrite Forall_forall in H7. rewrite Forall_forall in B.
    specialize (H7 x Hx). specialize (B x Hx'). simpl in H7, B. lia.
  - lia.
  - rewrite L, renderedNodes_app. apply Forall_app. split.
    + eapply Forall_impl; [exact H7 |]. simpl. intros x Hx. lia.
    + eapply Forall_impl; [exact B |]. simpl. intros x Hx. lia.
Qed.

Lemma Tidy_frame (lo n : nat) (w w' : World) :
  allowSubmit w' = allowSubmit w ->
  resizeTimer w' = resizeTimer w ->
  nextNode w' = nextNode w ->
  timers w' = timers w ->
  nextTimer w' = nextTimer w ->
  log w' = log w ->
  Tidy lo n w -> Tidy lo n w'.
Proof.
  intros A B C D E F HT. apply (Tidy_Grows lo n w); [done |]. by apply Grows_frame.
Qed.

(** Taking timers off the list of pending ones. *)
Lemma Tidy_unschedule (lo n : nat) (p : Timer -> bool) (w : World) :
  Tidy lo n w -> Tidy lo n (set_timers (List.filter p (timers w)) w).
Proof.
  intros [H1 H2 H3 H4 H5 H6 H7]. constructor; world_proj; try done.
  - intros t Hin. apply List.filter_In in Hin. apply H1. tauto.
  - by apply NoDup_map_filter.
  - apply Forall_forall. intros t Ht. rewrite Forall_forall in H3. apply H3.
    apply list_elem_of_In. apply list_elem_of_In, List.filter_In in Ht. tauto.
Qed.

Lemma Tidy_onResize (lo n : nat) (w : World) : Tidy lo n w -> Tidy lo n (onResize w).
Proof.
  intros HT. unfold onResize, clearTimeout.
  set (w0 := match resizeTimer w with
             | Some i => set_timers (List.filter (fun t => negb (Nat.eqb (tid t) i)) (timers w)) w
             | None => w
             end).
  assert (HT0 : Tidy lo n w0).
  { subst w0. destruct (resizeTimer w); [by apply Tidy_unschedule | done]. }
  assert (Hno : forall t, In t (timers w0) -> isApplyCompact t = false).
  { intros t Hin. destruct (isApplyCompact t) eqn:Hac; [| done]. exfalso.
    subst w0. destruct (resizeTimer w) as [i |] eqn:Hr.
    - cbn in Hin. apply List.filter_In in Hin. destruct Hin as [Hin Hne].
      destruct (t_resize lo n w HT t Hin Hac) as [Hi _]. rewrite Hr in Hi.
      injection Hi as ->. by rewrite Nat.eqb_refl in Hne.
    - destruct (t_resize lo n w HT t Hin Hac) as [Hi _]. congruence. }
  assert (Hw0 : allowSubmit w0 = allowSubmit w /\ log w0 = log w /\ nextNode w0 = nextNode w
                /\ nextTimer w0 = nextTimer w).
  { subst w0. by destruct (resizeTimer w). }
  destruct Hw0 as [Ha [Hl [Hn Hnt]]].
  destruct HT0 as [H1 H2 H3 H4 H5 H6 H7].
  unfold setTimeout. cbv zeta. world_proj.
  constructor; world_proj.
  - intros t Hin Hac. apply List.in_app_or in Hin. destruct Hin as [Hin | [<- | []]].
    + specialize (Hno t Hin). congruence.
    + done.
  - rewrite List.map_app. apply NoDup_app. split; [done |].
    split; [| apply NoDup_singleton].
    intros x Hx Hx'. apply list_elem_of_singleton in Hx'. subst x.
    apply list_elem_of_In, List.in_map_iff in Hx. destruct Hx as [t [Ht Hin]].
    rewrite Forall_forall in H3. apply list_elem_of_In in Hin. specialize (H3 t Hin).
    simpl in H3. cbn [tid] in Ht. lia.
  - apply Forall_app. split.
    + eapply Forall_impl; [exact H3 |]. simpl. intros t Ht. lia.
    + constructor; [cbn; lia | constructor].
  - rewrite <- app_assoc, defaultSubmits_app. cbn. lia.
  - rewrite <- app_assoc, renderedNodes_app. cbn. by rewrite app_nil_r.
  - done.
  - rewrite <- app_assoc, renderedNodes_app. cbn. by rewrite app_nil_r.
Qed.

Lemma Tidy_onRecaptchaSuccess (lo n : nat) (token : string) (w : World) :
  Tidy lo n w -> Tidy lo (S n) (onRecaptchaSuccess token w).
Proof.
  intros HT. unfold onRecaptchaSuccess.
  destruct (contactForm w); [| apply (Tidy_weaken lo n); [lia | done]].
  destruct HT as [H1 H2 H3 H4 H5 H6 H7]. constructor; world_proj; try done.
  - rewrite defaultSubmits_app. cbn. destruct (allowSubmit w); lia.
  - rewrite renderedNodes_app. cbn. by rewrite app_nil_r.
  - rewrite renderedNodes_app. cbn. by rewrite app_nil_r.
Qed.

(** A submit event that finds the flag set is let through and uses the
    flag up. *)
Lemma Tidy_default_submit (lo n : nat) (w : World) :
  allowSubmit w = true -> Tidy lo n w -> Tidy lo n (emit EDefaultSubmit (set_allowSubmit false w)).
Proof.
  intros Hflag [H1 H2 H3 H4 H5 H6 H7]. rewrite Hflag in H4.
  constructor; world_proj; try done.
  - rewrite defaultSubmits_app. cbn. lia.
  - rewrite renderedNodes_app. cbn. by rewrite app_nil_r.
  - rewrite renderedNodes_app. cbn. by rewrite app_nil_r.
Qed.

Lemma Tidy_step (lo n fuel : nat) (ev : Event) (s s' : State) :
  Tidy lo n (world s) -> step fuel ev s = Some s' ->
  Tidy lo (n + (if isSolve ev then 1 else 0)) (world s').
Proof.
  intros HT H.
  assert (Hw : forall m, Tidy lo n m -> Tidy lo (n + 0) m)
    by (intros m; apply Tidy_weaken; lia).
  destruct ev; simpl in H; cbn [isSolve].
  - destruct (applyCompact fuel s) as [s1 | |] eqn:H1; [| done | done].
    injection H as <-. apply Hw, (Tidy_Grows lo n (world s)); [done |].
    by apply (Grows_applyCompact fuel).
  - injection H as <-. apply Hw. cbn [world upd set_world].
    apply Tidy_onResize. revert HT. by apply Tidy_frame.
  - destruct (List.find _ (timers (world s))) as [t |] eqn:Hf; [| injection H as <-; by apply Hw].
    assert (HT1 : Tidy lo n (set_timers
                               (List.filter (fun x => negb (Nat.eqb (tid x) id))
                                            (timers (world s))) (world s)))
      by (by apply Tidy_unschedule).
    destruct (body t) as [r e c | c |] eqn:Hb; simpl in H.
    + destruct (attemptRender _ _ _) as [s1 | |] eqn:H1; [| done | done].
      injection H as <-. apply Hw.
      eapply Tidy_Grows; [| exact (Grows_attemptRender _ _ _ _ H1)].
      cbn [world upd set_world]. unfold clearScheduled. revert HT1. by apply Tidy_frame.
    + injection H as <-. apply Hw. cbn [world upd set_world].
      eapply Tidy_Grows; [exact HT1 |]. by apply Grows_emit.
    + destruct (applyCompact _ _) as [s1 | |] eqn:H1; [| done | done].
      injection H as <-. apply Hw.
      eapply Tidy_Grows; [| exact (Grows_applyCompact _ _ _ H1)]. exact HT1.
  - injection H as <-. apply Hw. revert HT. by apply Tidy_frame.
  - unfold onRecaptchaApiLoaded in H. apply Hw.
    eapply Tidy_Grows; [| exact (Grows_drain _ _ _ _ H)]. exact HT.
  - apply Hw. destruct (allowSubmit (world s)) eqn:Hflag.
    + rewrite (onSubmitForm_preapproved _ _ _ Hflag) in H. injection H as <-.
      cbn [world upd set_world]. by apply Tidy_default_submit.
    + destruct (onSubmitForm fuel true s) as [[r s1] | |] eqn:H1; [| done | done].
      destruct (Grows_onSubmitForm _ _ _ _ _ Hflag H1) as [-> HG].
      injection H as <-. by apply (Tidy_Grows lo n (world s)).
  - injection H as <-. replace (n + 1) with (S n) by lia.
    by apply Tidy_onRecaptchaSuccess.
  - injection H as <-. apply Hw. eapply Tidy_Grows; [exact HT |].
    apply Grows_onRecaptchaExpired.
  - injection H as <-. apply Hw. eapply Tidy_Grows; [exact HT |].
    apply Grows_onRecaptchaError.
Qed.

Lemma Tidy_run (lo fuel : nat) (evs : list Event) :
  forall (n : nat) (s s' : State),
    Tidy lo n (world s) -> run fuel evs s = Some s' -> Tidy lo (n + solves evs) (world s').
Proof.
  induction evs as [| ev rest IH]; intros n s s' HT H; simpl in H.
  - injection H as <-. apply (Tidy_weaken lo n); [lia | done].
  - destruct (step fuel ev s) as [s1 |] eqn:H1; [| done].
    pose proof (Tidy_step lo n fuel ev s s1 HT H1) as HT1.
    specialize (IH _ s1 s' HT1 H).
    unfold solves in *. cbn [List.filter]. destruct (isSolve ev); cbn [length].
    + replace (n + S (length (List.filter isSolve rest)))
        with (n + 1 + length (List.filter isSolve rest)) by lia. exact IH.
    + replace (n + 0 + length (List.filter isSolve rest))
        with (n + length (List.filter isSolve rest)) in IH by lia. exact IH.
Qed.

Lemma Tidy_justLoaded (s : State) :
  justLoaded s ->
  Tidy (nextNode (world s)) (if allowSubmit (world s) then 1 else 0) (world s).
Proof.
  intros [Hrs [Ht [Hl Hn]]]. constructor; rewrite ?Ht, ?Hl; try done;
    try (by constructor); try (cbn; destruct (allowSubmit (world s)); lia).
Qed.

(** X3. The resize handler debounces: in every state the event loop reaches from
    a freshly loaded page at most one timeout that runs [applyCompact] is
    pending, it is the one [resizeTimer] names, and its delay is
    [DEBOUNCE_MS]. *)
Theorem resize_debounce_single_timer :
  forall (fuel : nat) (evs : list Event) (s0 s : State),
    justLoaded s0 ->
    run fuel evs s0 = Some s ->
    length (pendingResizes (world s)) <= 1
    /\ Forall (fun t => resizeTimer (world s) = Some (tid t) /\ delay t = DEBOUNCE_MS)
              (pendingResizes (world s)).
Proof.
  intros fuel evs s0 s HJ Hrun.
  pose proof (Tidy_run _ fuel evs _ s0 s (Tidy_justLoaded s0 HJ) Hrun) as HT.
  assert (HF : Forall (fun t => resizeTimer (world s) = Some (tid t) /\ delay t = DEBOUNCE_MS)
                      (pendingResizes (world s))).
  { apply Forall_forall. intros t Ht. apply list_elem_of_In, List.filter_In in Ht.
    destruct Ht as [Hin Hac]. by apply (t_resize _ _ _ HT). }
  split; [| exact HF].
  pose proof (NoDup_map_filter tid isApplyCompact _ (t_ids _ _ _ HT)) as Hnd.
  fold (pendingResizes (world s)) in Hnd.
  destruct (pendingResizes (world s)) as [| a [| b rest]]; [simpl; lia | simpl; lia |].
  exfalso. apply Forall_cons in HF. destruct HF as [[Ha _] HF].
  apply Forall_cons in HF. destruct HF as [[Hb _] _].
  simpl in Hnd. apply NoDup_cons in Hnd. destruct Hnd as [Hnd _].
  apply Hnd. rewrite Ha in Hb. injection Hb as ->. by left.
Qed.

(** X4. The submit gate of recaptcha-display.js lets through at most one submit
    event per call of the solved callback: along every run from a freshly
    loaded page, the number of submit events the handler returned [true]
    for, plus one if the flag is still up, never exceeds the number of
    solved callbacks. *)
Theorem default_submits_bounded_by_solves :
  forall (fuel : nat) (evs : list Event) (s0 s : State),
    justLoaded s0 ->
    allowSubmit (world s0) = false ->
    run fuel evs s0 = Some s ->
    defaultSubmits (log (world s)) + (if allowSubmit (world s) then 1 else 0) <= solves evs.
Proof.
  intros fuel evs s0 s HJ Hflag Hrun.
  pose proof (Tidy_run _ fuel evs _ s0 s (Tidy_justLoaded s0 HJ) Hrun) as HT.
  rewrite Hflag in HT. exact (t_budget _ _ _ HT).
Qed.

(** X5. [grecaptcha.render] is never called twice on a node, and never on a node
    of the page as loaded: along every run from a freshly loaded page the
    nodes handed to it are pairwise distinct and were all created by the
    script. *)
Theorem render_targets_are_fresh_nodes :
  forall (fuel : nat) (evs : list Event) (s0 s : State),
    justLoaded s0 ->
    run fuel evs s0 = Some s ->
    NoDup (renderedNodes (log (world s)))
    /\ Forall (fun n => nextNode (world s0) <= n < nextNode (world s))
              (renderedNodes (log (world s))).
Proof.
  intros fuel evs s0 s HJ Hrun.
  pose proof (Tidy_run _ fuel evs _ s0 s (Tidy_justLoaded s0 HJ) Hrun) as HT.
  split; [exact (t_fresh _ _ _ HT) | exact (t_nodes _ _ _ HT)].
Qed.

End TidyFacts.

(** *** Attributes carried over to a replacement node *)

Section AttributeFacts.
Import Dom ReadyQueue Display DisplaySpec.

Lemma getAttribute_setAttribute_same (n v : string) (a : Attrs) :
  getAttribute n (setAttribute n v a) = Some v.
Proof.
  induction a as [| [k x] rest IH]; simpl.
  - by rewrite String.eqb_refl.
  - destruct (String.eqb_spec k n) as [-> | Hkn]; simpl.
    + by rewrite String.eqb_refl.
    + destruct (String.eqb_spec k n); [done | exact IH].
Qed.

Lemma getAttribute_removeAttribute_same (n : string) (a : Attrs) :
  getAttribute n (removeAttribute n a) = None.
Proof.
  induction a as [| [k x] rest IH]; simpl; [done |].
  destruct (String.eqb_spec k n) as [-> | Hkn]; simpl; [exact IH |].
  destruct (String.eqb_spec k n); [done | exact IH].
Qed.

Lemma getAttribute_removeAttribute_other (n m : string) (a : Attrs) :
  n <> m -> getAttribute n (removeAttribute m a) = getAttribute n a.
Proof.
  intros Hne. induction a as [| [k x] rest IH]; simpl; [done |].
  destruct (String.eqb_spec k m) as [-> | Hkm]; simpl.
  - destruct (String.eqb_spec m n); [congruence | exact IH].
  - destruct (String.eqb_spec k n); [done | exact IH].
Qed.

Lemma getAttribute_absent (n : string) (a : Attrs) :
  ~ In n (List.map fst a) -> getAttribute n a = None.
Proof.
  induction a as [| [k x] rest IH]; simpl; [done |]. intros Hn.
  destruct (String.eqb_spec k n) as [-> | Hkn]; [tauto |]. apply IH. tauto.
Qed.

Lemma copyDataAttributes_get (src : Attrs) :
  forall (dest : Attrs) (n : string),
    NoDup (List.map fst src) ->
    getAttribute n (copyDataAttributes src dest)
    = if String.prefix "data-" n
      then match getAttribute n src with
           | Some v => Some v
           | None => getAttribute n dest
           end
      else getAttribute n dest.
Proof.
  unfold copyDataAttributes.
  induction src as [| [k x] rest IH]; intros dest n Hnd.
  - simpl. by destruct (String.prefix "data-" n).
  - cbn [List.map fst] in Hnd. apply NoDup_cons in Hnd. destruct Hnd as [Hk Hnd].
    cbn [fold_left fst snd]. rewrite IH by done. cbn [getAttribute].
    destruct (String.eqb_spec k n) as [-> | Hkn].
    + assert (getAttribute n rest = None) as ->
          by (apply getAttribute_absent; intros Hin; apply Hk; by apply list_elem_of_In).
      destruct (String.prefix "data-" n); [| done].
      apply getAttribute_setAttribute_same.
    + destruct (String.prefix "data-" n); [| destruct (String.prefix "data-" k); [| done];
                                              by apply getAttribute_setAttribute_other].
      destruct (getAttribute n rest); [done |].
      destruct (String.prefix "data-" k); [| done].
      apply getAttribute_setAttribute_other. congruence.
Qed.

(** X1. [copyDataAttributes] copies exactly the [data-*] attributes: on an element
    whose attribute names are distinct, an attribute of the destination
    whose name starts with [data-] has the value it has on the source when
    the source has it, and every other attribute of the destination is as
    it was. *)
Theorem copy_data_attributes_exact :
  forall (src dest : Attrs) (n : string),
    NoDup (List.map fst src) ->
    getAttribute n (copyDataAttributes src dest)
    = if String.prefix "data-" n
      then match getAttribute n src with
           | Some v => Some v
           | None => getAttribute n dest
           end
      else getAttribute n dest.
Proof. intros src dest n. apply copyDataAttributes_get. Qed.

Lemma NoDup_sample_attrs :
  NoDup (List.map fst [("id", "captcha"); ("data-sitekey", "SITEKEY"); ("data-theme", "dark")]).
Proof.
  apply NoDup_cons_2.
  { intros H. apply list_elem_of_In in H. destruct H as [H | [H | []]]; discriminate H. }
  apply NoDup_cons_2; [| apply NoDup_singleton].
  intros H. apply list_elem_of_singleton in H. discriminate H.
Qed.

Lemma copy_data_attributes_exact_witness :
  getAttribute "data-theme"
    (copyDataAttributes [("id", "captcha"); ("data-sitekey", "SITEKEY"); ("data-theme", "dark")]
                        [("data-theme", "light")])
  = Some "dark".
Proof.
  apply (copy_data_attributes_exact
           [("id", "captcha"); ("data-sitekey", "SITEKEY"); ("data-theme", "dark")]
           [("data-theme", "light")] "data-theme").
  apply NoDup_sample_attrs.
Defined.

End AttributeFacts.

(** *** The render path, call by call *)

Section RenderPathFacts.
Import Dom ReadyQueue Display DisplaySpec LoopSpec.


(** Replacing the first placeholder of a list by a node that is a
    placeholder too: the new node is the first placeholder. *)
Lemma find_replaceChild (p : Element -> bool) (newEl cur : Element) (l : list Element) :
  List.find p l = Some cur -> p newEl = true ->
  List.find p (replaceChild newEl (eid cur) l) = Some newEl.
Proof.
  intros Hf Hn. induction l as [| x rest IH]; simpl in *; [done |].
  destruct (Nat.eqb_spec (eid x) (eid cur)) as [He | He]; simpl.
  - by rewrite Hn.
  - destruct (p x) eqn:Hp; [| by apply IH].
    injection Hf as ->. done.
Qed.

Lemma lookupContainer_cid (c : nat) (w : World) (k : Container) :
  lookupContainer c w = Some k -> cid k = c.
Proof.
  unfold lookupContainer. intros H. apply List.find_some in H.
  destruct H as [_ H]. by apply Nat.eqb_eq.
Qed.

Lemma stamped_size (size : option string) (old : Attrs) :
  getAttribute "data-size" (stamped size old) = orNull size
  /\ getAttribute "data-recaptcha-rendered-size" (stamped size old) = Some (orEmpty size).
Proof.
  unfold stamped, orNull. destruct (truthy size) eqn:Ht.
  - split.
    + rewrite getAttribute_setAttribute_other by done.
      rewrite getAttribute_setAttribute_same. by destruct size.
    + apply getAttribute_setAttribute_same.
  - split.
    + rewrite getAttribute_setAttribute_other by done.
      apply getAttribute_removeAttribute_same.
    + rewrite getAttribute_setAttribute_same. destruct size as [v |]; [| done].
      simpl in Ht. apply negb_false_iff, String.eqb_eq in Ht. by subst.
Qed.

Lemma stamped_other (size : option string) (old : Attrs) (n : string) :
  NoDup (List.map fst old) ->
  n <> "data-size" -> n <> "data-recaptcha-rendered-size" ->
  getAttribute n (stamped size old)
  = if String.prefix "data-" n then getAttribute n old else None.
Proof.
  intros Hnd H1 H2. unfold stamped.
  assert (getAttribute n (copyDataAttributes old [])
          = if String.prefix "data-" n then getAttribute n old else None) as Hc.
  { rewrite copyDataAttributes_get by done. simpl.
    destruct (String.prefix "data-" n); [| done]. by destruct (getAttribute n old). }
  destruct (truthy size).
  - by rewrite !getAttribute_setAttribute_other.
  - rewrite getAttribute_setAttribute_other by done.
    by rewrite getAttribute_removeAttribute_other.
Qed.

Lemma desiredSize_orNull (w : World) : orNull (desiredSize w) = desiredSize w.
Proof. unfold desiredSize. by destruct (_ <? _)%Z. Qed.


(** X2. A render attempt that succeeds.  The container exists, its first
    placeholder carries no widget id, the API is present and this call of
    [grecaptcha.render] returns [wid].  Then [attemptRender] returns; the
    container's placeholder is a new node with the classes of the old one,
    its [data-sitekey], the desired size in [data-size] and
    [data-recaptcha-rendered-size], and [String(wid)] as widget id; the
    inline error is gone; exactly one [replaceChild] and one render call
    are logged, the latter with the old node's site key and theme and the
    desired size; no timer is armed and nothing is queued. *)
Theorem render_success_binds_widget :
  forall (fuel c : nat) (s : State) (k : Container) (cur : Element)
         (rf : nat -> option nat) (rs : bool) (gr : option (nat -> string)) (wid : nat),
    lookupContainer c (world s) = Some k ->
    parentOf (eid cur) (world s) = Some k ->
    queryPlaceholder k = Some cur ->
    truthy (getAttribute "data-recaptcha-widget-id" (attrs cur)) = false ->
    grecaptcha (world s) = Some (mkGrecaptcha (Some rf) rs gr) ->
    rf (renderCalls (world s)) = Some wid ->
    NoDup (List.map fst (attrs cur)) ->
    let size := desiredSize (world s) in
    let n := nextNode (world s) in
    exists (s' : State) (k' : Container) (e' : Element),
      attemptRender (S fuel) (Some c) s = Returned s'
      /\ lookupContainer c (world s') = Some k'
      /\ errorBox k' = None
      /\ queryPlaceholder k' = Some e'
      /\ eid e' = n
      /\ classes e' = classes cur
      /\ getAttribute "data-recaptcha-widget-id" (attrs e') = Some (pretty wid)
      /\ getAttribute "data-size" (attrs e') = size
      /\ getAttribute "data-recaptcha-rendered-size" (attrs e') = Some (orEmpty size)
      /\ getAttribute "data-sitekey" (attrs e') = getAttribute "data-sitekey" (attrs cur)
      /\ log (world s')
         = log (world s)
           ++ [EReplaceChild n (eid cur);
               ERender n (mkOpts (getAttribute "data-sitekey" (attrs cur))
                                 (orNull (getAttribute "data-theme" (attrs cur)))
                                 size)]
      /\ renderCalls (world s') = S (renderCalls (world s))
      /\ timers (world s') = timers (world s)
      /\ grecaptchaReadyQueue s' = grecaptchaReadyQueue s.
Proof.
  intros fuel c s k cur rf rs gr wid Hk Hpar Hq Hwid Hg Hrf Hnd size n.
  pose proof (lookupContainer_cid _ _ _ Hk) as Hcid.
  assert (Hcls : hasClass "g-recaptcha" (classes cur) = true).
  { unfold queryPlaceholder in Hq. apply List.find_some in Hq. tauto. }
  set (w1 := clearInlineError (Some c) (world s)).
  assert (Hcur1 : currentPlaceholder c w1 = Some cur).
  { subst w1. rewrite currentPlaceholder_clearInlineError.
    unfold currentPlaceholder. by rewrite Hk. }
  assert (Hpar1 : parentOf (eid cur) w1 = Some (set_errorBox None k)).
  { subst w1. unfold clearInlineError. rewrite parentOf_updContainer by done.
    rewrite Hpar. simpl. by rewrite Hcid, Nat.eqb_refl. }
  assert (Hk1 : lookupContainer c w1 = Some (set_errorBox None k)).
  { subst w1. unfold clearInlineError. rewrite lookupContainer_updContainer by done.
    rewrite Hk. simpl. by rewrite Hcid, Nat.eqb_refl. }
  assert (Hg1 : grecaptcha w1 = Some (mkGrecaptcha (Some rf) rs gr))
    by (subst w1; by rewrite grecaptcha_clearInlineError).
  assert (Hfr : renderCalls w1 = renderCalls (world s) /\ nextNode w1 = nextNode (world s)
                /\ log w1 = log (world s) /\ timers w1 = timers (world s)
                /\ desiredSize w1 = size).
  { subst w1. by cbn. }
  destruct Hfr as [Hrc1 [Hnn1 [Hlog1 [Htm1 Hsz1]]]].
  set (newEl := mkElement n (classes cur) (stamped size (attrs cur))).
  set (newEl' := mkElement n (classes cur)
                   (setAttribute "data-recaptcha-widget-id" (pretty wid) (attrs newEl))).
  assert (Hclasses : match classes cur with [] => ["g-recaptcha"] | cls => cls end = classes cur).
  { destruct (classes cur); [done | done]. }
  (* the call of replaceAndMaybeRender *)
  assert (Hrep : exists w4,
             replaceAndMaybeRender cur (desiredSize w1) w1 = (Some (mkRes newEl' (Some wid) false), w4)
             /\ lookupContainer c w4
                = Some (set_children
                          (List.map (fun x => if Nat.eqb (eid x) n
                                              then mkElement (eid x) (classes x)
                                                     (setAttribute "data-recaptcha-widget-id"
                                                        (pretty wid) (attrs x))
                                              else x)
                                    (replaceChild newEl (eid cur) (children k)))
                          (set_errorBox None k))
             /\ log w4 = log (world s) ++ [EReplaceChild n (eid cur);
                                          ERender n (buildRenderOptions newEl size)]
             /\ renderCalls w4 = S (renderCalls (world s))
             /\ timers w4 = timers (world s)).
  { unfold replaceAndMaybeRender. rewrite Hpar1. cbv zeta. world_proj.
    rewrite Hg1, Hrc1, Hrf, Hnn1, Hsz1, Hclasses. fold n. cbn [eid classes attrs cid set_errorBox].
    fold (stamped size (attrs cur)). fold newEl.
    eexists. split; [reflexivity |].
    split.
    { unfold setLiveAttribute, lookupContainer in *. world_proj.
      rewrite !find_map_cid; try (intros k0; by destruct (Nat.eqb (cid k0) (cid k))).
      rewrite Hk1. cbn [option_map cid set_errorBox set_children children].
      rewrite !Nat.eqb_refl. by cbn [cid set_children set_errorBox children]. }
    unfold setLiveAttribute. world_proj. rewrite Hlog1, Htm1.
    split; [by rewrite <- app_assoc | done]. }
  destruct Hrep as [w4 [Hrep [Hk4 [Hlog4 [Hrc4 Htm4]]]]].
  eexists _, _, newEl'.
  split.
  { rewrite attemptRender_unfold, Hk. cbv zeta. cbn [world upd set_world]. fold w1.
    rewrite Hcur1, Hwid. cbn [andb].
    assert (renderAvailable (grecaptcha w1) = true) as -> by (by rewrite Hg1).
    rewrite Hrep. reflexivity. }
  cbn [world set_world grecaptchaReadyQueue upd].
  split.
  { unfold clearInlineError, lookupContainer in *. world_proj.
    rewrite find_map_cid; [| intros k0; by destruct (Nat.eqb (cid k0) c)].
    rewrite Hk4. cbn [option_map cid set_children set_errorBox].
    rewrite Hcid, Nat.eqb_refl. reflexivity. }
  split; [done |].
  split.
  { unfold queryPlaceholder. cbn [children set_errorBox set_children].
    rewrite find_map_same.
    2: { intros x. by destruct (Nat.eqb (eid x) n). }
    rewrite (find_replaceChild _ newEl cur); [| exact Hq | exact Hcls].
    cbn [option_map eid newEl]. subst newEl. cbn [eid]. by rewrite Nat.eqb_refl. }
  split; [done |]. split; [done |].
  destruct (stamped_size size (attrs cur)) as [Hs1 Hs2].
  split; [apply getAttribute_setAttribute_same |].
  split.
  { cbn [attrs newEl' newEl]. rewrite getAttribute_setAttribute_other by done.
    rewrite Hs1. apply desiredSize_orNull. }
  split.
  { cbn [attrs newEl' newEl]. by rewrite getAttribute_setAttribute_other. }
  assert (Hsk : getAttribute "data-sitekey" (stamped size (attrs cur))
                = getAttribute "data-sitekey" (attrs cur)).
  { by rewrite stamped_other. }
  split.
  { cbn [attrs newEl' newEl]. by rewrite getAttribute_setAttribute_other. }
  split.
  { unfold clearInlineError. world_proj. rewrite Hlog4. unfold buildRenderOptions.
    cbn [attrs newEl]. rewrite Hsk, (stamped_other size (attrs cur) "data-theme") by done.
    cbn [String.prefix]. unfold size. by rewrite desiredSize_orNull. }
  split; [| split].
  - unfold clearInlineError. world_proj. exact Hrc4.
  - unfold clearInlineError. world_proj. exact Htm4.
  - done.
Qed.

(** X8. When the onload hook has run although [grecaptcha.render] is not a
    function, a render attempt on a container that has a placeholder never
    returns: [whenGrecaptchaReady] runs the closure at once, and the
    closure is the same attempt again, whatever the depth allowed. *)
Theorem ready_flag_without_api_never_returns :
  forall (fuel c : nat) (s : State) (e : Element),
    grecaptchaReady s = true ->
    renderAvailable (grecaptcha (world s)) = false ->
    currentPlaceholder c (world s) = Some e ->
    attemptRender fuel (Some c) s = Exhausted.
Proof.
  induction fuel as [| fuel IH]; intros c s e Hr Hav Hcur; [done |].
  rewrite attemptRender_unfold.
  destruct (currentPlaceholder_lookup _ _ _ Hcur) as [k Hk]. rewrite Hk.
  cbv zeta. cbn [world upd set_world].
  rewrite currentPlaceholder_clearInlineError, Hcur.
  rewrite grecaptcha_clearInlineError, Hav, andb_false_r.
  unfold whenGrecaptchaReady. cbn [grecaptchaReady upd set_world]. rewrite Hr.
  rewrite (IH c _ e); [done | done | |].
  - cbn [world upd set_world]. by rewrite grecaptcha_clearInlineError.
  - cbn [world upd set_world]. by rewrite currentPlaceholder_clearInlineError.
Qed.

Lemma ready_flag_without_api_never_returns_witness :
  attemptRender 1000 (Some 0) (set_ready true (Scenario.page None 500)) = Exhausted.
Proof.
  apply (ready_flag_without_api_never_returns 1000 0 (set_ready true (Scenario.page None 500))
           Scenario.placeholder); reflexivity.
Defined.

End RenderPathFacts.

(** *** The widget's error and expiry callbacks *)

Section CallbackFacts.
Import Dom ReadyQueue Display DisplaySpec LoopSpec.

Lemma set_containers_same (w : World) : set_containers (containers w) w = w.
Proof. by destruct w. Qed.

Lemma showInlineError_twice (o : option nat) (t t' : string) (w : World) :
  showInlineError o t (showInlineError o t' w) = showInlineError o t w.
Proof.
  destruct o as [c |]; [| done].
  unfold showInlineError, updContainer, set_containers. cbn [containers allowSubmit retryState
    heap nextRef resizeTimer innerWidth grecaptcha renderCalls contactForm nextNode timers
    nextTimer log].
  f_equal. rewrite List.map_map. apply List.map_ext. intros k.
  destruct (Nat.eqb (cid k) c) eqn:E; [| by rewrite E].
  cbn [cid set_errorBox]. by rewrite E.
Qed.

(** In a state whose containers are those left by [showInlineError], the
    same call changes nothing. *)
Lemma showInlineError_absorb (o : option nat) (t : string) (w w0 : World) :
  containers w = containers (showInlineError o t w0) ->
  showInlineError o t w = w.
Proof.
  intros H. destruct o as [c |]; [| done].
  transitivity (set_containers (containers (showInlineError (Some c) t (showInlineError (Some c) t w0))) w).
  - unfold showInlineError at 1. unfold updContainer. rewrite H. reflexivity.
  - rewrite showInlineError_twice, <- H. apply set_containers_same.
Qed.

Lemma formTarget_frame (w w' : World) (g : Container -> Container) :
  (forall k, cid (g k) = cid k) -> (forall k, inForm (g k) = inForm k) ->
  contactForm w' = contactForm w ->
  containers w' = List.map g (containers w) ->
  formTarget w' = formTarget w.
Proof.
  intros Hc Hi Hf Hk. unfold formTarget, formContainer. rewrite Hf, Hk.
  destruct (contactForm w); [| done].
  rewrite find_map_same by done.
  destruct (List.find inForm (containers w)); [| done]. simpl. by rewrite Hc.
Qed.

Lemma formTarget_showInlineError (o : option nat) (t : string) (w : World) :
  formTarget (showInlineError o t w) = formTarget w.
Proof.
  destruct o as [c |]; [| done].
  apply (formTarget_frame _ _ (fun k => if Nat.eqb (cid k) c then set_errorBox (Some t) k else k));
    try done; intros k; by destruct (Nat.eqb (cid k) c).
Qed.

Lemma currentPlaceholder_showInlineError (c : nat) (o : option nat) (t : string) (w : World) :
  currentPlaceholder c (showInlineError o t w) = currentPlaceholder c w.
Proof.
  destruct o as [c' |]; [| done]. by apply currentPlaceholder_updContainer.
Qed.

Lemma currentPlaceholder_containers (c : nat) (w w' : World) :
  containers w' = containers w -> currentPlaceholder c w' = currentPlaceholder c w.
Proof. intros H. unfold currentPlaceholder, lookupContainer. by rewrite H. Qed.

Lemma formTarget_containers (w w' : World) :
  contactForm w' = contactForm w -> containers w' = containers w ->
  formTarget w' = formTarget w.
Proof. intros H1 H2. unfold formTarget, formContainer. by rewrite H1, H2. Qed.

Lemma onRecaptchaError_eq (w : World) :
  onRecaptchaError w
  = scheduleRenderAttempt (formTarget w)
      (showInlineError (formTarget w) "reCAPTCHA error occurred. Please try again." w).
Proof. reflexivity. Qed.

(** X6. The error callback does not pile up: called a second time with nothing
    in between, it leaves the state as the first call left it (one message,
    at most one retry timer). *)
Theorem error_callback_idempotent :
  forall (w : World), onRecaptchaError (onRecaptchaError w) = onRecaptchaError w.
Proof.
  intros w. rewrite (onRecaptchaError_eq w).
  set (o := formTarget w).
  set (w0 := showInlineError o "reCAPTCHA error occurred. Please try again." w).
  assert (Ho0 : formTarget w0 = o) by apply formTarget_showInlineError.
  assert (Hs0 : showInlineError o "reCAPTCHA error occurred. Please try again." w0 = w0)
    by apply showInlineError_twice.
  (* the second call, once its target and its message are known to be the same *)
  assert (Hsecond : forall w1,
             contactForm w1 = contactForm w0 ->
             (exists g, (forall k, cid (g k) = cid k) /\ (forall k, inForm (g k) = inForm k)
                        /\ containers w1 = List.map g (containers w0)) ->
             onRecaptchaError w1
             = scheduleRenderAttempt o
                 (showInlineError o "reCAPTCHA error occurred. Please try again." w1)).
  { intros w1 Hf [g [Hg1 [Hg2 Hg3]]]. rewrite onRecaptchaError_eq.
    by rewrite (formTarget_frame w0 w1 g), Ho0. }
  rewrite scheduleRenderAttempt_unfold.
  destruct o as [c |] eqn:Eo.
  2: { rewrite Hsecond; [| done | exists id; by rewrite List.map_id].
       by rewrite Hs0. }
  destruct (currentPlaceholder c w0) as [e |] eqn:Hcur.
  2: { rewrite Hsecond; [| done | exists id; by rewrite List.map_id].
       rewrite Hs0, scheduleRenderAttempt_unfold. by rewrite Hcur. }
  destruct (retryState w0 !! eid e) as [r |] eqn:Hr; cbv zeta.
  - destruct (scheduled (deref r w0)) eqn:Hsch.
    { rewrite Hsecond; [| done | exists id; by rewrite List.map_id].
      rewrite Hs0, scheduleRenderAttempt_unfold, Hcur, Hr. cbv zeta. by rewrite Hsch. }
    destruct (MAX_RENDER_RETRIES <=? attempts (deref r w0))%nat eqn:Hmax.
    + rewrite Hsecond; [| done |].
      2: { exists (fun k => if Nat.eqb (cid k) c
                            then set_errorBox (Some "reCAPTCHA failed to load. Please disable adblockers or check your network/permissions.") k
                            else k).
           split; [intros k; by destruct (Nat.eqb (cid k) c) |].
           split; [intros k; by destruct (Nat.eqb (cid k) c) | done]. }
      change (showInlineError (Some c) "reCAPTCHA error occurred. Please try again."
                (set_retryState (<[eid e:=r]> (retryState w0))
                   (showInlineError (Some c)
                      "reCAPTCHA failed to load. Please disable adblockers or check your network/permissions."
                      w0)))
        with (set_retryState (<[eid e:=r]> (retryState w0))
                (showInlineError (Some c) "reCAPTCHA error occurred. Please try again."
                   (showInlineError (Some c)
                      "reCAPTCHA failed to load. Please disable adblockers or check your network/permissions."
                      w0))).
      rewrite showInlineError_twice, Hs0, insert_id by done.
      replace (set_retryState (retryState w0) w0) with w0 by (by destruct w0).
      rewrite scheduleRenderAttempt_unfold, Hcur, Hr. cbv zeta.
      by rewrite Hsch, Hmax, insert_id.
    + rewrite Hsecond; [| done | exists id; by rewrite List.map_id].
      rewrite (showInlineError_absorb _ _ _ w) by done.
      apply (schedule_noop_when_scheduled c _ e r).
      * by rewrite <- Hcur.
      * world_proj. apply lookup_insert_eq.
      * unfold deref. world_proj. by rewrite lookup_insert_eq.
  - assert (Hd : deref (nextRef w0)
                   (set_nextRef (S (nextRef w0))
                      (set_heap (<[nextRef w0 := mkRetry 0 false]> (heap w0)) w0))
                 = mkRetry 0 false)
      by (unfold deref; world_proj; by rewrite lookup_insert_eq).
    rewrite Hd. cbn [scheduled attempts Nat.leb MAX_RENDER_RETRIES].
    rewrite Hsecond; [| done | exists id; by rewrite List.map_id].
    rewrite (showInlineError_absorb _ _ _ w) by done.
    apply (schedule_noop_when_scheduled c _ e (nextRef w0)).
    + by rewrite <- Hcur.
    + world_proj. apply lookup_insert_eq.
    + unfold deref. world_proj. by rewrite lookup_insert_eq.
Qed.


(** X7. The expiry callback arms no timer, touches neither the retry state nor
    the submit flag, replaces no node and renders nothing.  It shows its
    message in the form's container, and the only call it may make is one
    [grecaptcha.reset] with the widget id of that container's placeholder,
    when the id is non-empty and [reset] is a function. *)
Theorem expired_callback_only_resets :
  forall (w : World),
    let w' := onRecaptchaExpired w in
    timers w' = timers w
    /\ retryState w' = retryState w
    /\ heap w' = heap w
    /\ allowSubmit w' = allowSubmit w
    /\ renderCalls w' = renderCalls w
    /\ nextNode w' = nextNode w
    /\ List.map children (containers w') = List.map children (containers w)
    /\ (forall c k, formTarget w = Some c -> lookupContainer c w' = Some k ->
                    errorBox k = Some "reCAPTCHA expired. Please try again.")
    /\ (log w' = log w
        \/ exists c e wid,
             formTarget w = Some c
             /\ currentPlaceholder c w = Some e
             /\ getAttribute "data-recaptcha-widget-id" (attrs e) = Some wid
             /\ wid <> ""
             /\ resetAvailable (grecaptcha w) = true
             /\ log w' = log w ++ [EReset wid]).
Proof.
  intros w w'. subst w'. unfold onRecaptchaExpired, formTarget.
  destruct (contactForm w) as [form |]; [| repeat split; try done; try (by left)].
  destruct (option_map cid (formContainer w)) as [c |] eqn:Hc;
    [| repeat split; try done; try (by left)].
  set (w1 := showInlineError (Some c) "reCAPTCHA expired. Please try again." w).
  assert (H1 : timers w1 = timers w /\ retryState w1 = retryState w /\ heap w1 = heap w
               /\ allowSubmit w1 = allowSubmit w /\ renderCalls w1 = renderCalls w
               /\ nextNode w1 = nextNode w /\ log w1 = log w
               /\ grecaptcha w1 = grecaptcha w) by done.
  destruct H1 as [A1 [A2 [A3 [A4 [A5 [A6 [A7 A8]]]]]]].
  assert (Hch : List.map children (containers w1) = List.map children (containers w))
    by (by apply children_updContainer).
  assert (Hbox : forall c' k, Some c = Some c' -> lookupContainer c' w1 = Some k ->
                              errorBox k = Some "reCAPTCHA expired. Please try again.").
  { intros c' k [= <-] Hk. subst w1. unfold showInlineError in Hk.
    rewrite lookupContainer_updContainer in Hk by done.
    destruct (lookupContainer c w) as [k0 |] eqn:Hk0; [| done].
    apply lookupContainer_cid in Hk0. simpl in Hk. rewrite Hk0, Nat.eqb_refl in Hk.
    by injection Hk as <-. }
  assert (Hcur : currentPlaceholder c w1 = currentPlaceholder c w)
    by apply currentPlaceholder_showInlineError.
  rewrite Hcur, A8.
  destruct (currentPlaceholder c w) as [e |] eqn:He;
    [| repeat split; try done; try (by left)].
  destruct (getAttribute "data-recaptcha-widget-id" (attrs e)) as [wid |] eqn:Hwid;
    cbn [truthy andb]; [| repeat split; try done; try (by left)].
  destruct (String.eqb_spec wid "") as [-> | Hne]; cbn [negb andb];
    [repeat split; try done; try (by left) |].
  destruct (resetAvailable (grecaptcha w)) eqn:Hrs; [| repeat split; try done; try (by left)].
  repeat split; try done.
  right. exists c, e, wid. by repeat split.
Qed.

End CallbackFacts.

(** *** form.js along its event loop *)

Section FormLoopFacts.
Import Dom FormJs FormSpec FormLoop FormLoopSpec.

Lemma count_app {A} (p : A -> bool) (a b : list A) :
  count p (a ++ b) = count p a + count p b.
Proof. unfold count. by rewrite List.filter_app, List.length_app. Qed.

Lemma sameWidget_refl (s : State) : sameWidget s s.
Proof. by repeat split. Qed.

Lemma sameWidget_trans (a b c : State) : sameWidget a b -> sameWidget b c -> sameWidget a c.
Proof. intros [A1 [A2 A3]] [B1 [B2 B3]]. repeat split; congruence. Qed.

Lemma sameWidget_emit (e : Effect) (s : State) : isRender e = false -> sameWidget s (emit e s).
Proof.
  intros He. repeat split. cbn [log emit]. rewrite count_app. unfold count at 2.
  cbn [List.filter]. rewrite He. simpl. lia.
Qed.

Lemma renderRecaptchaIfNeeded_rendered (s : State) (wid : nat) :
  recaptchaWidgetId s = Some wid -> renderRecaptchaIfNeeded s = s.
Proof. intros H. unfold renderRecaptchaIfNeeded. by rewrite H. Qed.

Lemma showRecaptcha_rendered (s : State) (wid : nat) :
  recaptchaWidgetId s = Some wid -> sameWidget s (showRecaptcha s).
Proof.
  intros H. unfold showRecaptcha. destruct (firstContainer s) as [k |]; [| apply sameWidget_refl].
  destruct (updFirstContainer_frame
              (fun x => set_cclasses
                          (classAdd "recaptcha-visible"
                             (classRemove "recaptcha-hidden" (cclasses x))) x) s)
    as [_ [Hl Hw]].
  rewrite (renderRecaptchaIfNeeded_rendered _ wid) by (by rewrite Hw).
  eapply sameWidget_trans; [| by apply sameWidget_emit].
  repeat split; [done | | by rewrite Hl].
  unfold updFirstContainer. by destruct (containers s).
Qed.

Lemma onSubmitForm_rendered (target : option nat) (s : State) (wid : nat) :
  recaptchaWidgetId s = Some wid -> sameWidget s (snd (onSubmitForm target s)).
Proof.
  intros H. unfold onSubmitForm.
  destruct (match target with Some f => Some f | None => contactForm s end) as [f |];
    [| apply sameWidget_refl].
  destruct (solved s); [apply sameWidget_refl |]. cbn [snd].
  eapply sameWidget_trans; [| by apply (showRecaptcha_rendered _ wid)].
  eapply sameWidget_trans; [by apply (sameWidget_emit EPreventDefault) |].
  by repeat split.
Qed.

Lemma step_rendered (ev : Event) (s : State) (wid : nat) :
  recaptchaWidgetId s = Some wid -> sameWidget s (step ev s).
Proof.
  intros H. destruct ev; cbn [step].
  - by apply (onSubmitForm_rendered _ _ wid).
  - destruct (contactForm s) as [f |]; [| apply sameWidget_refl].
    unfold onSubmitClick. destruct (firstContainer s) as [k |]; [| apply sameWidget_refl].
    destruct (negb _); [| apply sameWidget_refl].
    destruct (response s) as [resp |]; [| apply sameWidget_refl].
    destruct (String.eqb resp ""); [| apply sameWidget_refl].
    eapply sameWidget_trans; [by apply (sameWidget_emit EClickPreventDefault) |].
    eapply sameWidget_trans; [by apply (sameWidget_emit (EScrollIntoView (cid k))) |].
    eapply sameWidget_trans; [by apply (sameWidget_emit (EAttention (cid k))) |].
    by repeat split.
  - unfold onRecaptchaSuccess. destruct (pendingForm s) as [f |]; [| apply sameWidget_refl].
    assert (sameWidget s (if canRequestSubmit s
                          then if valid
                               then let '(ok, s') := onSubmitForm (Some f) (emit (ERequestSubmit f) s) in
                                    if ok then emit (EFormSubmit f) s' else s'
                               else emit (ERequestSubmit f) s
                          else emit (EFormSubmit f) s)) as Hs.
    { destruct (canRequestSubmit s); [| by apply sameWidget_emit].
      destruct valid; [| by apply sameWidget_emit].
      pose proof (onSubmitForm_rendered (Some f) (emit (ERequestSubmit f) s) wid H) as Hh.
      destruct (onSubmitForm (Some f) (emit (ERequestSubmit f) s)) as [ok s'].
      cbn [snd] in Hh.
      assert (sameWidget s s') as Hss
        by (eapply sameWidget_trans; [by apply (sameWidget_emit (ERequestSubmit f)) | exact Hh]).
      destruct ok; [| exact Hss].
      eapply sameWidget_trans; [exact Hss | by apply sameWidget_emit]. }
    eapply sameWidget_trans; [exact Hs |]. by repeat split.
  - unfold onRecaptchaExpired. rewrite H.
    destruct (resetAvailable _); [by apply sameWidget_emit | apply sameWidget_refl].
  - unfold onRecaptchaError, onRecaptchaExpired. rewrite H.
    destruct (resetAvailable _); [by apply sameWidget_emit | apply sameWidget_refl].
  - unfold onRecaptchaApiLoad.
    destruct (firstContainer _) as [k |]; [| by repeat split].
    destruct (negb _); [| by repeat split].
    by rewrite (renderRecaptchaIfNeeded_rendered _ wid).
  - by repeat split.
  - destruct (existsb _ _); [| apply sameWidget_refl].
    unfold pollTick. destruct (renderAvailable _); [| apply sameWidget_refl].
    rewrite (renderRecaptchaIfNeeded_rendered _ wid) by done.
    eapply sameWidget_trans; [| by apply sameWidget_emit]. by repeat split.
Qed.


(** What a handler leaves alone: the widget API, and with it in place the
    pollers, none of which is added. *)
Lemma renderRecaptchaIfNeeded_api (s : State) :
  grecaptcha (renderRecaptchaIfNeeded s) = grecaptcha s
  /\ (renderAvailable (grecaptcha s) = true ->
      intervals (renderRecaptchaIfNeeded s) = intervals s).
Proof.
  unfold renderRecaptchaIfNeeded.
  destruct (recaptchaWidgetId s); [done |].
  destruct (firstWidget s) as [e |]; [| done].
  destruct (grecaptcha s) as [[[renderFn |] rs gr] |] eqn:Hg; cbn [renderAvailable render];
    [| done | done].
  destruct (renderFn _); [| cbn; by rewrite Hg].
  destruct (orNull _); cbn; by rewrite Hg.
Qed.

Lemma showRecaptcha_api (s : State) :
  grecaptcha (showRecaptcha s) = grecaptcha s
  /\ (renderAvailable (grecaptcha s) = true -> intervals (showRecaptcha s) = intervals s).
Proof.
  unfold showRecaptcha. destruct (firstContainer s) as [k |]; [| done].
  cbn [grecaptcha intervals emit].
  match goal with
  | |- context [renderRecaptchaIfNeeded ?x] =>
      destruct (renderRecaptchaIfNeeded_api x) as [H1 H2];
      assert (grecaptcha x = grecaptcha s /\ intervals x = intervals s) as [H3 H4]
        by (unfold updFirstContainer; by destruct (containers s))
  end.
  rewrite H1, H3. split; [done |]. intros Hav. rewrite H2 by (by rewrite H3). exact H4.
Qed.

Lemma onSubmitForm_api (target : option nat) (s : State) :
  grecaptcha (snd (onSubmitForm target s)) = grecaptcha s
  /\ (renderAvailable (grecaptcha s) = true ->
      intervals (snd (onSubmitForm target s)) = intervals s).
Proof.
  unfold onSubmitForm.
  destruct (match target with Some f => Some f | None => contactForm s end) as [f |]; [| done].
  destruct (solved s); [done |]. cbn [snd].
  match goal with
  | |- context [showRecaptcha ?x] => destruct (showRecaptcha_api x) as [H1 H2]
  end.
  rewrite H1. split; [done |]. intros Hav. by rewrite H2.
Qed.

Lemma step_api (ev : Event) (s : State) :
  (forall g, ev <> ApiDefined g) ->
  grecaptcha (step ev s) = grecaptcha s.
Proof.
  intros Hev. destruct ev; cbn [step].
  - apply onSubmitForm_api.
  - destruct (contactForm s); [| done]. unfold onSubmitClick.
    destruct (firstContainer s); [| done]. destruct (negb _); [| done].
    destruct (response s); [| done]. by destruct (String.eqb _ _).
  - unfold onRecaptchaSuccess. destruct (pendingForm s) as [f |]; [| done].
    cbn [grecaptcha set_pendingForm]. destruct (canRequestSubmit s); [| done].
    destruct valid; [| done].
    pose proof (onSubmitForm_api (Some f) (emit (ERequestSubmit f) s)) as [H _].
    destruct (onSubmitForm _ _) as [[|] s']; exact H.
  - unfold onRecaptchaExpired. destruct (recaptchaWidgetId s); [| done].
    by destruct (resetAvailable _).
  - unfold onRecaptchaError, onRecaptchaExpired. destruct (recaptchaWidgetId s); [| done].
    by destruct (resetAvailable _).
  - unfold onRecaptchaApiLoad. destruct (firstContainer _); [| done].
    destruct (negb _); [| done].
    by destruct (renderRecaptchaIfNeeded_api (set_apiLoaded true s)) as [-> _].
  - by destruct (Hev g).
  - destruct (existsb _ _); [| done]. unfold pollTick.
    destruct (renderAvailable _); [| done].
    match goal with
    | |- context [renderRecaptchaIfNeeded ?x] =>
        by destruct (renderRecaptchaIfNeeded_api x) as [-> _]
    end.
Qed.

Lemma step_pollers (ev : Event) (s : State) :
  renderAvailable (grecaptcha s) = true ->
  (forall i, In i (intervals (step ev s)) -> In i (intervals s))
  /\ (forall id, ev = Tick id -> ~ In id (intervals (step ev s))).
Proof.
  intros Hav. destruct ev; cbn [step].
  - destruct (onSubmitForm_api target s) as [_ H]. rewrite H by done. by split.
  - split; [| done]. destruct (contactForm s); [| done]. unfold onSubmitClick.
    destruct (firstContainer s); [| done]. destruct (negb _); [| done].
    destruct (response s); [| done]. by destruct (String.eqb _ _).
  - split; [| done]. unfold onRecaptchaSuccess. destruct (pendingForm s) as [f |]; [| done].
    cbn [intervals set_pendingForm]. destruct (canRequestSubmit s); [| done].
    destruct valid; [| done].
    pose proof (onSubmitForm_api (Some f) (emit (ERequestSubmit f) s)) as [_ H].
    specialize (H Hav).
    destruct (onSubmitForm _ _) as [[|] s']; cbn [snd] in H; cbn [intervals emit];
      by rewrite H.
  - split; [| done]. unfold onRecaptchaExpired. destruct (recaptchaWidgetId s); [| done].
    by destruct (resetAvailable _).
  - split; [| done]. unfold onRecaptchaError, onRecaptchaExpired.
    destruct (recaptchaWidgetId s); [| done]. by destruct (resetAvailable _).
  - split; [| done]. unfold onRecaptchaApiLoad. destruct (firstContainer _); [| done].
    destruct (negb _); [| done].
    destruct (renderRecaptchaIfNeeded_api (set_apiLoaded true s)) as [_ H].
    by rewrite H.
  - by split.
  - assert (Hgone : forall i, In i (intervals (pollTick id s)) ->
                              In i (intervals s) /\ i <> id).
    { intros i. unfold pollTick. rewrite Hav.
      match goal with
      | |- context [renderRecaptchaIfNeeded ?x] =>
          destruct (renderRecaptchaIfNeeded_api x) as [_ H]
      end.
      rewrite H by done. cbn [intervals emit set_intervals].
      rewrite List.filter_In. intros [Hin Hne]. split; [done |].
      intros ->. by rewrite Nat.eqb_refl in Hne. }
    destruct (existsb (Nat.eqb id) (intervals s)) eqn:Hex.
    + split.
      * intros i Hi. by apply Hgone.
      * intros id' [= <-] Hin. by destruct (Hgone id Hin).
    + split; [done |]. intros id' [= <-] Hin.
      assert (existsb (Nat.eqb id) (intervals s) = true) as Ht
          by (apply List.existsb_exists; exists id; split; [done | apply Nat.eqb_refl]).
      congruence.
Qed.

(** X19. Once the render API is present and stays so, pollers only retire: no run
    adds a poller, and a poller that has ticked is gone for good. *)
Theorem pollers_only_retire_once_api_present :
  forall (evs : list Event) (s : State),
    renderAvailable (grecaptcha s) = true ->
    Forall (fun ev => forall g, ev = ApiDefined g -> renderAvailable (Some g) = true) evs ->
    (forall i, In i (intervals (run evs s)) -> In i (intervals s))
    /\ (forall id, In (Tick id) evs -> ~ In id (intervals (run evs s))).
Proof.
  induction evs as [| ev rest IH]; intros s Hav Hevs; [by split |].
  cbn [run fold_left]. fold (run rest (step ev s)).
  apply Forall_cons in Hevs. destruct Hevs as [Hev Hrest].
  assert (Hav1 : renderAvailable (grecaptcha (step ev s)) = true).
  { destruct ev; try (rewrite step_api; [done | done]).
    cbn [step]. by apply Hev. }
  destruct (IH (step ev s) Hav1 Hrest) as [I1 I2].
  destruct (step_pollers ev s Hav) as [S1 S2].
  split.
  - intros i Hi. by apply S1, I1.
  - intros id [-> | Hin]; [| by apply I2].
    intros Hid. apply I1 in Hid. by apply (S2 id).
Qed.

Lemma pollers_only_retire_once_api_present_witness :
  ~ In 0 (intervals (run [SubmitEvent (Some 0); Tick 0; Expired]
                         (set_grecaptcha (Some Scenario.apiUnsolved)
                            (renderRecaptchaIfNeeded (Scenario.formPage None))))).
Proof.
  apply (pollers_only_retire_once_api_present [SubmitEvent (Some 0); Tick 0; Expired]
           (set_grecaptcha (Some Scenario.apiUnsolved)
              (renderRecaptchaIfNeeded (Scenario.formPage None)))).
  - reflexivity.
  - apply Forall_cons_2; [intros g Hg; discriminate Hg |].
    apply Forall_cons_2; [intros g Hg; discriminate Hg |].
    apply Forall_cons_2; [intros g Hg; discriminate Hg |].
    apply Forall_nil_2.
  - right. left. reflexivity.
Defined.


Lemma count_noSubmit (l : list Effect) : forallb noSubmit l = true -> count isSend l = 0.
Proof.
  induction l as [| e rest IH]; [done |]. cbn [forallb]. intros H.
  apply andb_prop in H. destruct H as [He Hr].
  unfold count in *. cbn [List.filter]. destruct e; try done; by apply IH.
Qed.

Lemma sends_emit (e : Effect) (s : State) :
  isSend e = false -> count isSend (log (emit e s)) = count isSend (log s).
Proof.
  intros He. cbn [log emit]. rewrite count_app. unfold count at 2.
  cbn [List.filter]. rewrite He. simpl. lia.
Qed.

Lemma sends_renderRecaptchaIfNeeded (s : State) :
  count isSend (log (renderRecaptchaIfNeeded s)) = count isSend (log s).
Proof.
  destruct (renderRecaptchaIfNeeded_log s) as [l [Hl [Hn _]]].
  rewrite Hl, count_app, (count_noSubmit l Hn). lia.
Qed.

Lemma sends_showRecaptcha (s : State) :
  count isSend (log (showRecaptcha s)) = count isSend (log s).
Proof.
  unfold showRecaptcha. destruct (firstContainer s) as [k |]; [| done].
  rewrite sends_emit by done. rewrite sends_renderRecaptchaIfNeeded.
  match goal with
  | |- context [updFirstContainer ?f s] =>
      by destruct (updFirstContainer_frame f s) as [_ [-> _]]
  end.
Qed.

Lemma sends_onSubmitForm (target : option nat) (s : State) :
  count isSend (log (snd (onSubmitForm target s))) = count isSend (log s).
Proof.
  unfold onSubmitForm.
  destruct (match target with Some f => Some f | None => contactForm s end) as [f |]; [| done].
  destruct (solved s); [done |]. cbn [snd].
  rewrite sends_showRecaptcha. cbn [log set_pendingForm]. by apply sends_emit.
Qed.

(** The handler's verdict is the widget's: it lets the event through when
    the response is non-empty, and it alone decides. *)
Lemma onSubmitForm_verdict (f : nat) (s : State) :
  fst (onSubmitForm (Some f) s) = solved s.
Proof. unfold onSubmitForm. by destruct (solved s). Qed.

Lemma solved_emit (e : Effect) (s : State) : solved (emit e s) = solved s.
Proof. done. Qed.

Lemma count_cons {A} (p : A -> bool) (x : A) (l : list A) :
  count p (x :: l) = (if p x then 1 else 0) + count p l.
Proof. unfold count. cbn [List.filter]. by destruct (p x). Qed.

(** [showRecaptcha] does not call [requestSubmit]. *)
Lemma requests_showRecaptcha (s : State) :
  exists l, log (showRecaptcha s) = log s ++ l /\ count isRequest l = 0.
Proof.
  unfold showRecaptcha. destruct (firstContainer s) as [k |].
  2: { exists []. by rewrite app_nil_r. }
  set (s1 := updFirstContainer _ s).
  assert (Hl1 : log s1 = log s) by (subst s1; unfold updFirstContainer; by destruct (containers s)).
  assert (exists l, log (renderRecaptchaIfNeeded s1) = log s1 ++ l /\ count isRequest l = 0)
    as [l [Hl Hc]].
  { unfold renderRecaptchaIfNeeded.
    destruct (recaptchaWidgetId s1); [exists []; by rewrite app_nil_r |].
    destruct (firstWidget s1) as [e |]; [| exists []; by rewrite app_nil_r].
    destruct (grecaptcha s1) as [[[renderFn |] rs gr] |].
    - eexists [_]. split; [destruct (renderFn _); [| reflexivity]; destruct (orNull _); reflexivity | done].
    - by eexists [_].
    - by eexists [_]. }
  exists (l ++ [EScrollIntoView (cid k)]). cbn [log emit]. rewrite Hl, Hl1.
  split; [by rewrite <- app_assoc |]. rewrite count_app, Hc. done.
Qed.

Lemma onRecaptchaSuccess_pending (token : string) (valid : bool) (s : State) :
  pendingForm (onRecaptchaSuccess token valid s) = None.
Proof. unfold onRecaptchaSuccess. by destruct (pendingForm s) eqn:Hp. Qed.

(** What the solved callback sends when a form is pending. *)
Lemma onRecaptchaSuccess_sends (token : string) (valid : bool) (s : State) (f : nat) :
  pendingForm s = Some f ->
  count isSend (log (onRecaptchaSuccess token valid s))
  = count isSend (log s)
    + (if canRequestSubmit s then (if valid && solved s then 1 else 0) else 1).
Proof.
  intros Hp. unfold onRecaptchaSuccess. rewrite Hp.
  cbn [log set_pendingForm]. destruct (canRequestSubmit s).
  - destruct valid; cbn [andb].
    2: { rewrite sends_emit by done. lia. }
    pose proof (sends_onSubmitForm (Some f) (emit (ERequestSubmit f) s)) as Hs.
    pose proof (onSubmitForm_verdict f (emit (ERequestSubmit f) s)) as Hv.
    rewrite solved_emit in Hv. rewrite sends_emit in Hs by done.
    destruct (onSubmitForm (Some f) (emit (ERequestSubmit f) s)) as [ok s1].
    cbn [fst snd] in Hs, Hv. subst ok. destruct (solved s).
    + cbn [log emit]. rewrite count_app, Hs. by cbn.
    + rewrite Hs. lia.
  - cbn [log emit]. rewrite count_app. by cbn.
Qed.

(** What the solved callback calls on the pending form: [requestSubmit]
    when the form has it, [submit] otherwise, once. *)
Lemma onRecaptchaSuccess_calls (token : string) (valid : bool) (s : State) (f : nat) :
  pendingForm s = Some f ->
  exists l,
    log (onRecaptchaSuccess token valid s)
    = log s ++ (if canRequestSubmit s then ERequestSubmit f else EFormSubmit f) :: l
    /\ count isRequest l = 0.
Proof.
  intros Hp. unfold onRecaptchaSuccess. rewrite Hp.
  cbn [log set_pendingForm]. destruct (canRequestSubmit s).
  - destruct valid.
    2: { exists []. by split. }
    unfold onSubmitForm. destruct (solved (emit (ERequestSubmit f) s)).
    + exists [EFormSubmit f]. cbn [log emit]. split; [by rewrite <- app_assoc | done].
    + cbn [snd].
      destruct (requests_showRecaptcha
                  (set_pendingForm (Some f) (emit EPreventDefault (emit (ERequestSubmit f) s))))
        as [l [Hl Hc]].
      exists (EPreventDefault :: l). rewrite Hl. cbn [log emit set_pendingForm].
      split; [by rewrite <- !app_assoc | by rewrite count_cons].
  - exists []. by split.
Qed.

(** X16. form.js's solved callback with a pending form, [valid] telling
    whether the form's fields pass the browser's validation.  The pending
    form is cleared.  Without [requestSubmit] the callback calls
    [form.submit()] and the form is sent once.  With [requestSubmit] it
    calls that, once, and the form is sent once if the fields are valid and
    the widget's response is non-empty (the inline handler runs again and
    lets the event through), and not at all otherwise.  A second call right
    after does nothing. *)
Theorem success_callback_sends_pending_form_once :
  forall (token : string) (valid : bool) (s : State) (f : nat),
    pendingForm s = Some f ->
    let s' := onRecaptchaSuccess token valid s in
    pendingForm s' = None
    /\ (exists l,
          log s' = log s ++ (if canRequestSubmit s then ERequestSubmit f else EFormSubmit f) :: l
          /\ count isRequest l = 0)
    /\ count isSend (log s')
       = count isSend (log s)
         + (if canRequestSubmit s then (if valid && solved s then 1 else 0) else 1)
    /\ forall (token' : string) (valid' : bool), onRecaptchaSuccess token' valid' s' = s'.
Proof.
  intros token valid s f Hp s'. subst s'.
  split; [apply onRecaptchaSuccess_pending |].
  split; [by apply onRecaptchaSuccess_calls |].
  split; [by apply (onRecaptchaSuccess_sends token valid s f) |].
  intros token' valid'.
  unfold onRecaptchaSuccess at 1. by rewrite onRecaptchaSuccess_pending.
Qed.

Lemma success_callback_sends_pending_form_once_witness :
  count isSend (log (onRecaptchaSuccess "TOKEN123" true
                       (set_pendingForm (Some 0) Scenario.formPageSolved)))
  = 1
  /\ count isSend (log (onRecaptchaSuccess "TOKEN123" false
                          (set_pendingForm (Some 0) Scenario.formPageSolved)))
     = 0.
Proof.
  split.
  - apply (success_callback_sends_pending_form_once "TOKEN123" true
             (set_pendingForm (Some 0) Scenario.formPageSolved) 0).
    reflexivity.
  - apply (success_callback_sends_pending_form_once "TOKEN123" false
             (set_pendingForm (Some 0) Scenario.formPageSolved) 0).
    reflexivity.
Defined.

Lemma step_sends (ev : Event) (s : State) :
  count isSend (log (step ev s))
  <= count isSend (log s) + (if isSuccess ev then 1 else 0).
Proof.
  destruct ev; cbn [step isSuccess].
  - rewrite sends_onSubmitForm. lia.
  - destruct (contactForm s); [| lia]. unfold onSubmitClick.
    destruct (firstContainer s); [| lia]. destruct (negb _); [| lia].
    destruct (response s); [| lia]. destruct (String.eqb _ _); [| lia].
    cbn [log set_pendingForm]. rewrite !sends_emit by done. lia.
  - destruct (pendingForm s) as [f |] eqn:Hp.
    + rewrite (onRecaptchaSuccess_sends token valid s f Hp).
      destruct (canRequestSubmit s); [destruct (valid && solved s) |]; lia.
    + unfold onRecaptchaSuccess. rewrite Hp. lia.
  - unfold onRecaptchaExpired. destruct (recaptchaWidgetId s); [| lia].
    destruct (resetAvailable _); [| lia]. rewrite sends_emit by done. lia.
  - unfold onRecaptchaError, onRecaptchaExpired. destruct (recaptchaWidgetId s); [| lia].
    destruct (resetAvailable _); [| lia]. rewrite sends_emit by done. lia.
  - unfold onRecaptchaApiLoad. destruct (firstContainer _); [| simpl; lia].
    destruct (negb _); [| simpl; lia]. rewrite sends_renderRecaptchaIfNeeded. simpl. lia.
  - simpl. lia.
  - destruct (existsb _ _); [| lia]. unfold pollTick.
    destruct (renderAvailable _); [| lia].
    rewrite sends_renderRecaptchaIfNeeded, sends_emit by done. simpl. lia.
Qed.

(** X15. form.js renders once: from the moment a widget id is recorded, no
    sequence of events makes it call [grecaptcha.render] again or changes
    the id. *)
Theorem form_widget_rendered_once :
  forall (evs : list Event) (s : State) (wid : nat),
    recaptchaWidgetId s = Some wid ->
    recaptchaWidgetId (run evs s) = Some wid
    /\ renderCalls (run evs s) = renderCalls s
    /\ count isRender (log (run evs s)) = count isRender (log s).
Proof.
  induction evs as [| ev rest IH]; intros s wid H; [done |].
  cbn [run fold_left]. fold (run rest (step ev s)).
  destruct (step_rendered ev s wid H) as [H1 [H2 H3]].
  destruct (IH (step ev s) wid) as [I1 [I2 I3]]; [congruence |].
  repeat split; congruence.
Qed.

(** X17. form.js calls [form.submit()] only from its solved callback, and at most
    once per call: along every run the number of sends grows by at most the
    number of solved callbacks. *)
Theorem form_sends_bounded_by_solves :
  forall (evs : list Event) (s : State),
    count isSend (log (run evs s)) <= count isSend (log s) + count isSuccess evs.
Proof.
  induction evs as [| ev rest IH]; intros s; [simpl; lia |].
  cbn [run fold_left]. fold (run rest (step ev s)).
  specialize (IH (step ev s)). pose proof (step_sends ev s) as Hs.
  rewrite count_cons. lia.
Qed.

Lemma submit_without_api (f : nat) (s : State) :
  recaptchaWidgetId s = None ->
  firstWidget s <> None ->
  renderAvailable (grecaptcha s) = false ->
  let s' := step (SubmitEvent (Some f)) s in
  recaptchaWidgetId s' = None
  /\ firstWidget s' = firstWidget s
  /\ grecaptcha s' = grecaptcha s
  /\ intervals s' = intervals s ++ [nextInterval s]
  /\ nextInterval s' = S (nextInterval s).
Proof.
  intros Hw He Hav. cbn [step]. unfold onSubmitForm.
  assert (solved s = false) as -> by (unfold solved, response; by rewrite Hw).
  cbn [snd]. unfold showRecaptcha.
  destruct (firstContainer _) as [k |] eqn:Hk.
  2: { exfalso. apply He. unfold firstWidget. unfold firstContainer in Hk.
       cbn in Hk. by destruct (containers s). }
  set (s1 := updFirstContainer _ _).
  assert (H1 : recaptchaWidgetId s1 = None /\ firstWidget s1 = firstWidget s
               /\ grecaptcha s1 = grecaptcha s /\ intervals s1 = intervals s
               /\ nextInterval s1 = nextInterval s).
  { subst s1. rewrite firstWidget_updFirstContainer by done.
    unfold updFirstContainer. cbn [containers set_pendingForm emit].
    destruct (containers s); by cbn. }
  destruct H1 as [A [B [C [D E]]]].
  unfold renderRecaptchaIfNeeded. rewrite A, B.
  destruct (firstWidget s) as [e |]; [| done].
  rewrite C. destruct (grecaptcha s) as [[[renderFn |] rs gr] |]; [done | |];
    cbn; by rewrite ?A, ?B, ?C, ?D, ?E.
Qed.

(** X18. While the API is missing and no widget is rendered, every submit event
    installs one more poller: after [n] submit events the pending pollers
    are the old ones followed by [n] new ones (form.js has no guard against
    a poller already running). *)
Theorem pollers_stack_without_api :
  forall (n f : nat) (s : State),
    recaptchaWidgetId s = None ->
    firstWidget s <> None ->
    renderAvailable (grecaptcha s) = false ->
    intervals (run (repeat (SubmitEvent (Some f)) n) s)
    = intervals s ++ seq (nextInterval s) n.
Proof.
  induction n as [| n IH]; intros f s Hw He Hav.
  - simpl. by rewrite app_nil_r.
  - cbn [repeat run fold_left]. fold (run (repeat (SubmitEvent (Some f)) n)
                                          (step (SubmitEvent (Some f)) s)).
    destruct (submit_without_api f s Hw He Hav) as [A [B [C [D E]]]].
    rewrite IH; [| done | by rewrite B | by rewrite C].
    rewrite D, E. cbn [seq]. by rewrite <- app_assoc.
Qed.

Lemma pollers_stack_without_api_witness :
  intervals (run (repeat (SubmitEvent (Some 0)) 3) (Scenario.formPage None)) = [0; 1; 2].
Proof.
  apply (pollers_stack_without_api 3 0 (Scenario.formPage None)).
  - reflexivity.
  - discriminate.
  - reflexivity.
Defined.

Lemma form_widget_rendered_once_witness :
  renderCalls (run [SubmitEvent (Some 0); ApiLoad; Tick 0; Expired; ClickSubmit]
                   Scenario.formPageSolved)
  = 1.
Proof.
  apply (form_widget_rendered_once
           [SubmitEvent (Some 0); ApiLoad; Tick 0; Expired; ClickSubmit]
           Scenario.formPageSolved 0).
  reflexivity.
Defined.

End FormLoopFacts.

(** *** The earlier responsive script *)

Section LegacyFacts.
Import Dom Legacy LegacySpec.

Lemma replaceChild_In (newEl : Element) (old : nat) (l : list Element) (y : Element) :
  NoDup (List.map eid l) ->
  In y (replaceChild newEl old l) -> y = newEl \/ (In y l /\ eid y <> old).
Proof.
  induction l as [| x rest IH]; simpl; [done |]. intros Hnd Hin.
  apply NoDup_cons in Hnd. destruct Hnd as [Hx Hnd].
  destruct (Nat.eqb_spec (eid x) old) as [He | He].
  - destruct Hin as [<- | Hin]; [by left |]. right. split; [by right |].
    intros Hy. apply Hx. apply list_elem_of_In, List.in_map_iff. exists y.
    split; [congruence | done].
  - destruct Hin as [<- | Hin]; [right; split; [by left | done] |].
    destruct (IH Hnd Hin) as [-> | [H1 H2]]; [by left | right; split; [by right | done]].
Qed.

Lemma replaceChild_keeps (newEl : Element) (old : nat) (l : list Element) (y : Element) :
  In y l -> eid y <> old -> In y (replaceChild newEl old l).
Proof.
  induction l as [| x rest IH]; simpl; [done |]. intros [-> | Hin] Hne.
  - destruct (Nat.eqb_spec (eid y) old); [done | by left].
  - destruct (Nat.eqb (eid x) old); right; [done | by apply IH].
Qed.

Lemma replaceChild_ids (newEl : Element) (old : nat) (l : list Element) (i : nat) :
  In i (List.map eid (replaceChild newEl old l)) -> i = eid newEl \/ In i (List.map eid l).
Proof.
  induction l as [| x rest IH]; simpl; [done |].
  destruct (Nat.eqb (eid x) old); simpl.
  - intros [<- | H]; [by left | right; by right].
  - intros [<- | H]; [right; by left |]. destruct (IH H); [by left | right; by right].
Qed.

Lemma replaceChild_NoDup (newEl : Element) (old : nat) (l : list Element) :
  NoDup (List.map eid l) -> ~ In (eid newEl) (List.map eid l) ->
  NoDup (List.map eid (replaceChild newEl old l)).
Proof.
  induction l as [| x rest IH]; simpl; [done |]. intros Hnd Hn.
  apply NoDup_cons in Hnd. destruct Hnd as [Hx Hnd].
  destruct (Nat.eqb (eid x) old); simpl; apply NoDup_cons.
  - split; [| done]. intros H. apply Hn. right. by apply list_elem_of_In.
  - split; [| apply IH; [done | tauto]].
    intros H. apply list_elem_of_In, replaceChild_ids in H.
    destruct H as [H | H]; [apply Hn; by left |]. apply Hx. by apply list_elem_of_In.
Qed.

Lemma length_replaceChild (newEl : Element) (old : nat) (l : list Element) :
  length (replaceChild newEl old l) = length l.
Proof.
  induction l as [| x rest IH]; simpl; [done |].
  destruct (Nat.eqb (eid x) old); simpl; [done | by rewrite IH].
Qed.

Lemma hasParent_In (e : Element) (w : World) : In e (nodes w) -> hasParent (eid e) w = true.
Proof.
  intros H. unfold hasParent. apply List.existsb_exists. exists e.
  split; [done | apply Nat.eqb_refl].
Qed.

Lemma sameAttr_refl (a : option string) : sameAttr a a = true.
Proof. destruct a; [apply String.eqb_refl | done]. Qed.

Lemma reflects_stamped (size : option string) (n : nat) (cls : list string) (a : Attrs) :
  getAttribute "data-size" a = orNull size ->
  getAttribute "data-recaptcha-rendered-size" a = Some (orEmpty size) ->
  reflects size (mkElement n cls a) = true.
Proof.
  intros H1 H2. unfold reflects. cbn [attrs]. rewrite H1, H2, sameAttr_refl, andb_true_r.
  destruct size; apply String.eqb_refl.
Qed.

(** Replacing a node of a well-formed list by a new one, then touching
    only the new one. *)
Lemma replaced_list (l : list Element) (newEl : Element) (old n : nat)
      (h : Element -> Element) :
  NoDup (List.map eid l) ->
  Forall (fun x => eid x < n) l ->
  eid newEl = n ->
  (forall x, eid (h x) = eid x) ->
  (forall x, eid x <> n -> h x = x) ->
  let l' := List.map h (replaceChild newEl old l) in
  NoDup (List.map eid l')
  /\ Forall (fun x => eid x < S n) l'
  /\ (forall y, In y l' -> y = h newEl \/ (In y l /\ eid y <> old))
  /\ (forall y, In y l -> eid y <> old -> In y l')
  /\ length l' = length l.
Proof.
  intros Hnd Hlt Hn Hh1 Hh2 l'. subst l'.
  assert (Hfresh : ~ In (eid newEl) (List.map eid l)).
  { intros H. apply List.in_map_iff in H. destruct H as [x [Hx Hin]].
    rewrite Forall_forall in Hlt. apply list_elem_of_In in Hin. specialize (Hlt x Hin).
    simpl in Hlt. lia. }
  assert (Hids : List.map eid (List.map h (replaceChild newEl old l))
                 = List.map eid (replaceChild newEl old l)).
  { rewrite List.map_map. apply List.map_ext. exact Hh1. }
  split; [rewrite Hids; by apply replaceChild_NoDup |].
  split.
  { apply Forall_forall. intros y Hy. apply list_elem_of_In, List.in_map_iff in Hy.
    destruct Hy as [x [<- Hx]]. rewrite Hh1.
    destruct (replaceChild_In _ _ _ _ Hnd Hx) as [-> | [Hin _]]; [lia |].
    rewrite Forall_forall in Hlt. apply list_elem_of_In in Hin. specialize (Hlt x Hin).
    simpl in Hlt. lia. }
  split.
  { intros y Hy. apply List.in_map_iff in Hy. destruct Hy as [x [<- Hx]].
    destruct (replaceChild_In _ _ _ _ Hnd Hx) as [-> | [Hin Hne]]; [by left |].
    right. rewrite Hh2; [by split |].
    rewrite Forall_forall in Hlt. apply list_elem_of_In in Hin. specialize (Hlt x Hin).
    simpl in Hlt. lia. }
  split.
  { intros y Hin Hne. apply List.in_map_iff. exists y. split.
    - apply Hh2. rewrite Forall_forall in Hlt. apply list_elem_of_In in Hin.
      specialize (Hlt y Hin). simpl in Hlt. lia.
    - by apply replaceChild_keeps. }
  by rewrite List.length_map, length_replaceChild.
Qed.

Lemma replaceCount_snoc (l : list Effect) (x : Effect) :
  replaceCount (l ++ [x])
  = replaceCount l + match x with EReplaceChild _ _ => 1 | _ => 0 end.
Proof.
  unfold replaceCount. rewrite List.filter_app, List.length_app. by destruct x.
Qed.

(** What [replaceAndMaybeRender] does to a well-formed document when the
    node has a parent. *)
Lemma replaceAndMaybeRender_nodes (old : Element) (size : option string) (w : World) :
  wellFormed w ->
  hasParent (eid old) w = true ->
  hasClass "g-recaptcha" (classes old) = true ->
  let w' := replaceAndMaybeRender old size w in
  wellFormed w'
  /\ (forall y, In y (nodes w') ->
                (hasClass "g-recaptcha" (classes y) = true /\ reflects size y = true)
                \/ (In y (nodes w) /\ eid y <> eid old))
  /\ (forall y, In y (nodes w) -> eid y <> eid old -> In y (nodes w'))
  /\ length (nodes w') = length (nodes w)
  /\ innerWidth w' = innerWidth w
  /\ grecaptcha w' = grecaptcha w
  /\ replaceCount (log w') = S (replaceCount (log w))
  /\ renderCalls w' = renderCalls w + (if renderAvailable (grecaptcha w) then 1 else 0).
Proof.
  intros [Hnd Hlt] Hpar Hcls w'. subst w'. unfold replaceAndMaybeRender.
  rewrite Hpar. cbn [negb]. cbv zeta.
  assert (Hc : match classes old with [] => ["g-recaptcha"] | cls => cls end = classes old)
    by (by destruct (classes old)).
  rewrite Hc. unfold copyDataAttributes. fold (LoopSpec.stamped size (attrs old)).
  set (newEl := mkElement (nextNode w) (classes old) (LoopSpec.stamped size (attrs old))).
  destruct (stamped_size size (attrs old)) as [Hs1 Hs2].
  assert (Hre : reflects size newEl = true) by (by apply reflects_stamped).
  assert (Hgen : forall h,
             (forall x, eid (h x) = eid x) ->
             (forall x, eid x <> nextNode w -> h x = x) ->
             (hasClass "g-recaptcha" (classes (h newEl)) = true
              /\ reflects size (h newEl) = true) ->
             let l' := List.map h (replaceChild newEl (eid old) (nodes w)) in
             (NoDup (List.map eid l') /\ Forall (fun x => eid x < S (nextNode w)) l')
             /\ (forall y, In y l' ->
                   (hasClass "g-recaptcha" (classes y) = true /\ reflects size y = true)
                   \/ (In y (nodes w) /\ eid y <> eid old))
             /\ (forall y, In y (nodes w) -> eid y <> eid old -> In y l')
             /\ length l' = length (nodes w)).
  { intros h Hh1 Hh2 Hh3 l'.
    destruct (replaced_list (nodes w) newEl (eid old) (nextNode w) h Hnd Hlt eq_refl Hh1 Hh2)
      as [A [B [C [D E]]]].
    split; [by split |]. split; [| by split].
    intros y Hy. destruct (C y Hy) as [-> | H]; [by left | by right]. }
  destruct (grecaptcha w) as [[[renderFn |] rs gr] |] eqn:Hg;
    cbn [grecaptcha emit set_nodes set_nextNode renderAvailable render].
  - rewrite Hg. cbn [renderCalls emit set_nodes set_nextNode set_renderCalls].
    destruct (renderFn (renderCalls w)) as [wid |].
    + unfold setLiveAttribute, wellFormed.
      cbn [nodes nextNode innerWidth grecaptcha log renderCalls emit set_nodes set_nextNode
           set_renderCalls eid newEl].
      edestruct (Hgen (fun x => if Nat.eqb (eid x) (nextNode w)
                                then mkElement (eid x) (classes x)
                                       (setAttribute "data-recaptcha-widget-id" (pretty wid)
                                          (attrs x))
                                else x)) as [A [B [C D]]].
      * intros x. by destruct (Nat.eqb (eid x) (nextNode w)).
      * intros x Hx. apply Nat.eqb_neq in Hx. by rewrite Hx.
      * cbn [eid newEl]. rewrite Nat.eqb_refl. cbn [classes newEl]. split; [done |].
        apply reflects_stamped; cbn [attrs newEl];
          by rewrite getAttribute_setAttribute_other.
      * split; [exact A |]. split; [exact B |]. split; [exact C |]. split; [exact D |].
        split; [done |]. split; [done |].
        rewrite !replaceCount_snoc. split; lia.
    + unfold wellFormed.
      cbn [nodes nextNode innerWidth grecaptcha log renderCalls emit set_nodes set_nextNode
           set_renderCalls].
      destruct (Hgen id) as [A [B [C D]]]; [done | done | done |].
      rewrite List.map_id in *.
      split; [exact A |]. split; [exact B |]. split; [exact C |]. split; [exact D |].
      split; [done |]. split; [done |].
      rewrite !replaceCount_snoc. split; lia.
  - rewrite Hg. unfold wellFormed.
    cbn [nodes nextNode innerWidth grecaptcha log renderCalls emit set_nodes set_nextNode].
    destruct (Hgen id) as [A [B [C D]]]; [done | done | done |].
    rewrite List.map_id in *.
    split; [exact A |]. split; [exact B |]. split; [exact C |]. split; [exact D |].
    split; [done |]. split; [done |].
    rewrite !replaceCount_snoc. split; lia.
  - rewrite Hg. unfold wellFormed.
    cbn [nodes nextNode innerWidth grecaptcha log renderCalls emit set_nodes set_nextNode].
    destruct (Hgen id) as [A [B [C D]]]; [done | done | done |].
    rewrite List.map_id in *.
    split; [exact A |]. split; [exact B |]. split; [exact C |]. split; [exact D |].
    split; [done |]. split; [done |].
    rewrite !replaceCount_snoc. split; lia.
Qed.

Lemma stale_cons (size : option string) (e : Element) (l : list Element) :
  length (stale size (e :: l))
  = (if reflects size e then 0 else 1) + length (stale size l).
Proof. unfold stale. cbn [List.filter]. by destruct (reflects size e). Qed.

(** The [forEach] loop of [applyCompact], over the placeholders still to
    visit. *)
Lemma applyCompact_loop (size : option string) (rest : list Element) :
  forall (w : World),
    wellFormed w ->
    NoDup (List.map eid rest) ->
    (forall e, In e rest -> In e (nodes w) /\ hasClass "g-recaptcha" (classes e) = true) ->
    (forall y, In y (nodes w) -> hasClass "g-recaptcha" (classes y) = true ->
               reflects size y = true \/ In y rest) ->
    let w' := fold_left (applyCompactOne size) rest w in
    wellFormed w'
    /\ (forall y, In y (nodes w') -> hasClass "g-recaptcha" (classes y) = true ->
                  reflects size y = true)
    /\ length (nodes w') = length (nodes w)
    /\ innerWidth w' = innerWidth w
    /\ grecaptcha w' = grecaptcha w
    /\ replaceCount (log w') = replaceCount (log w) + length (stale size rest)
    /\ renderCalls w'
       = renderCalls w
         + (if renderAvailable (grecaptcha w) then length (stale size rest) else 0).
Proof.
  induction rest as [| e rest IH]; intros w Hwf Hnd Hin Hcov.
  - cbn [fold_left]. split; [done |]. split.
    + intros y Hy Hc. destruct (Hcov y Hy Hc) as [H | []]. exact H.
    + cbn. repeat split; try lia. destruct (renderAvailable _); lia.
  - cbn [fold_left]. cbn [List.map] in Hnd. apply NoDup_cons in Hnd.
    destruct Hnd as [He Hnd]. rewrite stale_cons.
    destruct (Hin e (or_introl eq_refl)) as [Hedoc Hecls].
    destruct (reflects size e) eqn:Hr.
    + assert (applyCompactOne size w e = w) as -> by (unfold applyCompactOne; by rewrite Hr).
      destruct (IH w Hwf Hnd) as [A [B [C [D [E [F G]]]]]].
      * intros x Hx. apply Hin. by right.
      * intros y Hy Hc. destruct (Hcov y Hy Hc) as [H | [<- | H]]; [by left | by left | by right].
      * cbn [Nat.add]. split; [exact A |]. by repeat split.
    + assert (applyCompactOne size w e = replaceAndMaybeRender e size w) as ->
          by (unfold applyCompactOne; by rewrite Hr).
      pose proof (replaceAndMaybeRender_nodes e size w Hwf (hasParent_In e w Hedoc) Hecls)
        as [Hwf1 [H1 [H2 [H3 [H4 [H5 [H6 H7]]]]]]].
      destruct (IH (replaceAndMaybeRender e size w) Hwf1 Hnd) as [A [B [C [D [E [F G]]]]]].
      * intros x Hx. destruct (Hin x (or_intror Hx)) as [Hxd Hxc]. split; [| done].
        apply H2; [done |]. intros Heq. apply He.
        apply list_elem_of_In, List.in_map_iff. exists x. by split.
      * intros y Hy Hc. destruct (H1 y Hy) as [[_ Hre] | [Hyd Hne]]; [by left |].
        destruct (Hcov y Hyd Hc) as [H | [<- | H]]; [by left | done | by right].
      * split; [exact A |]. split; [exact B |]. split; [congruence |].
        split; [congruence |]. split; [congruence |].
        rewrite F, G, H5, H6, H7. split; [lia |].
        destruct (renderAvailable (grecaptcha w)); lia.
Qed.

Lemma querySelectorAll_spec (w : World) (e : Element) :
  In e (querySelectorAll w) <-> In e (nodes w) /\ hasClass "g-recaptcha" (classes e) = true.
Proof. unfold querySelectorAll. apply List.filter_In. Qed.

Lemma applyCompact_facts (w : World) :
  wellFormed w ->
  let w' := applyCompact w in
  wellFormed w'
  /\ (forall y, In y (nodes w') -> hasClass "g-recaptcha" (classes y) = true ->
                reflects (desiredSize w) y = true)
  /\ length (nodes w') = length (nodes w)
  /\ innerWidth w' = innerWidth w
  /\ grecaptcha w' = grecaptcha w
  /\ replaceCount (log w')
     = replaceCount (log w) + length (stale (desiredSize w) (querySelectorAll w))
  /\ renderCalls w'
     = renderCalls w
       + (if renderAvailable (grecaptcha w)
          then length (stale (desiredSize w) (querySelectorAll w)) else 0).
Proof.
  intros Hwf. unfold applyCompact. apply applyCompact_loop; [done | | |].
  - unfold querySelectorAll. apply NoDup_map_filter. by destruct Hwf.
  - intros e He. by apply querySelectorAll_spec.
  - intros y Hy Hc. right. by apply querySelectorAll_spec.
Qed.

Lemma applyCompact_settled (size : option string) (l : list Element) (w : World) :
  Forall (fun e => reflects size e = true) l ->
  fold_left (applyCompactOne size) l w = w.
Proof.
  induction l as [| e rest IH]; intros H; [done |].
  apply Forall_cons in H. destruct H as [He Hr].
  cbn [fold_left].
  assert (applyCompactOne size w e = w) as -> by (unfold applyCompactOne; by rewrite He).
  by apply IH.
Qed.

Lemma desiredSize_innerWidth (w w' : World) :
  innerWidth w' = innerWidth w -> desiredSize w' = desiredSize w.
Proof. intros H. unfold desiredSize. by rewrite H. Qed.

Lemma wellFormed_frame (w w' : World) :
  nodes w' = nodes w -> nextNode w' = nextNode w -> wellFormed w -> wellFormed w'.
Proof. intros H1 H2. unfold wellFormed. by rewrite H1, H2. Qed.

Lemma existsb_snoc (id : nat) (l : list nat) : existsb (Nat.eqb id) (l ++ [id]) = true.
Proof. rewrite existsb_app. cbn. by rewrite Nat.eqb_refl, orb_true_r. Qed.

(** X12. The earlier responsive script converges: on a well-formed document,
    after a resize to any width followed by its debounce timer, every
    placeholder reflects the size desired for the new width (rendered
    size and [data-size] both), whether it was rendered before or not; no
    node is lost. *)
Theorem legacy_resize_converges :
  forall (w : World) (width : Z),
    wellFormed w ->
    let w' := run [Resize width; TimerFires (nextTimer w)] w in
    innerWidth w' = width
    /\ Forall (fun e => reflects (desiredSize w') e = true) (querySelectorAll w')
    /\ length (nodes w') = length (nodes w)
    /\ wellFormed w'.
Proof.
  intros w width Hwf w'. subst w'. cbn [run fold_left step].
  set (w1 := onResize (set_innerWidth width w)).
  assert (H1 : nodes w1 = nodes w /\ nextNode w1 = nextNode w /\ innerWidth w1 = width
               /\ existsb (Nat.eqb (nextTimer w)) (timers w1) = true).
  { subst w1. unfold onResize. cbv zeta.
    cbn [resizeTimer set_innerWidth].
    destruct (resizeTimer w);
      cbn [nodes nextNode innerWidth timers set_resizeTimer emit set_timers set_innerWidth
           resizeTimer nextTimer];
      (split; [done |]); (split; [done |]); (split; [done |]); apply existsb_snoc. }
  destruct H1 as [Hn [Hnn [Hiw Hex]]]. rewrite Hex.
  set (w2 := set_timers _ _ w1).
  assert (Hwf2 : wellFormed w2) by (by apply (wellFormed_frame w); [rewrite <- Hn | rewrite <- Hnn |]).
  destruct (applyCompact_facts w2 Hwf2) as [A [B [C [D _]]]].
  split; [by rewrite D |]. split; [| split; [by rewrite C, <- Hn | exact A]].
  rewrite (desiredSize_innerWidth w2) by done.
  apply Forall_forall. intros e He. apply list_elem_of_In, querySelectorAll_spec in He.
  destruct He. by apply B.
Qed.

Lemma wellFormed_legacyPage (g : option Grecaptcha) (width : Z) :
  wellFormed (Samples.legacyPage g width).
Proof.
  split.
  - apply NoDup_cons_2; [| apply NoDup_singleton].
    intros H. apply list_elem_of_singleton in H. discriminate H.
  - apply Forall_cons_2; [cbn; lia |]. apply Forall_cons_2; [cbn; lia |]. apply Forall_nil_2.
Qed.

Lemma legacy_resize_converges_witness :
  innerWidth (run [Resize 300; TimerFires 0] (Samples.legacyPage (Some Scenario.apiUnsolved) 500))
  = 300%Z.
Proof.
  apply (legacy_resize_converges (Samples.legacyPage (Some Scenario.apiUnsolved) 500) 300).
  apply wellFormed_legacyPage.
Defined.

(** X13. Its [applyCompact] is idempotent: on a well-formed document a second run
    right after the first changes nothing. *)
Theorem legacy_applyCompact_idempotent :
  forall (w : World),
    wellFormed w -> applyCompact (applyCompact w) = applyCompact w.
Proof.
  intros w Hwf. destruct (applyCompact_facts w Hwf) as [A [B [C [D _]]]].
  unfold applyCompact at 1. apply applyCompact_settled.
  rewrite (desiredSize_innerWidth w) by done.
  apply Forall_forall. intros e He. apply list_elem_of_In, querySelectorAll_spec in He.
  destruct He. by apply B.
Qed.

(** X14. Its [applyCompact] replaces exactly the placeholders that do not reflect
    the desired size, each once, and calls [grecaptcha.render] once for each
    of them when the API is present and not at all when it is missing. *)
Theorem legacy_replaces_exactly_the_stale :
  forall (w : World),
    wellFormed w ->
    replaceCount (log (applyCompact w))
    = replaceCount (log w) + length (stale (desiredSize w) (querySelectorAll w))
    /\ renderCalls (applyCompact w)
       = renderCalls w
         + (if renderAvailable (grecaptcha w)
            then length (stale (desiredSize w) (querySelectorAll w)) else 0).
Proof.
  intros w Hwf. destruct (applyCompact_facts w Hwf) as [_ [_ [_ [_ [_ [F G]]]]]].
  by split.
Qed.

Lemma legacy_applyCompact_idempotent_witness :
  applyCompact (applyCompact (Samples.legacyPage (Some Scenario.apiUnsolved) 300))
  = applyCompact (Samples.legacyPage (Some Scenario.apiUnsolved) 300).
Proof.
  apply (legacy_applyCompact_idempotent (Samples.legacyPage (Some Scenario.apiUnsolved) 300)).
  apply wellFormed_legacyPage.
Defined.

Lemma legacy_replaces_exactly_the_stale_witness :
  replaceCount (log (applyCompact (Samples.legacyPage (Some Scenario.apiUnsolved) 300))) = 1
  /\ renderCalls (applyCompact (Samples.legacyPage (Some Scenario.apiUnsolved) 300)) = 2.
Proof.
  apply (legacy_replaces_exactly_the_stale (Samples.legacyPage (Some Scenario.apiUnsolved) 300)).
  apply wellFormed_legacyPage.
Defined.

(** On the sample page at 300 px the fresh placeholder is replaced and
    rendered compact; the one already compact is left alone. *)
Example legacy_sample_run :
  List.map eid (nodes (applyCompact (Samples.legacyPage (Some Scenario.apiUnsolved) 300)))
  = [2; 1].
Proof. reflexivity. Qed.

End LegacyFacts.

(** *** Anchor scrolling: what a handled click and the initial hash do *)

Section AnchorFacts.
Import AnchorScroll AnchorInit AnchorSpec.

Lemma acount_app (p : Effect -> bool) (a b : list Effect) :
  count p (a ++ b) = count p a + count p b.
Proof. unfold count. by rewrite List.filter_app, List.length_app. Qed.

(** Every way through [onDocumentClick] ends either before anything is
    done or in the same four steps on an element that exists. *)
Lemma onDocumentClick_cases (p : Page) (anchor : option string) :
  onDocumentClick p anchor = []
  \/ exists id t, id <> "" /\ findTarget p id = Some t
                  /\ onDocumentClick p anchor = scrollTo p id t.
Proof.
  unfold onDocumentClick. destruct anchor as [href |]; [| by left].
  destruct (String.eqb href ""); [by left |].
  destruct (parseUrl p href) as [url |].
  - destruct (_ || _); [by left |].
    destruct (String.eqb_spec (slice1 (hash url)) ""); [by left |].
    destruct (findTarget p _) as [t |] eqn:Ht; [| by left].
    right. by eexists _, t.
  - destruct (String.index 0 "#" href) as [i |]; [| by left].
    destruct (String.eqb_spec (String.substring (S i) (String.length href - S i) href) "");
      [by left |].
    destruct (findTarget p _) as [t |] eqn:Ht; [| by left].
    right. by eexists _, t.
Qed.

Lemma centerElement_one_scroll (p : Page) (t : Target) (b : string) :
  count isPrevent (centerElement p t b) = 0
  /\ count isPush (centerElement p t b) = 0
  /\ count isScroll (centerElement p t b) = 1
  /\ count isFocus (centerElement p t b) = 0
  /\ Forall (fun e => behaviorOf e = None \/ behaviorOf e = Some b) (centerElement p t b).
Proof.
  unfold centerElement. destruct (_ && _); repeat split; repeat constructor; by right.
Qed.

Lemma focusWithoutScroll_one_focus (t : Target) :
  count isPrevent (focusWithoutScroll t) = 0
  /\ count isPush (focusWithoutScroll t) = 0
  /\ count isScroll (focusWithoutScroll t) = 0
  /\ count isFocus (focusWithoutScroll t) = 1
  /\ Forall (fun e => behaviorOf e = None) (focusWithoutScroll t).
Proof.
  unfold focusWithoutScroll.
  destruct (tabindex t); destruct (focusOptionsThrow t); repeat split; repeat constructor.
Qed.

(** X20. The click handler acts all or nothing: it calls [preventDefault], scrolls,
    pushes a history entry and focuses the same number of times, at most
    once each, [preventDefault] first, and it scrolls with the behaviour
    chosen from the reduced-motion preference. *)
Theorem click_all_or_nothing :
  forall (p : Page) (anchor : option string),
    let l := onDocumentClick p anchor in
    count isPrevent l = count isPush l
    /\ count isPush l = count isScroll l
    /\ count isScroll l = count isFocus l
    /\ count isPrevent l <= 1
    /\ (l <> [] -> head l = Some EPreventDefault)
    /\ Forall (fun e => behaviorOf e = None \/ behaviorOf e = Some (DEFAULT_BEHAVIOR p)) l.
Proof.
  intros p anchor l. subst l.
  destruct (onDocumentClick_cases p anchor) as [-> | [id [t [_ [_ ->]]]]].
  - repeat split; try done. cbn. lia.
  - unfold scrollTo.
    destruct (centerElement_one_scroll p t (DEFAULT_BEHAVIOR p)) as [C1 [C2 [C3 [C4 C5]]]].
    destruct (focusWithoutScroll_one_focus t) as [F1 [F2 [F3 [F4 F5]]]].
    rewrite !acount_app, C1, C2, C3, C4, F1, F2, F3, F4.
    repeat split; try done.
    apply Forall_app. split; [repeat constructor; by left |].
    apply Forall_app. split; [exact C5 |].
    apply Forall_app. split; [repeat constructor; by left |].
    eapply Forall_impl; [exact F5 |]. intros e He. by left.
Qed.

(** X21. The centring for the initial hash never calls [preventDefault] and
    pushes no history entry; it scrolls at most once, focuses as often as
    it scrolls, and always scrolls with behaviour [auto]. *)
Theorem initial_hash_centres_without_history :
  forall (p : Page),
    let l := handleInitialHash p in
    count isPrevent l = 0
    /\ count isPush l = 0
    /\ count isScroll l = count isFocus l
    /\ count isScroll l <= 1
    /\ Forall (fun e => behaviorOf e = None \/ behaviorOf e = Some "auto") l.
Proof.
  intros p l. subst l. unfold handleInitialHash.
  destruct (String.eqb (hash (location p)) ""); [repeat split; try done; cbn; lia |].
  destruct (String.eqb (slice1 (hash (location p))) ""); [repeat split; try done; cbn; lia |].
  destruct (findTarget p _) as [t |]; [| repeat split; try done; cbn; lia].
  destruct (centerElement_one_scroll p t "auto") as [C1 [C2 [C3 [C4 C5]]]].
  destruct (focusWithoutScroll_one_focus t) as [F1 [F2 [F3 [F4 F5]]]].
  rewrite !acount_app, C1, C2, C3, C4, F1, F2, F3, F4.
  repeat split; try done.
  apply Forall_app. split; [exact C5 |].
  eapply Forall_impl; [exact F5 |]. intros e He. by left.
Qed.

(** X22. [focusWithoutScroll] gives the focus once, to an element that has a
    [tabindex] at that moment, with [preventScroll] unless the options make
    [focus] throw (the plain [focus] is then used); afterwards (the next
    animation frame included) the [tabindex] attribute is what it was
    before. *)
Theorem focus_restores_tabindex :
  forall (t : Target),
    tabindexAfter (node t) (focusWithoutScroll t) (tabindex t) = tabindex t
    /\ exists pre post,
         focusWithoutScroll t = pre ++ EFocus (node t) (negb (focusOptionsThrow t)) :: post
         /\ count isFocus pre = 0 /\ count isFocus post = 0
         /\ tabindexAfter (node t) pre (tabindex t) <> None.
Proof.
  intros t. unfold focusWithoutScroll, tabindexAfter.
  destruct (tabindex t) as [v |] eqn:Hv; destruct (focusOptionsThrow t); cbn;
    rewrite ?Nat.eqb_refl.
  - split; [done |]. exists [], [ESetTabindex (node t) v]. by repeat split.
  - split; [done |]. exists [], [ESetTabindex (node t) v]. by repeat split.
  - split; [done |]. exists [ESetTabindex (node t) "-1"], [ERemoveTabindexNextFrame (node t)].
    repeat split; try done. cbn. by rewrite Nat.eqb_refl.
  - split; [done |]. exists [ESetTabindex (node t) "-1"], [ERemoveTabindexNextFrame (node t)].
    repeat split; try done. cbn. by rewrite Nat.eqb_refl.
Qed.

(** A click on the same-page link of the sample page: the target has no
    [scrollIntoView], so the window is scrolled to the offset the fallback
    arrives at. *)
Example same_page_click :
  onDocumentClick Samples.samePage (Some "#form")
  = [EPreventDefault; EScrollTo 100 "smooth"; EPushState "#form";
     ESetTabindex 7 "-1"; EFocus 7 true; ERemoveTabindexNextFrame 7].
Proof. reflexivity. Qed.

End AnchorFacts.

(** *** The statements above on the sample pages *)

Section SampleRuns.
Import Dom ReadyQueue Display DisplaySpec LoopSpec.

Lemma resize_debounce_single_timer_witness :
  exists s,
    run 2 [Resize 300; Resize 500; UserSubmit; Resize 350] (Scenario.page None 500) = Some s
    /\ length (pendingResizes (world s)) <= 1.
Proof.
  destruct (run 2 [Resize 300; Resize 500; UserSubmit; Resize 350] (Scenario.page None 500))
    as [s |] eqn:Hrun; [| vm_compute in Hrun; discriminate Hrun].
  exists s. split; [reflexivity |].
  apply (resize_debounce_single_timer 2 [Resize 300; Resize 500; UserSubmit; Resize 350]
           (Scenario.page None 500) s); [apply justLoaded_page | exact Hrun].
Defined.

Lemma default_submits_bounded_by_solves_witness :
  exists s,
    run 2 [UserSubmit; WidgetSuccess "TOKEN123"; UserSubmit; UserSubmit]
        (Scenario.page (Some Scenario.apiUnsolved) 500) = Some s
    /\ defaultSubmits (log (world s)) + (if allowSubmit (world s) then 1 else 0) <= 1.
Proof.
  destruct (run 2 [UserSubmit; WidgetSuccess "TOKEN123"; UserSubmit; UserSubmit]
                (Scenario.page (Some Scenario.apiUnsolved) 500))
    as [s |] eqn:Hrun; [| vm_compute in Hrun; discriminate Hrun].
  exists s. split; [reflexivity |].
  apply (default_submits_bounded_by_solves 2
           [UserSubmit; WidgetSuccess "TOKEN123"; UserSubmit; UserSubmit]
           (Scenario.page (Some Scenario.apiUnsolved) 500) s);
    [apply justLoaded_page | reflexivity | exact Hrun].
Defined.

Lemma render_targets_are_fresh_nodes_witness :
  exists s,
    run 2 [UserSubmit; TimerFires 1; TimerFires 2] (Scenario.page (Some Scenario.apiThrowing) 500)
    = Some s
    /\ NoDup (renderedNodes (log (world s))).
Proof.
  destruct (run 2 [UserSubmit; TimerFires 1; TimerFires 2]
                (Scenario.page (Some Scenario.apiThrowing) 500))
    as [s |] eqn:Hrun; [| vm_compute in Hrun; discriminate Hrun].
  exists s. split; [reflexivity |].
  apply (render_targets_are_fresh_nodes 2 [UserSubmit; TimerFires 1; TimerFires 2]
           (Scenario.page (Some Scenario.apiThrowing) 500) s);
    [apply justLoaded_page | exact Hrun].
Defined.

(** The three renders of that run go to the nodes 1, 2 and 3, none to
    node 0 of the page. *)
Example throwing_render_nodes :
  option_map (fun s => renderedNodes (log (world s)))
    (run 2 [UserSubmit; TimerFires 1; TimerFires 2]
         (Scenario.page (Some Scenario.apiThrowing) 500))
  = Some [1; 2; 3].
Proof. vm_compute. reflexivity. Qed.

Lemma NoDup_placeholder_attrs : NoDup (List.map fst (attrs Scenario.placeholder)).
Proof.
  apply NoDup_cons_2; [| apply NoDup_singleton].
  intros H. apply list_elem_of_singleton in H. discriminate H.
Qed.

Lemma render_success_binds_widget_witness :
  exists s',
    attemptRender 1 (Some 0) (Scenario.page (Some Scenario.apiUnsolved) 500) = Returned s'
    /\ renderCalls (world s') = 1.
Proof.
  destruct (render_success_binds_widget 0 0 (Scenario.page (Some Scenario.apiUnsolved) 500)
              Scenario.container Scenario.placeholder
              (fun n => Some n) true (Some (fun _ => "")) 0
              eq_refl eq_refl eq_refl eq_refl eq_refl eq_refl NoDup_placeholder_attrs)
    as [s' [k' [e' [H1 [_ [_ [_ [_ [_ [_ [_ [_ [_ [_ [H12 _]]]]]]]]]]]]]]].
  exists s'. split; [exact H1 | exact H12].
Defined.

Lemma step_returns_witness :
  exists s', step 1 UserSubmit (Scenario.page None 500) = Some s'.
Proof.
  apply (step_returns 0 UserSubmit (Scenario.page None 500)).
  - intros H. discriminate H.
  - intros H. discriminate H.
Defined.

Lemma allRendered_renderedPage (width : Z) : allRendered (world (Scenario.renderedPage width)).
Proof.
  split; [reflexivity |]. intros c cur H.
  unfold currentPlaceholder, lookupContainer in H. cbn in H.
  destruct c; cbn in H; [| discriminate H]. by injection H as <-.
Qed.

Lemma applyCompact_allRendered_witness :
  exists s',
    applyCompact 1 (Scenario.renderedPage 300) = Returned s'
    /\ widgetsUntouched (world (Scenario.renderedPage 300)) (world s').
Proof.
  destruct (applyCompact_allRendered 0 (Scenario.renderedPage 300)
              (allRendered_renderedPage 300)) as [s' [H1 [H2 _]]].
  exists s'. by split.
Defined.

Lemma throwing_render_restarts_backoff_witness :
  exists s',
    attemptRender 1 (Some 0) (Scenario.page (Some Scenario.apiThrowing) 500) = Returned s'
    /\ currentAttempts 0 (world s') = 1.
Proof.
  destruct (throwing_render_restarts_backoff 0 (Scenario.page (Some Scenario.apiThrowing) 500)
              Scenario.container Scenario.placeholder
              (fun _ => None) true (Some (fun _ => ""))
              (Inv_justLoaded _ (justLoaded_page (Some Scenario.apiThrowing) 500))
              eq_refl (fun _ => eq_refl) eq_refl eq_refl eq_refl eq_refl)
    as [s' [k' [e' [H1 [_ [_ [_ [_ [_ [_ [_ [_ [_ [H11 _]]]]]]]]]]]]]].
  exists s'. split; [exact H1 | exact H11].
Defined.

End SampleRuns.
